(** * LitReview: the recursive crawl-and-download engine of [litReview.py]

    A shallow embedding of [PaperFetcher] and the properties of its
    rate-limited metadata client, PDF source resolver, file writer and
    depth-bounded, de-duplicated traversal.

    - Payloads are Python values as [response.json()] builds them.
    - The methods are programs over the state of the fetcher, with
      exceptions; the network, the clock and the disk are oracles.
    - A crawl is a pool of [process_paper] coroutines stepped by the event
      loop under an arbitrary schedule; a download tests the paths in one
      turn and creates its file in a later one.
    - The rate limiter under concurrent callers is a discrete-event
      simulation of its own ([RateLimiter]). *)

From Stdlib Require Import ZArith List String Ascii Lia Bool.
From Stdlib Require Import DecimalString DecimalZ.
From stdpp Require Import base list strings.

Open Scope Z_scope.
Set Warnings "-register-all".

(** ** Python values

    The payloads handled by the fetcher are the results of
    [response.json()]: dictionaries with string keys, lists, strings,
    numbers, booleans and [None].  Numbers are integers here (the only
    number the crawler reads is [year]). A dictionary is its list of
    bindings; a key is bound at most once and lookup takes the first
    binding. *)

Inductive json : Type :=
| JNull
| JBool (b : bool)
| JNum (n : Z)
| JStr (s : string)
| JArr (items : list json)
| JObj (fields : list (string * json)).

Abbreviation dict := (list (string * json)).

(** Python truth value: [None], [False], [0], [''], [[]] and [{}] are falsy. *)
Definition truthy (v : json) : bool :=
  match v with
  | JNull => false
  | JBool b => b
  | JNum n => negb (n =? 0)
  | JStr s => negb (String.eqb s "")
  | JArr items => match items with [] => false | _ => true end
  | JObj fields => match fields with [] => false | _ => true end
  end.

Fixpoint dict_lookup (d : dict) (k : string) : option json :=
  match d with
  | [] => None
  | (k', v) :: d' => if String.eqb k' k then Some v else dict_lookup d' k
  end.

(** [d.get(k)] and [d.get(k, dflt)]. *)
Definition get (d : dict) (k : string) : json :=
  match dict_lookup d k with Some v => v | None => JNull end.

Definition get_or (d : dict) (k : string) (dflt : json) : json :=
  match dict_lookup d k with Some v => v | None => dflt end.

(** [d[k] = v]: the binding is replaced in place, or added at the end. *)
Fixpoint dict_set (d : dict) (k : string) (v : json) : dict :=
  match d with
  | [] => [(k, v)]
  | (k', v') :: d' =>
      if String.eqb k' k then (k', v) :: d' else (k', v') :: dict_set d' k v
  end.

(** Structural equality of values, as a boolean. *)
Fixpoint json_eqb (a b : json) {struct a} : bool :=
  match a, b with
  | JNull, JNull => true
  | JBool x, JBool y => Bool.eqb x y
  | JNum x, JNum y => x =? y
  | JStr x, JStr y => String.eqb x y
  | JArr xs, JArr ys =>
      (fix go (xs ys : list json) {struct xs} : bool :=
         match xs, ys with
         | [], [] => true
         | x :: xs', y :: ys' => json_eqb x y && go xs' ys'
         | _, _ => false
         end) xs ys
  | JObj xs, JObj ys =>
      (fix go (xs ys : dict) {struct xs} : bool :=
         match xs, ys with
         | [], [] => true
         | (k, x) :: xs', (k', y) :: ys' =>
             String.eqb k k' && json_eqb x y && go xs' ys'
         | _, _ => false
         end) xs ys
  | _, _ => false
  end.

(** A [set] only takes hashable members: lists and dictionaries raise
    [TypeError]. *)
Definition hashable (v : json) : bool :=
  match v with
  | JArr _ | JObj _ => false
  | _ => true
  end.

(** Python compares [True] with [1] and [False] with [0] as equal (and
    hashes them alike), so a set holding one holds the other. *)
Definition key_norm (v : json) : json :=
  match v with
  | JBool b => JNum (if b then 1 else 0)
  | _ => v
  end.

Definition key_eqb (a b : json) : bool := json_eqb (key_norm a) (key_norm b).

(** [v in s] for a set [s] of hashable values. *)
Definition set_mem (v : json) (s : list json) : bool := existsb (key_eqb v) s.

(** [str(n)] for an integer. *)
Definition str_of_Z (n : Z) : string := NilEmpty.string_of_int (Z.to_int n).

Fixpoint join_with (sep : string) (l : list string) : string :=
  match l with
  | [] => ""
  | [x] => x
  | x :: l' => x +:+ sep +:+ join_with sep l'
  end.

(** [repr(s)] for a string whose characters are code points below 256:
    double quotes are used when the string holds an apostrophe and no
    double quote, single quotes otherwise; the quote in use and the
    backslash are escaped, tab, line feed and carriage return are written
    [\t], [\n] and [\r], and the other characters that are not printable
    as [\xhh]. *)
Definition hex_digit (n : N) : ascii :=
  ascii_of_N (if n <? 10 then 48 + n else 87 + n)%N.

Definition printable (c : ascii) : bool :=
  let n := N_of_ascii c in
  ((32 <=? n) && (n <? 127) || (161 <=? n) && negb (n =? 173))%N.

Fixpoint has_char (c : ascii) (s : string) : bool :=
  match s with
  | EmptyString => false
  | String a s' => Ascii.eqb a c || has_char c s'
  end.

Fixpoint repr_chars (quote : ascii) (s : string) : string :=
  match s with
  | EmptyString => EmptyString
  | String c s' =>
      let rest := repr_chars quote s' in
      if Ascii.eqb c quote || Ascii.eqb c "\" then String "\" (String c rest)
      else if Ascii.eqb c "009" then String "\" (String "t" rest)
      else if Ascii.eqb c "010" then String "\" (String "n" rest)
      else if Ascii.eqb c "013" then String "\" (String "r" rest)
      else if printable c then String c rest
      else String "\" (String "x"
             (String (hex_digit (N_of_ascii c / 16)%N)
                (String (hex_digit (N_of_ascii c mod 16)%N) rest)))
  end.

Definition str_repr (s : string) : string :=
  let quote := (if has_char "'" s && negb (has_char "034" s)
                then "034" else "'")%char in
  String quote (repr_chars quote s +:+ String quote EmptyString).

(** [repr(v)] and [str(v)], as an f-string interpolates them. *)
Fixpoint py_repr (v : json) : string :=
  match v with
  | JNull => "None"
  | JBool true => "True"
  | JBool false => "False"
  | JNum n => str_of_Z n
  | JStr s => str_repr s
  | JArr items => "[" +:+ join_with ", " (map py_repr items) +:+ "]"
  | JObj fields =>
      "{" +:+ join_with ", "
                (map (fun kv => str_repr (fst kv) +:+ ": " +:+ py_repr (snd kv)) fields)
          +:+ "}"
  end.

Definition py_str (v : json) : string :=
  match v with
  | JStr s => s
  | _ => py_repr v
  end.

(** ** The environment

    Everything the fetcher observes from outside is an oracle of the
    [world]: the reply to the n-th HTTP request of the run, the reading of
    [time.time()] (in milliseconds) after n logged events, and the outcome
    of opening and writing a file.  The oracles are arbitrary functions of
    the position in the run, so a world can script any sequence of replies. *)

Record response : Type := {
  status : Z;
  json_body : option json;          (* [None]: [response.json()] raises *)
  headers : list (string * string);
  url : string
}.

Inductive reply : Type :=
| Reply (r : response)
| ConnectionError.

Inductive io_result : Type :=
| IoOk
| OpenError                         (* [aiofiles.open] raises: no file *)
| WriteError.                       (* raised after the file was created *)

Record world : Type := {
  http : nat -> string -> reply;
  clock : nat -> Z;
  io : nat -> string -> io_result
}.

(** Call sites of [asyncio.sleep]. *)
Inductive sleep_site : Type :=
| RateLimit                         (* [wait_for_rate_limit] *)
| Backoff                           (* after a 429 *)
| Retry.                            (* after an exception *)

Inductive event : Type :=
| Get (u : string)                  (* [session.get(u)] issued *)
| Sleep (site : sleep_site) (ms : Z)
| Create (path : string)            (* file opened for writing *)
| FetchDetails (paper_id : json) (res : option dict)
| DownloadPdf (paper_id : json) (ok : bool).

(** The fields of [self] that change, with the files on disk and the trace
    of what has happened so far. *)
Record fetcher : Type := {
  output_dir : string;
  visited_papers : list json;
  last_request_time : Z;
  files : list string;
  log : list event
}.

Definition emit (e : event) (s : fetcher) : fetcher :=
  {| output_dir := output_dir s; visited_papers := visited_papers s;
     last_request_time := last_request_time s; files := files s;
     log := log s ++ [e] |}.

Definition set_last_request_time (t : Z) (s : fetcher) : fetcher :=
  {| output_dir := output_dir s; visited_papers := visited_papers s;
     last_request_time := t; files := files s; log := log s |}.

Definition add_file (p : string) (s : fetcher) : fetcher :=
  {| output_dir := output_dir s; visited_papers := visited_papers s;
     last_request_time := last_request_time s; files := p :: files s;
     log := log s |}.

Definition add_visited (v : json) (s : fetcher) : fetcher :=
  {| output_dir := output_dir s; visited_papers := v :: visited_papers s;
     last_request_time := last_request_time s; files := files s;
     log := log s |}.

(** Number of HTTP requests issued so far. *)
Fixpoint requests (l : list event) : nat :=
  match l with
  | [] => O
  | Get _ :: l' => S (requests l')
  | _ :: l' => requests l'
  end.

(** ** Programs: state passing with exceptions *)

Inductive result (A : Type) : Type :=
| Ok (a : A)
| Raised.
Arguments Ok {A} a.
Arguments Raised {A}.

Definition prog (A : Type) : Type := fetcher -> result A * fetcher.

Definition ret {A} (a : A) : prog A := fun s => (Ok a, s).
Definition raise {A} : prog A := fun s => (Raised, s).
Definition bind {A B} (m : prog A) (k : A -> prog B) : prog B :=
  fun s => match m s with
           | (Ok a, s') => k a s'
           | (Raised, s') => (Raised, s')
           end.
(** [try: m except Exception: h] *)
Definition try_except {A} (m : prog A) (h : prog A) : prog A :=
  fun s => match m s with
           | (Ok a, s') => (Ok a, s')
           | (Raised, s') => h s'
           end.
Definition lift {A} (r : result A) : prog A := fun s => (r, s).

Notation "x <- m ;; k" := (bind m (fun x => k))
  (at level 100, m at next level, right associativity).
Notation "m ;;; k" := (bind m (fun _ => k))
  (at level 100, right associativity).

(** [v.get(k)]: [AttributeError] unless [v] is a dictionary. *)
Definition attr_get (v : json) (k : string) : result json :=
  match v with
  | JObj d => Ok (get d k)
  | _ => Raised
  end.

Definition as_dict (v : json) : result dict :=
  match v with
  | JObj d => Ok d
  | _ => Raised
  end.

(** [for x in v]: lists give their items, strings their characters,
    dictionaries their keys; anything else is not iterable. *)
Definition py_iter (v : json) : result (list json) :=
  match v with
  | JArr items => Ok items
  | JStr s => Ok (map (fun c => JStr (String c "")) (list_ascii_of_string s))
  | JObj fields => Ok (map (fun kv => JStr (fst kv)) fields)
  | _ => Raised
  end.

(** ** [os.path] on POSIX *)

Fixpoint rfind_from (c : ascii) (s : string) (i found : Z) : Z :=
  match s with
  | EmptyString => found
  | String a s' => rfind_from c s' (i + 1) (if Ascii.eqb a c then i else found)
  end.

(** [s.rfind(c)]: the last index of [c], or [-1]. *)
Definition rfind (c : ascii) (s : string) : Z := rfind_from c s 0 (-1).

Fixpoint str_take (n : nat) (s : string) : string :=
  match n, s with
  | S n', String a s' => String a (str_take n' s')
  | _, _ => EmptyString
  end.

Fixpoint str_drop (n : nat) (s : string) : string :=
  match n, s with
  | S n', String _ s' => str_drop n' s'
  | _, _ => s
  end.

Fixpoint all_dots (s : string) : bool :=
  match s with
  | EmptyString => true
  | String a s' => Ascii.eqb a "." && all_dots s'
  end.

(** [os.path.splitext]: the extension starts at the last dot of the last
    component, unless only dots precede it there. *)
Definition splitext (p : string) : string * string :=
  let sepIndex := rfind "/" p in
  let dotIndex := rfind "." p in
  if sepIndex <? dotIndex then
    let lead := str_take (Z.to_nat (dotIndex - (sepIndex + 1)))
                         (str_drop (Z.to_nat (sepIndex + 1)) p) in
    if all_dots lead then (p, EmptyString)
    else (str_take (Z.to_nat dotIndex) p, str_drop (Z.to_nat dotIndex) p)
  else (p, EmptyString).

Definition startswith_sep (s : string) : bool :=
  match s with
  | String a _ => Ascii.eqb a "/"
  | EmptyString => false
  end.

Fixpoint endswith_sep (s : string) : bool :=
  match s with
  | EmptyString => false
  | String a EmptyString => Ascii.eqb a "/"
  | String _ s' => endswith_sep s'
  end.

(** [os.path.join(a, b)] *)
Definition path_join (a b : string) : string :=
  if startswith_sep b then b
  else if String.eqb a "" || endswith_sep a then a +:+ b
  else a +:+ "/" +:+ b.

(** [os.path.basename(p)] *)
Definition basename (p : string) : string :=
  str_drop (Z.to_nat (rfind "/" p + 1)) p.

(** [os.path.exists(p)].  The disk is the list [fs] of the path strings
    that exist: those found at the start and those opened for writing
    since.  The model does not resolve names: a second spelling of a file
    ([papers/./a.pdf] for [papers/a.pdf]) and the directories (the output
    directory itself, reached with an empty file name) exist for the
    system and are in [fs] only if they are listed there. *)
Definition path_exists (fs : list string) (p : string) : bool :=
  existsb (String.eqb p) fs.

(** ** The metadata client *)

(** [self.request_interval = 2.0] seconds, in milliseconds. *)
Definition request_interval : Z := 2000.

Definition seconds (n : Z) : Z := 1000 * n.

(** What [wait_for_rate_limit] decides before it suspends: the time to
    sleep, if the last request is too recent. *)
Definition rate_limit_delay (now last : Z) : option Z :=
  if now - last <? request_interval
  then Some (request_interval - (now - last))
  else None.

Definition metadata_url (paper_id : json) : string :=
  "https://api.semanticscholar.org/graph/v1/paper/" +:+ py_str paper_id.

(** How the body of a loop iteration ends. *)
Inductive flow (A : Type) : Type :=
| Return (a : A)
| Continue.
Arguments Return {A} a.
Arguments Continue {A}.

Section Fetcher.

Context (w : world).

(** [time.time()] *)
Definition time_time : prog Z := fun s => (Ok (clock w (length (log s))), s).

(** [await asyncio.sleep(ms)] *)
Definition sleep (site : sleep_site) (ms : Z) : prog unit :=
  fun s => (Ok tt, emit (Sleep site ms) s).

(** [async with session.get(u) as response]: the request is issued, and the
    world replies or the transport fails. *)
Definition session_get (u : string) : prog response :=
  fun s => match http w (requests (log s)) u with
           | Reply r => (Ok r, emit (Get u) s)
           | ConnectionError => (Raised, emit (Get u) s)
           end.

(** [await response.json()] *)
Definition response_json (r : response) : prog json :=
  match json_body r with
  | Some v => ret v
  | None => raise
  end.

Definition wait_for_rate_limit : prog unit :=
  now <- time_time ;;
  (fun s => match rate_limit_delay now (last_request_time s) with
            | Some d => sleep RateLimit d s
            | None => (Ok tt, s)
            end) ;;;
  t <- time_time ;;
  fun s => (Ok tt, set_last_request_time t s).

(** The [try] block of one attempt of [fetch_paper_details]. The f-string
    of the log line calls [data.get], which raises unless [data] is a
    dictionary. *)
Definition fetch_attempt (paper_id : json) (attempt : Z)
  : prog (flow (option dict)) :=
  wait_for_rate_limit ;;;
  response <- session_get (metadata_url paper_id) ;;
  if status response =? 200 then
    data <- response_json response ;;
    d <- lift (as_dict data) ;;
    ret (Return (Some d))
  else if status response =? 429 then
    sleep Backoff (seconds (5 * (attempt + 1))) ;;;
    ret Continue
  else
    ret (Return None).

(** [for attempt in range(retries)], with [todo] iterations left. *)
Fixpoint fetch_loop (paper_id : json) (retries : Z) (todo : nat) (attempt : Z)
  : prog (option dict) :=
  match todo with
  | O => ret None
  | S todo' =>
      r <- try_except (fetch_attempt paper_id attempt)
             (if attempt <? retries - 1
              then sleep Retry (seconds 1) ;;; ret Continue
              else ret (Return None)) ;;
      match r with
      | Return v => ret v
      | Continue => fetch_loop paper_id retries todo' (attempt + 1)
      end
  end.

(** The semaphore [self.rate_limit] is held around the loop; it only
    orders concurrent callers (see [RateLimiter] below). *)
Definition fetch_paper_details (paper_id : json) (retries : Z)
  : prog (option dict) :=
  fetch_loop paper_id retries (Z.to_nat retries) 0.

End Fetcher.

(** ** The PDF source resolver and the downloader *)

Definition arxiv_pdf_url (arxiv_id : json) : string :=
  "https://arxiv.org/pdf/" +:+ py_str arxiv_id +:+ ".pdf".

Definition unpaywall_url (doi : json) : string :=
  "https://api.unpaywall.org/v2/" +:+ py_str doi +:+ "?email=test@example.com".

Definition core_url (doi : json) : string :=
  "https://api.core.ac.uk/v3/search/works?q=doi:" +:+ py_str doi.

(** [v[0]]: the first item of a list, the first character of a string;
    a dictionary with string keys has no key [0] and other values are not
    subscriptable. *)
Definition index0 (v : json) : result json :=
  match v with
  | JArr (x :: _) => Ok x
  | JStr (String c _) => Ok (JStr (String c EmptyString))
  | _ => Raised
  end.

(** [f"{base}_{counter}{ext}"] *)
Definition candidate (base ext : string) (counter : Z) : string :=
  base +:+ "_" +:+ str_of_Z counter +:+ ext.

(** The loop of [download_pdf] that adjusts the file name while it is
    taken (lines 141-145).  The loop of the source is unbounded; [fuel]
    bounds the number of further candidates tried, and [target_path_free]
    below shows that with the bound used by [target_path] the loop always
    leaves through its condition, on a path that does not exist. *)
Fixpoint adjust_filename (fuel : nat) (fs : list string) (base ext : string)
    (counter : Z) (filepath : string) : string :=
  if path_exists fs filepath then
    match fuel with
    | O => filepath
    | S fuel' =>
        adjust_filename fuel' fs base ext (counter + 1)
          (candidate base ext counter)
    end
  else filepath.

(** Lines 137-144: the path the PDF is saved under. *)
Definition target_path (fs : list string) (out filename : string) : string :=
  let filepath := path_join out filename in
  let '(base, ext) := splitext filepath in
  adjust_filename (length fs) fs base ext 1 filepath.

(** What [download_pdf] reports: [True] with the file saved, or [False]
    after one of its three messages. *)
Inductive outcome : Type :=
| Downloaded
| NoPdfAvailable                    (* "No open access PDF available" *)
| FailedStatus (st : Z)             (* "Failed to download PDF (Status: ..)" *)
| DownloadError.                    (* "Error downloading PDF" *)

Definition succeeded (o : outcome) : bool :=
  match o with Downloaded => true | _ => false end.

(** Where [download_pdf] stands when it gives up control for the last
    time before the file exists: it has returned, or it is suspended in
    [aiofiles.open(filepath, 'wb')] with the path it has chosen. *)
Inductive download_stage : Type :=
| Reported (o : outcome) (paper_data : dict)
| Opening (filepath : string).

Section Downloader.

Context (w : world).

(** [extract_filename_from_response] chooses the file name from the
    response headers, the URL or the title, with regular expressions over
    Unicode text.  No property below depends on the choice, so it is a
    parameter; it may raise. *)
Context (extract_filename_from_response : response -> dict -> result string).

(** [paper_data.get('externalIds', {}).get(k)] *)
Definition external_id (paper_data : dict) (k : string) : prog json :=
  lift (attr_get (get_or paper_data "externalIds" (JObj [])) k).

(** Each provider either returns a URL or falls through to the next. *)
Definition try_arxiv (paper_data : dict) : prog (flow json) :=
  arxiv_id <- external_id paper_data "ArXiv" ;;
  if truthy arxiv_id then
    response <- session_get w (arxiv_pdf_url arxiv_id) ;;
    if status response =? 200
    then ret (Return (JStr (arxiv_pdf_url arxiv_id)))
    else ret Continue
  else ret Continue.

Definition try_unpaywall (paper_data : dict) : prog (flow json) :=
  doi <- external_id paper_data "DOI" ;;
  if truthy doi then
    response <- session_get w (unpaywall_url doi) ;;
    if status response =? 200 then
      data <- response_json response ;;
      d <- lift (as_dict data) ;;
      u <- lift (attr_get (get_or d "best_oa_location" (JObj [])) "url_for_pdf") ;;
      if truthy u then ret (Return u) else ret Continue
    else ret Continue
  else ret Continue.

Definition try_core (paper_data : dict) : prog (flow json) :=
  doi <- external_id paper_data "DOI" ;;
  if truthy doi then
    response <- session_get w (core_url doi) ;;
    if status response =? 200 then
      data <- response_json response ;;
      results <- lift (attr_get data "results") ;;
      if truthy results then
        first <- lift (index0 results) ;;
        u <- lift (attr_get first "downloadUrl") ;;
        if truthy u then ret (Return u) else ret Continue
      else ret Continue
    else ret Continue
  else ret Continue.

Definition or_else {A} (m : prog (flow A)) (k : prog A) : prog A :=
  r <- m ;;
  match r with
  | Return v => ret v
  | Continue => k
  end.

(** One [try] around the whole chain; [None] is [JNull]. *)
Definition try_alternative_sources (paper_data : dict) : prog json :=
  try_except
    (or_else (try_arxiv paper_data)
       (or_else (try_unpaywall paper_data)
          (or_else (try_core paper_data)
             (ret JNull))))
    (ret JNull).

(** [session.get(pdf_url)] for a value taken from a payload: anything but
    a string is refused before a request is made. *)
Definition session_get_value (pdf_url : json) : prog response :=
  match pdf_url with
  | JStr u => session_get w u
  | _ => raise
  end.

(** [async with aiofiles.open(filepath, 'wb') as f: await f.write(...)] *)
Definition write_file (filepath : string) : prog unit :=
  fun s => match io w (length (log s)) filepath with
           | IoOk => (Ok tt, add_file filepath (emit (Create filepath) s))
           | OpenError => (Raised, s)
           | WriteError => (Raised, add_file filepath (emit (Create filepath) s))
           end.

(** Lines 116-125 of [download_pdf]: the URL to download from. *)
Definition resolve_pdf_url (paper_data : dict) : prog json :=
  pdf_url <- (if truthy (get paper_data "openAccessPdf")
              then lift (attr_get (get paper_data "openAccessPdf") "url")
              else ret JNull) ;;
  if negb (truthy pdf_url)
  then try_alternative_sources paper_data
  else ret pdf_url.

(** Lines 133-156: the download itself and the collision-free save. *)
Definition save_pdf (paper_data : dict) (pdf_url : json) : prog (outcome * dict) :=
  response <- session_get_value pdf_url ;;
  if status response =? 200 then
    filename <- lift (extract_filename_from_response response paper_data) ;;
    fun s =>
      let filepath := target_path (files s) (output_dir s) filename in
      (write_file filepath ;;;
       ret (Downloaded,
            dict_set paper_data "saved_filename" (JStr (basename filepath)))) s
  else ret (FailedStatus (status response), paper_data).

(** [download_pdf] returns its verdict and [paper_data], which it updates
    in place with the saved file name.  This is the call when no other
    coroutine runs while it is suspended; [download_pdf_begin] and
    [download_pdf_end] below are its two halves, which the event loop may
    separate. *)
Definition download_pdf (paper_data : dict) : prog (outcome * dict) :=
  try_except
    (pdf_url <- resolve_pdf_url paper_data ;;
     if negb (truthy pdf_url)
     then ret (NoPdfAvailable, paper_data)
     else save_pdf paper_data pdf_url)
    (ret (DownloadError, paper_data)).

(** Lines 133-147: the request for the PDF and the choice of the path.  The
    test [os.path.exists] of line 142 reads the disk as it is now; the file
    is created by [aiofiles.open] at line 148, where the coroutine is
    suspended first. *)
Definition choose_path (paper_data : dict) (pdf_url : json) : prog download_stage :=
  response <- session_get_value pdf_url ;;
  if status response =? 200 then
    filename <- lift (extract_filename_from_response response paper_data) ;;
    fun s => (Ok (Opening (target_path (files s) (output_dir s) filename)), s)
  else ret (Reported (FailedStatus (status response)) paper_data).

(** [download_pdf] up to its return or to the suspension in
    [aiofiles.open]. *)
Definition download_pdf_begin (paper_data : dict) : prog download_stage :=
  try_except
    (pdf_url <- resolve_pdf_url paper_data ;;
     if negb (truthy pdf_url)
     then ret (Reported NoPdfAvailable paper_data)
     else choose_path paper_data pdf_url)
    (ret (Reported DownloadError paper_data)).

(** [download_pdf] from [aiofiles.open(filepath, 'wb')] on (lines 148-154,
    under the handler of lines 157-160): the file is created, or truncated
    if the path exists by now, and written. *)
Definition download_pdf_end (paper_data : dict) (filepath : string)
  : prog (outcome * dict) :=
  try_except
    (write_file filepath ;;;
     ret (Downloaded,
          dict_set paper_data "saved_filename" (JStr (basename filepath))))
    (ret (DownloadError, paper_data)).

End Downloader.

(** ** The crawler *)

(** The dictionary appended to [results] for a downloaded paper. *)
Record paper_record : Type := {
  rec_id : json;
  rec_title : json;
  rec_authors : list json;
  rec_year : json;
  rec_url : json;
  rec_filename : json;
  rec_pdf_path : string
}.

Fixpoint map_result {A B} (f : A -> result B) (l : list A) : result (list B) :=
  match l with
  | [] => Ok []
  | x :: l' =>
      match f x with
      | Raised => Raised
      | Ok y => match map_result f l' with
                | Raised => Raised
                | Ok ys => Ok (y :: ys)
                end
      end
  end.

(** [a.get('name', '')] *)
Definition author_name (a : json) : result json :=
  match a with
  | JObj d => Ok (get_or d "name" (JStr ""))
  | _ => Raised
  end.

Definition make_record (out : string) (paper_id : json) (paper_data : dict)
  : result paper_record :=
  match py_iter (get_or paper_data "authors" (JArr [])) with
  | Raised => Raised
  | Ok authors =>
      match map_result author_name authors with
      | Raised => Raised
      | Ok names =>
          match get_or paper_data "saved_filename"
                  (JStr (py_str paper_id +:+ ".pdf")) with
          | JStr saved =>
              Ok {| rec_id := paper_id;
                    rec_title := get_or paper_data "title" (JStr "Unknown");
                    rec_authors := names;
                    rec_year := get paper_data "year";
                    rec_url := get paper_data "url";
                    rec_filename := get paper_data "saved_filename";
                    rec_pdf_path := path_join out saved |}
          | _ => Raised
          end
      end
  end.

(** [connected_papers]: the references, then the citations. *)
Definition extend_with (paper_data : dict) (k : string) : result (list json) :=
  if truthy (get paper_data k) then py_iter (get paper_data k) else Ok [].

Definition connected_papers (paper_data : dict) : result (list json) :=
  match extend_with paper_data "references" with
  | Raised => Raised
  | Ok refs =>
      match extend_with paper_data "citations" with
      | Raised => Raised
      | Ok cits => Ok (refs ++ cits)
      end
  end.

(** The identifiers a coroutine is created for: the truthy [paperId]s, in
    order, duplicates included. *)
Fixpoint child_ids (papers : list json) : result (list json) :=
  match papers with
  | [] => Ok []
  | paper :: rest =>
      match attr_get paper "paperId" with
      | Raised => Raised
      | Ok pid =>
          match child_ids rest with
          | Raised => Raised
          | Ok ids => Ok (if truthy pid then pid :: ids else ids)
          end
      end
  end.

Definition children_of (paper_data : dict) : result (list json) :=
  match connected_papers paper_data with
  | Raised => Raised
  | Ok papers => child_ids papers
  end.

(** A [process_paper] coroutine between two suspensions.  The event loop
    runs one coroutine at a time up to its next [await]; the coroutines of
    a run are the entries of a pool, and [asyncio.gather] holds the indices
    of the ones it waits for.  The state the coroutines share is read and
    written in [enter] (the visited set) and in [download_pdf] (the disk):
    [download_pdf] tests the paths in one turn and creates the file in a
    later one, and other coroutines can run in between.  The requests of
    [fetch_paper_details] and of [download_pdf] are not separated further:
    the oracles of the world answer by position in the run, so whatever
    replies an interleaving of the requests of two calls would see are the
    replies of some world. *)
Inductive task : Type :=
| Start (paper_id : json) (depth : Z)        (* created, not yet run *)
| Fetching (paper_id : json) (depth : Z)     (* in [fetch_paper_details] *)
| Downloading (paper_id : json) (depth : Z) (paper_data : dict)
                                             (* in [download_pdf], no path yet *)
| Saving (paper_id : json) (depth : Z) (paper_data : dict) (filepath : string)
                                             (* in [aiofiles.open(filepath)] *)
| Gathering (results : list paper_record) (children : list nat)
                                             (* in [asyncio.gather] *)
| Returned (results : list paper_record)
| Failed.                                    (* ended by an exception *)

Record crawl : Type := {
  self : fetcher;
  pool : list task
}.

Definition is_failed (t : option task) : bool :=
  match t with Some Failed => true | _ => false end.

Definition returned (t : option task) : option (list paper_record) :=
  match t with Some (Returned r) => Some r | _ => None end.

Fixpoint collect (ts : list (option task)) : option (list paper_record) :=
  match ts with
  | [] => Some []
  | t :: ts' =>
      match returned t, collect ts' with
      | Some r, Some rs => Some (r ++ rs)
      | _, _ => None
      end
  end.

(** [await asyncio.gather] over the tasks: the first exception of a child is
    raised in the parent (the other children keep running); otherwise the
    results of all children, in the order of the tasks. *)
Definition gather (p : list task) (children : list nat)
  : option (result (list paper_record)) :=
  let ts := map (fun j => p !! j) children in
  if existsb is_failed ts then Some Raised
  else match collect ts with
       | Some rs => Some (Ok rs)
       | None => None
       end.

(** [retries=3], the default with which [process_paper] calls
    [fetch_paper_details]. *)
Definition retries_default : Z := 3.

Section Crawler.

Context (w : world).
Context (extract_filename_from_response : response -> dict -> result string).

(** Lines 194-197: the check and the mark, with no suspension between. *)
Definition enter (paper_id : json) (depth : Z) (s : fetcher) : task * fetcher :=
  if negb (hashable paper_id) then (Failed, s)
  else if set_mem paper_id (visited_papers s) || (depth <? 0)
  then (Returned [], s)
  else (Fetching paper_id depth, add_visited paper_id s).

(** Lines 198-201. *)
Definition fetched (paper_id : json) (depth : Z) (s : fetcher) : task * fetcher :=
  match fetch_paper_details w paper_id retries_default s with
  | (Ok paper_data, s') =>
      (match paper_data with
       | Some ((_ :: _) as d) => Downloading paper_id depth d
       | _ => Returned []
       end, emit (FetchDetails paper_id paper_data) s')
  | (Raised, s') => (Failed, s')
  end.

(** Lines 203-229: the record of this paper and the coroutines of the
    connected papers, [depth - 1] each. *)
Definition after_download (out : string) (paper_id : json) (depth : Z)
    (ok : bool) (paper_data : dict)
  : result (list paper_record * list task) :=
  match (if ok then
           match make_record out paper_id paper_data with
           | Ok r => Ok [r]
           | Raised => Raised
           end
         else Ok []) with
  | Raised => Raised
  | Ok results =>
      match children_of paper_data with
      | Raised => Raised
      | Ok ids => Ok (results, map (fun c => Start c (depth - 1)) ids)
      end
  end.

Definition set_task (i : nat) (t : task) (c : crawl) : crawl :=
  {| self := self c; pool := <[i := t]> (pool c) |}.

(** Lines 205-236, from the return of [download_pdf] with [r] up to the
    suspension in [gather]. *)
Definition downloaded (i : nat) (paper_id : json) (depth : Z)
    (r : result (outcome * dict) * fetcher) (c : crawl) : crawl :=
  match r with
  | (Ok (o, paper_data'), s') =>
      let s'' := emit (DownloadPdf paper_id (succeeded o)) s' in
      match after_download (output_dir s'') paper_id depth (succeeded o) paper_data' with
      | Raised => {| self := s''; pool := <[i := Failed]> (pool c) |}
      | Ok (results, []) =>
          {| self := s''; pool := <[i := Returned results]> (pool c) |}
      | Ok (results, tasks) =>
          {| self := s'';
             pool := <[i := Gathering results
                              (seq (length (pool c)) (length tasks))]> (pool c)
                     ++ tasks |}
      end
  | (Raised, s') => {| self := s'; pool := <[i := Failed]> (pool c) |}
  end.

(** Line 205: [download_pdf] runs until it returns or is suspended in
    [aiofiles.open]. *)
Definition download_started (i : nat) (paper_id : json) (depth : Z)
    (paper_data : dict) (c : crawl) : crawl :=
  match download_pdf_begin w extract_filename_from_response paper_data (self c) with
  | (Ok (Opening filepath), s') =>
      {| self := s';
         pool := <[i := Saving paper_id depth paper_data filepath]> (pool c) |}
  | (Ok (Reported o paper_data'), s') =>
      downloaded i paper_id depth (Ok (o, paper_data'), s') c
  | (Raised, s') => downloaded i paper_id depth (Raised, s') c
  end.

(** The event loop resumes coroutine [i]; [None] when it cannot run. *)
Definition step (i : nat) (c : crawl) : option crawl :=
  match pool c !! i with
  | Some (Start paper_id depth) =>
      let '(t, s') := enter paper_id depth (self c) in
      Some {| self := s'; pool := <[i := t]> (pool c) |}
  | Some (Fetching paper_id depth) =>
      let '(t, s') := fetched paper_id depth (self c) in
      Some {| self := s'; pool := <[i := t]> (pool c) |}
  | Some (Downloading paper_id depth paper_data) =>
      Some (download_started i paper_id depth paper_data c)
  | Some (Saving paper_id depth paper_data filepath) =>
      Some (downloaded i paper_id depth
              (download_pdf_end w paper_data filepath (self c)) c)
  | Some (Gathering results children) =>
      match gather (pool c) children with
      | Some (Ok rs) => Some (set_task i (Returned (results ++ rs)) c)
      | Some Raised => Some (set_task i Failed c)
      | None => None
      end
  | _ => None
  end.

(** A run under a schedule: the coroutine resumed at each turn of the
    event loop.  A turn naming a coroutine that cannot run is skipped. *)
Fixpoint run (sched : list nat) (c : crawl) : crawl :=
  match sched with
  | [] => c
  | i :: sched' =>
      run sched' (match step i c with Some c' => c' | None => c end)
  end.

End Crawler.

(** A fresh [PaperFetcher] and the call [process_paper(paper_id, depth)]. *)
Definition new_fetcher (out : string) (fs : list string) : fetcher :=
  {| output_dir := out; visited_papers := []; last_request_time := 0;
     files := fs; log := [] |}.

Definition process_paper (s : fetcher) (paper_id : json) (depth : Z) : crawl :=
  {| self := s; pool := [Start paper_id depth] |}.

(** ** Concurrent callers of the rate limiter

    [fetch_paper_details] takes the semaphore [self.rate_limit] (three
    permits) and then calls [wait_for_rate_limit], which reads the clock,
    may suspend in [asyncio.sleep], and only afterwards stores
    [self.last_request_time].  This is a discrete-event simulation of
    callers that each make one request answered after [latency]
    milliseconds: a caller reaches the semaphore at a given time, and the
    event loop fires the earliest due caller (among equal times, first the
    callers whose sleep is over, then the lowest index). *)

Module RateLimiter.

Inductive phase : Type :=
| Arriving (at_time latency : Z)    (* not yet at [async with self.rate_limit] *)
| Queued (latency : Z)              (* waiting for a permit *)
| Sleeping (wake latency : Z)       (* suspended in [wait_for_rate_limit] *)
| InFlight (started finish : Z)     (* request issued, permit held *)
| Finished (started : Z).           (* permit released *)

Record limiter : Type := {
  value : nat;                      (* free permits of the semaphore *)
  waiters : list nat;               (* callers queued for a permit *)
  last_request_time : Z;
  callers : list phase
}.

Definition due (p : phase) : option Z :=
  match p with
  | Arriving t _ => Some t
  | Sleeping t _ => Some t
  | InFlight _ t => Some t
  | Queued _ | Finished _ => None
  end.

(** The caller holds a permit at time [now] and runs [wait_for_rate_limit]
    up to its first suspension. *)
Definition acquired (now latency last : Z) : phase * Z :=
  match rate_limit_delay now last with
  | Some d => (Sleeping (now + d) latency, last)
  | None => (InFlight now (now + latency), now)
  end.

Definition set_caller (i : nat) (p : phase) (l : limiter) : limiter :=
  {| value := value l; waiters := waiters l;
     last_request_time := last_request_time l;
     callers := <[i := p]> (callers l) |}.

Definition fire (i : nat) (l : limiter) : limiter :=
  match callers l !! i with
  | Some (Arriving t latency) =>
      match value l, waiters l with
      | S v, [] =>
          let '(p, last) := acquired t latency (last_request_time l) in
          {| value := v; waiters := []; last_request_time := last;
             callers := <[i := p]> (callers l) |}
      | _, _ =>
          {| value := value l; waiters := waiters l ++ [i];
             last_request_time := last_request_time l;
             callers := <[i := Queued latency]> (callers l) |}
      end
  | Some (Sleeping t latency) =>
      (* the sleep is over: [self.last_request_time = time.time()] *)
      {| value := value l; waiters := waiters l; last_request_time := t;
         callers := <[i := InFlight t (t + latency)]> (callers l) |}
  | Some (InFlight started finish) =>
      let l' := set_caller i (Finished started) l in
      match waiters l' with
      | j :: rest =>
          match callers l' !! j with
          | Some (Queued latency) =>
              let '(p, last) := acquired finish latency (last_request_time l') in
              {| value := value l'; waiters := rest; last_request_time := last;
                 callers := <[j := p]> (callers l') |}
          | _ => l'
          end
      | [] =>
          {| value := S (value l'); waiters := [];
             last_request_time := last_request_time l';
             callers := callers l' |}
      end
  | _ => l
  end.

Definition wakes (p : phase) : option Z :=
  match p with
  | Sleeping t _ => Some t
  | _ => None
  end.

(** Index and time of the first caller with the least time [f] from index
    [i] on. *)
Fixpoint earliest_of (f : phase -> option Z) (ps : list phase) (i : nat)
  : option (nat * Z) :=
  match ps with
  | [] => None
  | p :: ps' =>
      match f p, earliest_of f ps' (S i) with
      | Some t, Some (j, t') => if t' <? t then Some (j, t') else Some (i, t)
      | Some t, None => Some (i, t)
      | None, r => r
      end
  end.

(** The caller the event loop resumes next.  Among the callers due at the
    same time, one whose sleep is over comes first: a caller that is handed
    a permit is resumed one iteration of the loop after the release, when
    the callers waking at that time have stored [last_request_time]. *)
Definition earliest (ps : list phase) (i : nat) : option (nat * Z) :=
  match earliest_of due ps i, earliest_of wakes ps i with
  | Some (j, t), Some (k, t') => if t' <=? t then Some (k, t') else Some (j, t)
  | r, _ => r
  end.

Fixpoint simulate (fuel : nat) (l : limiter) : limiter :=
  match fuel with
  | O => l
  | S fuel' =>
      match earliest (callers l) 0%nat with
      | Some (i, _) => simulate fuel' (fire i l)
      | None => l
      end
  end.

(** [Semaphore(3)] and [last_request_time = 0], as [__init__] sets them. *)
Definition init (cs : list (Z * Z)) : limiter :=
  {| value := 3; waiters := []; last_request_time := 0;
     callers := map (fun c => Arriving (fst c) (snd c)) cs |}.

(** The times at which the requests were issued. *)
Definition started (p : phase) : option Z :=
  match p with
  | InFlight t _ | Finished t => Some t
  | _ => None
  end.

Definition start_times (l : limiter) : list Z := omap started (callers l).

(** Every two admitted requests start at least [request_interval] apart. *)
Definition spaced (ts : list Z) : Prop :=
  forall i j a b, i <> j -> ts !! i = Some a -> ts !! j = Some b ->
                  request_interval <= Z.abs (a - b).

End RateLimiter.

(** * Vocabulary of the properties *)

Definition fetch_id (e : event) : option json :=
  match e with FetchDetails paper_id _ => Some paper_id | _ => None end.

Definition download_id (e : event) : option json :=
  match e with DownloadPdf paper_id _ => Some paper_id | _ => None end.

(** The identifiers [fetch_paper_details] and [download_pdf] were called
    for, in the order of the calls. *)
Definition fetch_ids (l : list event) : list json := omap fetch_id l.
Definition download_ids (l : list event) : list json := omap download_id l.

Definition fetching_id (t : task) : option json :=
  match t with Fetching paper_id _ => Some paper_id | _ => None end.

Definition downloading_id (t : task) : option json :=
  match t with
  | Downloading paper_id _ _ | Saving paper_id _ _ _ => Some paper_id
  | _ => None
  end.

Definition backoff (e : event) : option Z :=
  match e with Sleep Backoff ms => Some ms | _ => None end.

(** The waits after a 429, in milliseconds. *)
Definition backoffs (l : list event) : list Z := omap backoff l.

(** Events of the network, the clock and the disk: everything but the
    crawler's own calls. *)
Definition io_event (e : event) : Prop :=
  match e with
  | FetchDetails _ _ | DownloadPdf _ _ => False
  | _ => True
  end.




Definition reply_with (st : Z) (body : option json) : reply :=
  Reply {| status := st; json_body := body; headers := []; url := "" |}.

(** [extends s s']: from [s] to [s'] the visited set is untouched and the
    log only grew by events of the environment. *)
Definition extends (s s' : fetcher) : Prop :=
  output_dir s' = output_dir s /\ visited_papers s' = visited_papers s /\
  exists l, log s' = log s ++ l /\ Forall io_event l.

Definition quiet {A} (m : prog A) : Prop := forall s, extends s (snd (m s)).

(** The [n]-th request of the run, made to [u], is answered with status
    [st]. *)
Definition status_is (w : world) (n : nat) (u : string) (st : Z) : Prop :=
  exists r, http w n u = Reply r /\ status r = st.

(** ... with status 200 and a body that parses to [v]. *)
Definition answers (w : world) (n : nat) (u : string) (v : json) : Prop :=
  exists r, http w n u = Reply r /\ status r = 200 /\ json_body r = Some v.

(** C2 as the specification states it: with [retries = 3], a 200 on the
    fourth attempt after three 429 is a successful fetch. *)
Definition fourth_attempt_succeeds : Prop :=
  forall (w : world) (paper_id : json) (d : dict) (s : fetcher),
    (forall n, (n < 3)%nat ->
               status_is w (requests (log s) + n) (metadata_url paper_id) 429) ->
    answers w (requests (log s) + 3) (metadata_url paper_id) (JObj d) ->
    fst (fetch_paper_details w paper_id 3 s) = Ok (Some d).

(** A server that is rate-limiting for the first [k] requests and then
    serves the metadata. *)
Definition world_429_then_200 (k : nat) : world :=
  {| http := fun n _ => if (n <? k)%nat
                        then reply_with 429 None
                        else reply_with 200 (Some (JObj [("title", JStr "T")]));
     clock := fun n => 1700000000000 + 20000 * Z.of_nat n;
     io := fun _ _ => IoOk |}.

(** The identifier [k] of [paper_data['externalIds']], [None] without one. *)
Definition ext_id (paper_data : dict) (k : string) : json :=
  match get_or paper_data "externalIds" (JObj []) with
  | JObj d => get d k
  | _ => JNull
  end.

(** [paper_data['openAccessPdf']['url']], [None] without one. *)
Definition open_access_url (paper_data : dict) : json :=
  match get paper_data "openAccessPdf" with
  | JObj oa => get oa "url"
  | _ => JNull
  end.

(** The requests of the fallback chain, in its order. *)
Definition chain_requests (paper_data : dict) : list event :=
  [Get (arxiv_pdf_url (ext_id paper_data "ArXiv"));
   Get (unpaywall_url (ext_id paper_data "DOI"));
   Get (core_url (ext_id paper_data "DOI"))].

(** The chain from Unpaywall on, under the handler of
    [try_alternative_sources]. *)
Definition after_arxiv (w : world) (paper_data : dict) : prog json :=
  try_except
    (or_else (try_unpaywall w paper_data)
       (or_else (try_core w paper_data) (ret JNull)))
    (ret JNull).

(** The chain from CORE on, under the same handler. *)
Definition after_unpaywall (w : world) (paper_data : dict) : prog json :=
  try_except (or_else (try_core w paper_data) (ret JNull)) (ret JNull).

(** A reply of Unpaywall with status 200 that is well formed and holds no
    URL: a JSON object whose [best_oa_location] is absent, or is an object
    without a [url_for_pdf] that counts as true. *)
Definition unpaywall_no_url (r : response) : Prop :=
  status r = 200 /\
  exists body loc,
    json_body r = Some (JObj body) /\
    get_or body "best_oa_location" (JObj []) = JObj loc /\
    truthy (get loc "url_for_pdf") = false.

(** A reply of Unpaywall with status 200 and an unexpected shape: the body
    is not JSON, or is not an object, or its [best_oa_location] is not an
    object ([null], when no open-access location is known). *)
Definition unpaywall_malformed (r : response) : Prop :=
  status r = 200 /\
  match json_body r with
  | Some (JObj body) =>
      match get_or body "best_oa_location" (JObj []) with
      | JObj _ => False
      | _ => True
      end
  | _ => True
  end.

(** A reply of CORE with status 200 that is well formed and holds no URL:
    a JSON object with no [results], or whose first result is an object
    without a [downloadUrl] that counts as true. *)
Definition core_no_url (r : response) : Prop :=
  status r = 200 /\
  exists body,
    json_body r = Some (JObj body) /\
    (truthy (get body "results") = false \/
     exists first,
       index0 (get body "results") = Ok (JObj first) /\
       truthy (get first "downloadUrl") = false).

(** ... and with an unexpected shape: the body is not JSON or not an
    object, or [results] counts as true and has no first item that is an
    object. *)
Definition core_malformed (r : response) : Prop :=
  status r = 200 /\
  match json_body r with
  | Some (JObj body) =>
      truthy (get body "results") = true /\
      match index0 (get body "results") with
      | Ok (JObj _) => False
      | _ => True
      end
  | _ => True
  end.


(** C3 as the specification states it: when the arXiv probe fails with a
    network error, the resolver still consults Unpaywall. *)
Definition provider_failures_isolated : Prop :=
  forall (w : world) (paper_data : dict) (s : fetcher),
    truthy (ext_id paper_data "ArXiv") = true ->
    truthy (ext_id paper_data "DOI") = true ->
    http w (requests (log s)) (arxiv_pdf_url (ext_id paper_data "ArXiv"))
    = ConnectionError ->
    In (Get (unpaywall_url (ext_id paper_data "DOI")))
       (log (snd (try_alternative_sources w paper_data s))).

(** A paper known to arXiv and by DOI, without an open-access URL. *)
Definition paper_arxiv_doi : dict :=
  [("title", JStr "P");
   ("externalIds", JObj [("ArXiv", JStr "2101.00001"); ("DOI", JStr "10.1/x")])].

(** arXiv is unreachable; Unpaywall knows a PDF for every DOI. *)
Definition world_arxiv_down : world :=
  {| http := fun _ u =>
       if String.eqb u "https://arxiv.org/pdf/2101.00001.pdf" then ConnectionError
       else if String.eqb u "https://api.unpaywall.org/v2/10.1/x?email=test@example.com"
       then reply_with 200
              (Some (JObj [("best_oa_location",
                            JObj [("url_for_pdf", JStr "https://host/p.pdf")])]))
       else reply_with 404 None;
     clock := fun n => 1700000000000 + 20000 * Z.of_nat n;
     io := fun _ _ => IoOk |}.

(** arXiv answers 404 instead. *)
Definition world_arxiv_404 : world :=
  {| http := fun _ u =>
       if String.eqb u "https://api.unpaywall.org/v2/10.1/x?email=test@example.com"
       then reply_with 200
              (Some (JObj [("best_oa_location",
                            JObj [("url_for_pdf", JStr "https://host/p.pdf")])]))
       else reply_with 404 None;
     clock := fun n => 1700000000000 + 20000 * Z.of_nat n;
     io := fun _ _ => IoOk |}.

(** No provider knows the paper: every request is answered 404. *)
Definition world_not_found : world :=
  {| http := fun _ _ => reply_with 404 None;
     clock := fun n => 1700000000000 + 20000 * Z.of_nat n;
     io := fun _ _ => IoOk |}.

(** arXiv answers 404 and Unpaywall is unreachable. *)
Definition world_unpaywall_down : world :=
  {| http := fun _ u =>
       if String.eqb u "https://api.unpaywall.org/v2/10.1/x?email=test@example.com"
       then ConnectionError
       else reply_with 404 None;
     clock := fun n => 1700000000000 + 20000 * Z.of_nat n;
     io := fun _ _ => IoOk |}.

(** A paper with an open-access URL and an arXiv identifier. *)
Definition paper_open_access : dict :=
  [("title", JStr "P");
   ("openAccessPdf", JObj [("url", JStr "https://host/oa.pdf")]);
   ("externalIds", JObj [("ArXiv", JStr "2101.00001"); ("DOI", JStr "10.1/x")])].


(** A file name for the examples: the title with [.pdf]. *)
Definition title_filename (r : response) (paper_data : dict) : result string :=
  match get paper_data "title" with
  | JStr t => Ok (t +:+ ".pdf")
  | _ => Raised
  end.

(** A program that leaves the state as it found it. *)
Definition silent {A} (m : prog A) : Prop := forall s, snd (m s) = s.

(** The identifiers of the coroutines suspended in [fetch_paper_details]
    and in [download_pdf]. *)
Definition fetching (p : list task) : list json := omap fetching_id p.
Definition downloading (p : list task) : list json := omap downloading_id p.

(** The records a coroutine holds in its [results]. *)
Definition results_of (t : task) : list paper_record :=
  match t with
  | Gathering results _ | Returned results => results
  | _ => []
  end.

(** What every reachable state of a crawl satisfies: an identifier is in
    at most one place between "being fetched" and "fetched", and between
    "being downloaded" and "downloaded"; whatever is fetched was marked
    before; whatever is downloaded was fetched before; a record is held
    only for a paper whose download succeeded. *)
Record crawl_inv (c : crawl) : Prop := {
  inv_fetch :
    NoDup (fetching (pool c) ++ fetch_ids (log (self c)));
  inv_marked :
    forall v, v ∈ fetching (pool c) ++ fetch_ids (log (self c)) ->
              v ∈ visited_papers (self c);
  inv_download :
    NoDup (downloading (pool c) ++ download_ids (log (self c)));
  inv_fetched :
    forall v, v ∈ downloading (pool c) ++ download_ids (log (self c)) ->
              v ∈ fetch_ids (log (self c));
  inv_hashable :
    forall v, v ∈ visited_papers (self c) -> hashable v = true;
  inv_records :
    forall t r, t ∈ pool c -> r ∈ results_of t ->
                DownloadPdf (rec_id r) true ∈ log (self c)
}.

(** A paper without an open-access entry or external identifiers, citing
    the papers [refs]. *)
Definition paper (title : string) (refs : list string) : dict :=
  [("title", JStr title);
   ("references", JArr (map (fun r => JObj [("paperId", JStr r)]) refs))].


(** A child at depth [-1], next to a visited root. *)
Definition crawl_with_child : crawl :=
  {| self := {| output_dir := "papers"; visited_papers := [JStr "R"];
                last_request_time := 1700000000000; files := [];
                log := [] |};
     pool := [Gathering [] [1%nat]; Start (JStr "A") (-1)] |}.






(** A program that does not touch the disk. *)
Definition keeps_files {A} (m : prog A) : Prop :=
  forall s, files (snd (m s)) = files s.

(** Scenario A: the root has an open-access PDF that downloads. *)
Definition paper_R_open : dict :=
  [("title", JStr "R"); ("year", JNum 2020);
   ("authors", JArr [JObj [("name", JStr "Ada")]]);
   ("url", JStr "http://s2/R");
   ("openAccessPdf", JObj [("url", JStr "http://x/r.pdf")])].

Definition world_scenario_A : world :=
  {| http := fun _ u =>
       if String.eqb u (metadata_url (JStr "R"))
       then reply_with 200 (Some (JObj paper_R_open))
       else if String.eqb u "http://x/r.pdf" then reply_with 200 None
       else reply_with 404 None;
     clock := fun n => 1700000000000 + 20000 * Z.of_nat n;
     io := fun _ _ => IoOk |}.

(** Scenario B: [A] is both a reference and a citation of the root. *)
Definition paper_R_shared : dict :=
  [("title", JStr "R");
   ("references", JArr [JObj [("paperId", JStr "A")]]);
   ("citations", JArr [JObj [("paperId", JStr "A")]; JObj [("paperId", JStr "B")]])].

Definition world_scenario_B : world :=
  {| http := fun _ u =>
       if String.eqb u (metadata_url (JStr "R"))
       then reply_with 200 (Some (JObj paper_R_shared))
       else if String.eqb u (metadata_url (JStr "A"))
       then reply_with 200 (Some (JObj (paper "A" [])))
       else if String.eqb u (metadata_url (JStr "B"))
       then reply_with 200 (Some (JObj (paper "B" [])))
       else reply_with 404 None;
     clock := fun n => 1700000000000 + 20000 * Z.of_nat n;
     io := fun _ _ => IoOk |}.

(** * Further code: the search client, the file names, and more vocabulary *)

Definition retry_wait (e : event) : option Z :=
  match e with Sleep Retry ms => Some ms | _ => None end.

(** The waits after an exception, in milliseconds. *)
Definition retry_waits (l : list event) : list Z := omap retry_wait l.

Definition get_url (e : event) : option string :=
  match e with Get u => Some u | _ => None end.

(** The URLs requested, in order. *)
Definition requested (l : list event) : list string := omap get_url l.

(** An attempt of [fetch_paper_details] that ends in its [except] branch:
    the transport fails, or the reply has status 200 and a body that is
    not JSON or not a dictionary. *)
Definition attempt_fails (w : world) (n : nat) (u : string) : Prop :=
  http w n u = ConnectionError \/
  exists r, http w n u = Reply r /\ status r = 200 /\
            (json_body r = None \/
             exists v, json_body r = Some v /\ as_dict v = Raised).

(** ** [search_papers] *)

Definition search_url : string :=
  "https://api.semanticscholar.org/graph/v1/paper/search".

Definition max_retries : Z := 3.

Section Search.

Context (w : world).

(** The [try] block of one attempt (lines 254-265), with the current
    [retry_delay] in seconds; a retry hands on the delay to use next.  The
    query, the limit and the fields are passed beside the URL. *)
Definition search_try (attempt retry_delay : Z) : prog (flow json * Z) :=
  response <- session_get w search_url ;;
  if status response =? 200 then
    data <- response_json response ;;
    d <- lift (as_dict data) ;;
    ret (Return (get_or d "data" (JArr [])), retry_delay)
  else if (status response =? 429) && (attempt <? max_retries - 1) then
    sleep Backoff (seconds retry_delay) ;;;
    ret (Continue, retry_delay * 2)
  else
    ret (Return (JArr []), retry_delay).

(** [for attempt in range(max_retries)], with [todo] iterations left. *)
Fixpoint search_loop (todo : nat) (attempt retry_delay : Z) : prog json :=
  match todo with
  | O => ret (JArr [])
  | S todo' =>
      wait_for_rate_limit w ;;;
      r <- try_except (search_try attempt retry_delay)
             (if attempt <? max_retries - 1
              then sleep Retry (seconds retry_delay) ;;; ret (Continue, retry_delay)
              else ret (Return (JArr []), retry_delay)) ;;
      match r with
      | (Return v, _) => ret v
      | (Continue, delay) => search_loop todo' (attempt + 1) delay
      end
  end.

Definition search_papers : prog json :=
  search_loop (Z.to_nat max_retries) 0 5.

End Search.

(** A connection that fails for the first [k] requests and then serves
    the metadata. *)
Definition world_flaky (k : nat) : world :=
  {| http := fun n _ => if (n <? k)%nat
                        then ConnectionError
                        else reply_with 200 (Some (JObj [("title", JStr "T")]));
     clock := fun n => 1700000000000 + 20000 * Z.of_nat n;
     io := fun _ _ => IoOk |}.

(** What a state records of the traffic so far: the requests, and the
    waits after a 429 and after an exception. *)
Definition traffic (s : fetcher) : list string * list Z * list Z :=
  (requested (log s), backoffs (log s), retry_waits (log s)).

(** The traffic [t] followed by a request to [u] and by the waits [bs]
    (after a 429) and [rs] (after an exception). *)
Definition more_traffic (t : list string * list Z * list Z)
    (us : list string) (bs rs : list Z) : list string * list Z * list Z :=
  let '(q, b, r) := t in (q ++ us, b ++ bs, r ++ rs).

(** The search endpoint is rate-limiting for the first [k] requests. *)
Definition world_search_429 (k : nat) : world :=
  {| http := fun n _ =>
       if (n <? k)%nat then reply_with 429 None
       else reply_with 200 (Some (JObj [("total", JNum 1);
                                        ("data", JArr [JObj [("paperId", JStr "P")]])]));
     clock := fun n => 1700000000000 + 20000 * Z.of_nat n;
     io := fun _ _ => IoOk |}.

(** One 429, then a failing connection, then the results. *)
Definition world_search_mixed : world :=
  {| http := fun n _ =>
       if (n =? 0)%nat then reply_with 429 None
       else if (n =? 1)%nat then ConnectionError
       else reply_with 200 (Some (JObj [("data", JArr [JObj [("paperId", JStr "P")]])]));
     clock := fun n => 1700000000000 + 20000 * Z.of_nat n;
     io := fun _ _ => IoOk |}.

(** The disk fails while the PDF is written, after the file was opened. *)
Definition world_disk_full : world :=
  {| http := fun _ _ => reply_with 200 None;
     clock := fun n => 1700000000000 + 20000 * Z.of_nat n;
     io := fun _ _ => WriteError |}.

(** What [download_pdf] did to the disk and to [paper_data], by what it
    reports, when no other coroutine ran during the call.  [s] and [d]
    are the state and the dictionary at the call, [s'] and [d'] those at
    the return. *)
Definition report_matches (w : world) (s : fetcher) (d : dict)
    (o : outcome) (d' : dict) (s' : fetcher) : Prop :=
  match o with
  | Downloaded =>
      exists p l, files s' = p :: files s /\ (p ∉ files s) /\
                  log s' = l ++ [Create p] /\
                  io w (length l) p = IoOk /\
                  d' = dict_set d "saved_filename" (JStr (basename p))
  | NoPdfAvailable => d' = d /\ files s' = files s
  | FailedStatus st => d' = d /\ files s' = files s /\ st <> 200
  | DownloadError =>
      d' = d /\
      (files s' = files s \/
       exists p l, files s' = p :: files s /\ (p ∉ files s) /\
                   log s' = l ++ [Create p] /\ io w (length l) p = WriteError)
  end.

(** A paper with a DOI only, and Unpaywall answering that it knows no
    open-access location. *)
Definition paper_doi : dict :=
  [("title", JStr "P"); ("externalIds", JObj [("DOI", JStr "10.1/x")])].

Definition world_unpaywall (body : dict) : world :=
  {| http := fun _ u =>
       if String.eqb u (unpaywall_url (JStr "10.1/x"))
       then reply_with 200 (Some (JObj body))
       else reply_with 200
              (Some (JObj [("results",
                            JArr [JObj [("downloadUrl", JStr "https://core/p.pdf")]])]));
     clock := fun n => 1700000000000 + 20000 * Z.of_nat n;
     io := fun _ _ => IoOk |}.

(** arXiv has the paper. *)
Definition world_arxiv_200 : world :=
  {| http := fun _ _ => reply_with 200 None;
     clock := fun n => 1700000000000 + 20000 * Z.of_nat n;
     io := fun _ _ => IoOk |}.

Definition paper_arxiv : dict :=
  [("title", JStr "P");
   ("externalIds", JObj [("ArXiv", JStr "2101.00001"); ("DOI", JStr "10.1/x")])].

(** ** The semaphore of the rate limiter *)

(** A caller holds a permit of [self.rate_limit] from the moment it is
    admitted, through the sleep of [wait_for_rate_limit] and its request,
    until the request is answered. *)
Definition holds_permit (p : RateLimiter.phase) : bool :=
  match p with
  | RateLimiter.Sleeping _ _ | RateLimiter.InFlight _ _ => true
  | _ => false
  end.

Definition in_flight (p : RateLimiter.phase) : bool :=
  match p with
  | RateLimiter.InFlight _ _ => true
  | _ => false
  end.

Fixpoint count_phase (f : RateLimiter.phase -> bool) (ps : list RateLimiter.phase) : nat :=
  match ps with
  | [] => 0
  | p :: ps' => ((if f p then 1 else 0) + count_phase f ps')%nat
  end.

Definition holders (l : RateLimiter.limiter) : nat :=
  count_phase holds_permit (RateLimiter.callers l).

(** ** File names

    A character of a [string] stands for the code point of the same
    number, below 256.  [is_word] and [is_space] are the classes [\w] and
    [\s] of Python's [re] for [str] patterns on these code points: the
    alphanumeric characters and the underscore, and the white space. *)

Definition between (lo hi n : N) : bool := ((lo <=? n) && (n <=? hi))%N.

Definition is_word (c : ascii) : bool :=
  let n := N_of_ascii c in
  between 48 57 n || between 65 90 n || between 95 95 n || between 97 122 n ||
  between 170 170 n || between 178 179 n || between 181 181 n ||
  between 185 186 n || between 188 190 n || between 192 214 n ||
  between 216 246 n || between 248 255 n.

Definition is_space (c : ascii) : bool :=
  let n := N_of_ascii c in
  between 9 13 n || between 28 32 n || between 133 133 n || between 160 160 n.

Fixpoint str_filter (f : ascii -> bool) (s : string) : string :=
  match s with
  | EmptyString => EmptyString
  | String c s' => if f c then String c (str_filter f s') else str_filter f s'
  end.

Fixpoint str_all (f : ascii -> bool) (s : string) : bool :=
  match s with
  | EmptyString => true
  | String c s' => f c && str_all f s'
  end.

(** [re.sub(r'[-\s]+', '_', s)]: every maximal run of hyphens and white
    space becomes one underscore; [in_run] tells that the previous
    character belonged to a run. *)
Definition is_dash_or_space (c : ascii) : bool := Ascii.eqb c "-" || is_space c.

Fixpoint collapse_runs (in_run : bool) (s : string) : string :=
  match s with
  | EmptyString => EmptyString
  | String c s' =>
      if is_dash_or_space c
      then if in_run then collapse_runs true s'
           else String "_" (collapse_runs true s')
      else String c (collapse_runs false s')
  end.

(** Lines 37-41: [re.sub(r'[^\w\s-]', '', title)], the runs collapsed, and
    the first 100 characters. *)
Definition clean_filename (title : string) : string :=
  let clean := str_filter (fun c => is_word c || is_space c || Ascii.eqb c "-") title in
  let clean := collapse_runs false clean in
  str_take 100 clean.

(** [response.headers.get(name)]: the names of HTTP headers are ASCII and
    compare without regard to case; the first value is returned. *)
Definition ascii_lower (c : ascii) : ascii :=
  let n := N_of_ascii c in
  if between 65 90 n then ascii_of_N (n + 32) else c.

Fixpoint str_lower (s : string) : string :=
  match s with
  | EmptyString => EmptyString
  | String c s' => String (ascii_lower c) (str_lower s')
  end.

Fixpoint headers_get (hs : list (string * string)) (name : string) : option string :=
  match hs with
  | [] => None
  | (k, v) :: hs' =>
      if String.eqb (str_lower k) (str_lower name) then Some v
      else headers_get hs' name
  end.

(** [.+]: the characters up to the end of the line. *)
Fixpoint line_of (s : string) : string :=
  match s with
  | EmptyString => EmptyString
  | String c s' => if Ascii.eqb c "010" then EmptyString else String c (line_of s')
  end.

(** [re.findall("filename=(.+)", cd)[0]], or [None] when the list is
    empty: the group of the leftmost match. *)
Fixpoint first_filename (cd : string) : option string :=
  match cd with
  | EmptyString => None
  | String _ cd' =>
      if String.prefix "filename=" cd then
        match line_of (str_drop 9 cd) with
        | EmptyString => first_filename cd'
        | group => Some group
        end
      else first_filename cd'
  end.

(** [s.strip(q)] for the double quote [q] *)
Fixpoint lstrip_quotes (s : string) : string :=
  match s with
  | String c s' => if Ascii.eqb c "034" then lstrip_quotes s' else s
  | EmptyString => EmptyString
  end.

Fixpoint rstrip_quotes (s : string) : string :=
  match s with
  | EmptyString => EmptyString
  | String c s' =>
      match rstrip_quotes s' with
      | EmptyString => if Ascii.eqb c "034" then EmptyString else String c EmptyString
      | rest => String c rest
      end
  end.

Definition strip_quotes (s : string) : string := rstrip_quotes (lstrip_quotes s).

(** [s.endswith(suffix)] *)
Definition endswith (suffix s : string) : bool :=
  (String.length suffix <=? String.length s)%nat &&
  String.eqb (str_drop (String.length s - String.length suffix) s) suffix.

(** [Path(p).stem] for a path that ends in [.pdf]: the last component of
    such a path is what follows its last slash, and the stem is that name
    without its last suffix. *)
Definition path_stem (p : string) : string :=
  let name := basename p in
  let i := rfind "." name in
  if (0 <? i) && (i <? Z.of_nat (String.length name) - 1)
  then str_take (Z.to_nat i) name
  else name.

(** Lines 43-71.  [path_of] is [urllib.parse.urlparse(..).path], the path
    of the URL the response came from. *)
Definition extract_filename_from_response (path_of : string -> string)
    (response : response) (paper_data : dict) : result string :=
  let from_header :=
    match headers_get (headers response) "Content-Disposition" with
    | Some cd =>
        match first_filename cd with
        | Some group => Some (strip_quotes group)
        | None => None
        end
    | None => None
    end in
  match from_header with
  | Some filename => Ok filename
  | None =>
      let url_path := path_of (url response) in
      if endswith ".pdf" url_path &&
         (10 <? Z.of_nat (String.length (path_stem url_path)))
      then Ok (path_stem url_path +:+ ".pdf")
      else
        let title := get_or paper_data "title" (JStr "") in
        if truthy title then
          match title with
          | JStr t => Ok (clean_filename t +:+ ".pdf")
          | _ => Raised
          end
        else Ok (py_str (get_or paper_data "paperId" (JStr "unknown")) +:+ ".pdf")
  end.

(** A name without a slash: a single path component. *)
Definition plain_name (name : string) : bool :=
  str_all (fun c => negb (Ascii.eqb c "/")) name.

(** What [os.path.join(out, name)] puts before a [name] that does not
    start with a slash. *)
Definition dir_prefix (out : string) : string :=
  if String.eqb out "" || endswith_sep out then out else out +:+ "/".

(** The server names the file in a [Content-Disposition] header. *)
Definition world_named (cd : string) : world :=
  {| http := fun _ _ =>
       Reply {| status := 200; json_body := None;
                headers := [("content-disposition", cd)]; url := "" |};
     clock := fun n => 1700000000000 + 20000 * Z.of_nat n;
     io := fun _ _ => IoOk |}.

(** A paper with a title that needs cleaning, open access. *)
Definition paper_titled : dict :=
  [("paperId", JStr "P1");
   ("title", JStr "Deep Learning: a (short) review");
   ("authors", JArr [JObj [("name", JStr "Ada")]]);
   ("openAccessPdf", JObj [("url", JStr "http://x/download?id=1")])].

(** The path of the example URLs: what follows the host, up to the query. *)
Definition path_of_example (u : string) : string :=
  if String.eqb u "http://x/download?id=1" then "/download" else "".

(** A name that is safe to look for after [filename=]: it has neither a
    line break nor a double quote. *)
Definition bare_name (f : string) : bool :=
  str_all (fun c => negb (Ascii.eqb c "010") && negb (Ascii.eqb c "034")) f.

(** A sleep of [wait_for_rate_limit] in state [s] lasts at least as long
    as it was asked to: the clock read after it has advanced by the
    delay. *)
Definition sleep_honoured (w : world) (s : fetcher) : Prop :=
  forall d,
    rate_limit_delay (clock w (length (log s))) (last_request_time s) = Some d ->
    clock w (length (log s)) + d <= clock w (S (length (log s))).

(** A fetcher whose last request was made half a second ago, by the clock
    of the example worlds. *)
Definition fetcher_recent : fetcher :=
  {| output_dir := "papers"; visited_papers := [];
     last_request_time := 1700000000000 - 500; files := []; log := [] |}.

(** ** More on the crawler *)

(** A coroutine that has ended, with a result or an exception. *)
Definition terminal (t : task) : bool :=
  match t with
  | Returned _ | Failed => true
  | _ => false
  end.

(** From [s] to [s'] nothing was undone: the log, the visited set and the
    paths on disk only grew.  (A path can be opened for writing a second
    time, and is then listed twice.) *)
Definition fetcher_grows (s s' : fetcher) : Prop :=
  output_dir s' = output_dir s /\
  (exists l, log s' = log s ++ l) /\
  (exists v, visited_papers s' = v ++ visited_papers s) /\
  (exists f, files s' = f ++ files s).

(** ... and in the crawl, the pool only grew and the coroutines that had
    ended are as they were. *)
Definition grows (c c' : crawl) : Prop :=
  fetcher_grows (self c) (self c') /\
  (length (pool c) <= length (pool c'))%nat /\
  (forall i t, pool c !! i = Some t -> terminal t = true -> pool c' !! i = Some t).

(** ** What [process_paper] returns

    The records travel up the tree of coroutines: a coroutine holds its
    own record, and takes those of its children when [asyncio.gather]
    hands them over. *)

(** The papers whose download succeeded, in the order of the downloads. *)
Definition download_ok (e : event) : option json :=
  match e with DownloadPdf v true => Some v | _ => None end.
Definition downloaded_ok (l : list event) : list json := omap download_ok l.

(** The coroutines a coroutine waits for in [asyncio.gather]. *)
Definition children_of_task (t : task) : list nat :=
  match t with Gathering _ children => children | _ => [] end.

(** [awaited p j]: some coroutine of the pool waits for coroutine [j]. *)
Definition awaited (p : list task) (j : nat) : bool :=
  existsb (fun t => existsb (Nat.eqb j) (children_of_task t)) p.

(** The result of [j] is still due to someone: [j] is the call of the
    user, or a coroutine waits for it. *)
Definition attached (p : list task) (j : nat) : bool := (j =? 0)%nat || awaited p j.

Definition results_at (p : list task) (i : nat) : list paper_record :=
  match p !! i with Some t => results_of t | None => [] end.

(** The records on their way to the user: those held by the coroutines
    whose result is still due. *)
Definition account (p : list task) : list paper_record :=
  flat_map (fun i => if attached p i then results_at p i else []) (seq 0 (length p)).

Definition has_failed (p : list task) : bool := existsb (fun t => is_failed (Some t)) p.

(** [doomed p i]: coroutine [i] has failed, or waits in [gather] for a
    coroutine that is doomed; its [gather] will raise. *)
Inductive doomed (p : list task) : nat -> Prop :=
| doomed_failed i : p !! i = Some Failed -> doomed p i
| doomed_await g rs ch j :
    p !! g = Some (Gathering rs ch) -> j ∈ ch -> doomed p j -> doomed p g.

(** A coroutine just created: it has not run, holds no record and waits
    for nobody. *)
Definition fresh (t : task) : Prop :=
  terminal t = false /\ results_of t = [] /\ children_of_task t = [].

(** A turn of coroutine [i], seen from the pool: the pool after it, and
    the papers it downloaded. *)
Inductive turn (p : list task) (i : nat) : list task -> list json -> Prop :=
| turn_quiet old new :
    p !! i = Some old -> terminal old = false ->
    results_of old = [] -> children_of_task old = [] ->
    results_of new = [] -> children_of_task new = [] ->
    turn p i (<[i := new]> p) []
| turn_download old v (ok : bool) results extra :
    p !! i = Some old -> downloading_id old = Some v ->
    map rec_id results = (if ok then [v] else []) ->
    Forall fresh extra ->
    turn p i
      (<[i := match extra with
              | [] => Returned results
              | _ => Gathering results (seq (length p) (length extra))
              end]> p ++ extra)
      (if ok then [v] else [])
| turn_download_raises old v (ok : bool) :
    p !! i = Some old -> downloading_id old = Some v ->
    turn p i (<[i := Failed]> p) (if ok then [v] else [])
| turn_gather rs ch collected :
    p !! i = Some (Gathering rs ch) ->
    existsb is_failed (map (fun j => p !! j) ch) = false ->
    collect (map (fun j => p !! j) ch) = Some collected ->
    turn p i (<[i := Returned (rs ++ collected)]> p) []
| turn_gather_raises rs ch :
    p !! i = Some (Gathering rs ch) ->
    existsb is_failed (map (fun j => p !! j) ch) = true ->
    turn p i (<[i := Failed]> p) [].

(** What every pool of a crawl satisfies, with [oks] the papers downloaded
    so far.  The coroutines form a tree: a coroutine waits for coroutines
    created after it, and no coroutine is waited for twice.  After a
    failure, the call of the user is doomed.  Before any failure, every
    coroutine that has not ended is still due, every coroutine that is no
    longer due has returned, and the records still due are those of the
    papers downloaded. *)
Record tree_inv (p : list task) (oks : list json) : Prop := {
  ti_root : (0 < length p)%nat;
  ti_children :
    forall g rs ch, p !! g = Some (Gathering rs ch) ->
                    NoDup ch /\ forall j, j ∈ ch -> (g < j < length p)%nat;
  ti_disjoint :
    forall g g' rs rs' ch ch' j,
      p !! g = Some (Gathering rs ch) -> p !! g' = Some (Gathering rs' ch') ->
      j ∈ ch -> j ∈ ch' -> g = g';
  ti_doomed : has_failed p = true -> doomed p 0;
  ti_attached :
    has_failed p = false ->
    forall j t, p !! j = Some t -> terminal t = false -> attached p j = true;
  ti_consumed :
    has_failed p = false ->
    forall j t, p !! j = Some t -> attached p j = false -> exists r, t = Returned r;
  ti_account :
    has_failed p = false -> map rec_id (account p) ≡ₚ oks
}.

(** A paper whose [authors] field is null, with an open-access PDF. *)
Definition paper_null_authors : dict :=
  [("title", JStr "R"); ("authors", JNull);
   ("openAccessPdf", JObj [("url", JStr "http://x/r.pdf")])].

Definition world_null_authors : world :=
  {| http := fun _ u =>
       if String.eqb u (metadata_url (JStr "R"))
       then reply_with 200 (Some (JObj paper_null_authors))
       else reply_with 200 None;
     clock := fun n => 1700000000000 + 20000 * Z.of_nat n;
     io := fun _ _ => IoOk |}.

(** ** The records and the files *)

(** The servers name no file: no response carries a file name in a
    [Content-Disposition] header. *)
Definition no_named_files (w : world) : Prop :=
  forall n u resp cd,
    http w n u = Reply resp ->
    headers_get (headers resp) "Content-Disposition" = Some cd ->
    first_filename cd = None.

(** The metadata of every paper has a title. *)
Definition titled (d : dict) : Prop := truthy (get_or d "title" (JStr "")) = true.

Definition all_titled (w : world) : Prop :=
  forall n paper_id d, answers w n (metadata_url paper_id) (JObj d) -> titled d.

(** [r] names a file that exists, directly in the directory [out]. *)
Definition points_to_file (out : string) (s : fetcher) (r : paper_record) : Prop :=
  rec_pdf_path r ∈ files s /\
  exists name, plain_name name = true /\ rec_filename r = JStr name /\
               rec_pdf_path r = dir_prefix out +:+ name.

Record files_inv (out : string) (c : crawl) : Prop := {
  fi_out : output_dir (self c) = out;
  fi_data : forall v d data, Downloading v d data ∈ pool c -> titled data;
  fi_path : forall v d data p, Saving v d data p ∈ pool c ->
                               exists name, plain_name name = true /\
                                            p = dir_prefix out +:+ name;
  fi_records : forall t r, t ∈ pool c -> r ∈ results_of t ->
                           points_to_file out (self c) r
}.

(** Every server answers 200, with the metadata of a titled paper. *)
Definition world_titled : world :=
  {| http := fun _ _ => reply_with 200 (Some (JObj paper_titled));
     clock := fun n => 1700000000000 + 20000 * Z.of_nat n;
     io := fun _ _ => IoOk |}.

(** ** The downloads and the rate limit *)

(** The events of a transfer: a request, or a file opened for writing. *)
Definition transfer (e : event) : Prop :=
  match e with Get _ | Create _ => True | _ => False end.

(** A program that takes no part in the rate limiting: it never sleeps,
    and it leaves [last_request_time] as it is. *)
Definition unthrottled {A} (m : prog A) : Prop :=
  forall s, last_request_time (snd (m s)) = last_request_time s /\
            exists l, log (snd (m s)) = log s ++ l /\ Forall transfer l.

(** ** Two downloads of one file name *)

(** The paths opened for writing, in order. *)
Definition created (e : event) : option string :=
  match e with Create p => Some p | _ => None end.
Definition created_paths (l : list event) : list string := omap created l.

(** C7 as the specification states it: in a crawl the downloads are saved
    under distinct paths, none of which existed, so that no file is
    overwritten. *)
Definition never_overwrites : Prop :=
  forall (w : world) (ex : response -> dict -> result string)
         (out : string) (fs : list string) (root : json) (depth : Z)
         (sched : list nat),
    let c := run w ex sched (process_paper (new_fetcher out fs) root depth) in
    NoDup (created_paths (log (self c))) /\
    forall p, p ∈ created_paths (log (self c)) -> p ∉ fs.

Fixpoint str_until (stop : ascii -> bool) (s : string) : string :=
  match s with
  | EmptyString => EmptyString
  | String c s' => if stop c then EmptyString else String c (str_until stop s')
  end.

Fixpoint str_from (stop : ascii -> bool) (s : string) : string :=
  match s with
  | EmptyString => EmptyString
  | String c s' => if stop c then s else str_from stop s'
  end.

(** [urllib.parse.urlparse(u).path] for a URL [scheme://host/path?query]
    without parameters: what follows the host, up to the query or the
    fragment. *)
Definition url_path (u : string) : string :=
  let ends_path := fun c => Ascii.eqb c "?" || Ascii.eqb c "#" in
  match String.index 0 "://" u with
  | Some n =>
      str_until ends_path
        (str_from (fun c => Ascii.eqb c "/" || ends_path c) (str_drop (n + 3) u))
  | None => str_until ends_path u
  end.

(** The root [R] cites [A] and [B], two papers with the title [Same] and
    an open-access PDF each; every response carries the URL it came
    from. *)
Definition paper_same (pdf_url : string) : dict :=
  [("title", JStr "Same"); ("openAccessPdf", JObj [("url", JStr pdf_url)])].

Definition reply_from (u : string) (body : option json) : reply :=
  Reply {| status := 200; json_body := body; headers := []; url := u |}.

Definition world_same_title : world :=
  {| http := fun _ u =>
       if String.eqb u (metadata_url (JStr "R"))
       then reply_from u (Some (JObj (paper "R" ["A"; "B"])))
       else if String.eqb u (metadata_url (JStr "A"))
       then reply_from u (Some (JObj (paper_same "http://x/a")))
       else if String.eqb u (metadata_url (JStr "B"))
       then reply_from u (Some (JObj (paper_same "http://x/b")))
       else if String.eqb u "http://x/a" || String.eqb u "http://x/b"
       then reply_from u None
       else reply_with 404 None;
     clock := fun n => 1700000000000 + 20000 * Z.of_nat n;
     io := fun _ _ => IoOk |}.

(** The coroutines are 0 for [R], 1 for [A] and 2 for [B].  In the first
    schedule the two downloads overlap: both have chosen their path before
    either file is opened.  In the second the download of [A] has ended
    when that of [B] begins. *)
Definition schedule_overlap : list nat :=
  [0; 0; 0;          (* R: marked, fetched, no PDF; A and B created *)
   1; 2; 1; 2;       (* A and B: marked, fetched *)
   1; 2;             (* A, then B: the PDF arrives and the path is chosen *)
   1; 2;             (* A, then B: the file is opened and written *)
   0]%nat.

Definition schedule_in_turn : list nat :=
  [0; 0; 0; 1; 2; 1; 2;
   1; 1;             (* A: the path is chosen, the file is written *)
   2; 2;             (* B: the path is chosen, the file is written *)
   0]%nat.

(** ** What a crawl with depth N processes *)




(** * Properties *)

(** ** Values and sets *)

Lemma json_eqb_refl (v : json) : json_eqb v v = true.
Proof.
  revert v. fix IH 1. intros [ | b | n | s | items | fields ]; simpl.
  - reflexivity.
  - apply Bool.eqb_reflx.
  - apply Z.eqb_refl.
  - apply String.eqb_refl.
  - induction items as [ | x xs IHxs ]; [ reflexivity | ].
    rewrite (IH x). exact IHxs.
  - induction fields as [ | [k x] xs IHxs ]; [ reflexivity | ].
    rewrite String.eqb_refl, (IH x). exact IHxs.
Qed.

Lemma set_mem_In (v : json) (s : list json) : In v s -> set_mem v s = true.
Proof.
  intros H. unfold set_mem. apply existsb_exists. exists v. split; [ exact H | ].
  apply json_eqb_refl.
Qed.

Lemma set_mem_false_not_In (v : json) (s : list json) :
  set_mem v s = false -> ~ In v s.
Proof.
  intros H Hin. rewrite (set_mem_In _ _ Hin) in H. discriminate.
Qed.

(** ** Frame: what the client and the downloader leave alone *)

Lemma extends_refl (s : fetcher) : extends s s.
Proof.
  repeat split. exists []. split; [ symmetry; apply app_nil_r | constructor ].
Qed.

Lemma extends_trans (s1 s2 s3 : fetcher) :
  extends s1 s2 -> extends s2 s3 -> extends s1 s3.
Proof.
  intros (Ho & Hv & l & Hl & Hio) (Ho' & Hv' & l' & Hl' & Hio').
  split; [ congruence | ]. split; [ congruence | ].
  exists (l ++ l'). split.
  - rewrite Hl', Hl. symmetry. apply app_assoc.
  - apply Forall_app. split; assumption.
Qed.

Lemma extends_emit (e : event) (s : fetcher) : io_event e -> extends s (emit e s).
Proof.
  intros He. repeat split. exists [e]. split; [ reflexivity | ].
  constructor; [ exact He | constructor ].
Qed.

Lemma quiet_ret {A} (a : A) : quiet (ret a).
Proof. intros s. apply extends_refl. Qed.

Lemma quiet_raise {A} : quiet (@raise A).
Proof. intros s. apply extends_refl. Qed.

Lemma quiet_lift {A} (r : result A) : quiet (lift r).
Proof. intros s. apply extends_refl. Qed.

Lemma quiet_bind {A B} (m : prog A) (k : A -> prog B) :
  quiet m -> (forall a, quiet (k a)) -> quiet (bind m k).
Proof.
  intros Hm Hk s. unfold bind. specialize (Hm s).
  destruct (m s) as [[a | ] s']; simpl in *; [ | exact Hm ].
  eapply extends_trans; [ exact Hm | apply Hk ].
Qed.

Lemma quiet_try_except {A} (m h : prog A) :
  quiet m -> quiet h -> quiet (try_except m h).
Proof.
  intros Hm Hh s. unfold try_except. specialize (Hm s).
  destruct (m s) as [[a | ] s']; simpl in *; [ exact Hm | ].
  eapply extends_trans; [ exact Hm | apply Hh ].
Qed.

Lemma quiet_time_time (w : world) : quiet (time_time w).
Proof. intros s. apply extends_refl. Qed.

Lemma quiet_sleep (w : world) site ms : quiet (sleep site ms).
Proof. intros s. apply extends_emit. exact I. Qed.

Lemma quiet_session_get (w : world) (u : string) : quiet (session_get w u).
Proof.
  intros s. unfold session_get.
  destruct (http w (requests (log s)) u); apply extends_emit; exact I.
Qed.

Lemma quiet_response_json (r : response) : quiet (response_json r).
Proof. unfold response_json. destruct (json_body r); [ apply quiet_ret | apply quiet_raise ]. Qed.

Lemma extends_set_last (t : Z) (s : fetcher) : extends s (set_last_request_time t s).
Proof. repeat split. exists []. split; [ symmetry; apply app_nil_r | constructor ]. Qed.

Lemma extends_add_file (p : string) (s : fetcher) : extends s (add_file p s).
Proof. repeat split. exists []. split; [ symmetry; apply app_nil_r | constructor ]. Qed.

Lemma quiet_write_file (w : world) (p : string) : quiet (write_file w p).
Proof.
  intros s. unfold write_file. destruct (io w (length (log s)) p); simpl.
  - eapply extends_trans; [ apply extends_emit | apply extends_add_file ]. exact I.
  - apply extends_refl.
  - eapply extends_trans; [ apply extends_emit | apply extends_add_file ]. exact I.
Qed.

Create HintDb quiet.

#[local] Hint Resolve quiet_ret quiet_raise quiet_lift quiet_time_time quiet_sleep
  quiet_session_get quiet_response_json quiet_write_file : quiet.

(** Walks through a program built from [bind], [try_except] and case
    distinctions, leaving the primitives to the hint database. *)
Ltac quiet_step :=
  match goal with
  | |- quiet (bind _ _) => apply quiet_bind; [ | intros ? ]
  | |- quiet (try_except _ _) => apply quiet_try_except
  | |- quiet (if ?b then _ else _) => destruct b
  | |- quiet (match ?x with _ => _ end) => destruct x
  | |- quiet _ => solve [ auto with quiet ]
  end.

Lemma quiet_wait_for_rate_limit (w : world) : quiet (wait_for_rate_limit w).
Proof.
  unfold wait_for_rate_limit. repeat quiet_step.
  - intros s. destruct (rate_limit_delay _ _); [ apply quiet_sleep; exact w | apply extends_refl ].
  - intros s. apply extends_set_last.
Qed.

#[local] Hint Resolve quiet_wait_for_rate_limit : quiet.

Lemma quiet_fetch_attempt (w : world) paper_id attempt :
  quiet (fetch_attempt w paper_id attempt).
Proof. unfold fetch_attempt. repeat quiet_step. Qed.

Lemma quiet_fetch_loop (w : world) paper_id retries todo attempt :
  quiet (fetch_loop w paper_id retries todo attempt).
Proof.
  revert attempt. induction todo as [ | todo IH ]; intros attempt; simpl.
  - apply quiet_ret.
  - apply quiet_bind.
    + apply quiet_try_except; [ apply quiet_fetch_attempt | repeat quiet_step ].
    + intros [ v | ]; [ apply quiet_ret | apply IH ].
Qed.

Lemma quiet_fetch_paper_details (w : world) paper_id retries :
  quiet (fetch_paper_details w paper_id retries).
Proof. apply quiet_fetch_loop. Qed.

Lemma quiet_try_arxiv (w : world) d : quiet (try_arxiv w d).
Proof. unfold try_arxiv, external_id. repeat quiet_step. Qed.

Lemma quiet_try_unpaywall (w : world) d : quiet (try_unpaywall w d).
Proof. unfold try_unpaywall, external_id. repeat quiet_step. Qed.

Lemma quiet_try_core (w : world) d : quiet (try_core w d).
Proof. unfold try_core, external_id. repeat quiet_step. Qed.

#[local] Hint Resolve quiet_try_arxiv quiet_try_unpaywall quiet_try_core : quiet.

Lemma quiet_try_alternative_sources (w : world) d :
  quiet (try_alternative_sources w d).
Proof. unfold try_alternative_sources, or_else. repeat quiet_step. Qed.

#[local] Hint Resolve quiet_try_alternative_sources : quiet.

Lemma quiet_resolve_pdf_url (w : world) d : quiet (resolve_pdf_url w d).
Proof. unfold resolve_pdf_url. repeat quiet_step. Qed.

Lemma quiet_save_pdf (w : world) ex d u : quiet (save_pdf w ex d u).
Proof.
  unfold save_pdf, session_get_value. apply quiet_bind.
  - destruct u; auto with quiet.
  - intros r. destruct (status r =? 200); [ | apply quiet_ret ].
    apply quiet_bind; [ apply quiet_lift | ]. intros filename s.
    apply (quiet_bind (write_file w _) (fun _ => ret _)); auto with quiet.
Qed.

#[local] Hint Resolve quiet_resolve_pdf_url quiet_save_pdf : quiet.

Lemma quiet_download_pdf (w : world) ex d : quiet (download_pdf w ex d).
Proof. unfold download_pdf. repeat quiet_step. Qed.

Lemma quiet_choose_path (w : world) ex d u : quiet (choose_path w ex d u).
Proof.
  unfold choose_path, session_get_value. apply quiet_bind.
  - destruct u; auto with quiet.
  - intros r. destruct (status r =? 200); [ | apply quiet_ret ].
    apply quiet_bind; [ apply quiet_lift | ]. intros filename s. apply extends_refl.
Qed.

#[local] Hint Resolve quiet_choose_path : quiet.

Lemma quiet_download_pdf_begin (w : world) ex d : quiet (download_pdf_begin w ex d).
Proof. unfold download_pdf_begin. repeat quiet_step. Qed.

Lemma quiet_download_pdf_end (w : world) d p : quiet (download_pdf_end w d p).
Proof. unfold download_pdf_end. repeat quiet_step. Qed.

(** ** The metadata client: retries and back-off (C2) *)

Lemma requests_app (l l' : list event) :
  requests (l ++ l') = (requests l + requests l')%nat.
Proof.
  induction l as [ | e l IH ]; [ reflexivity | ].
  destruct e; simpl; rewrite IH; reflexivity.
Qed.

Lemma backoffs_app (l l' : list event) : backoffs (l ++ l') = backoffs l ++ backoffs l'.
Proof. unfold backoffs. apply omap_app. Qed.

Lemma wait_for_rate_limit_ok (w : world) (s : fetcher) :
  exists s', wait_for_rate_limit w s = (Ok tt, s') /\
             requests (log s') = requests (log s) /\
             backoffs (log s') = backoffs (log s).
Proof.
  unfold wait_for_rate_limit, bind, time_time, sleep.
  destruct (rate_limit_delay _ _) as [ d | ]; simpl; eexists; split; try reflexivity; simpl.
  - rewrite requests_app, backoffs_app. simpl. split; [ lia | apply app_nil_r ].
  - split; reflexivity.
Qed.

Lemma fetch_attempt_429 (w : world) paper_id attempt s :
  status_is w (requests (log s)) (metadata_url paper_id) 429 ->
  exists s', fetch_attempt w paper_id attempt s = (Ok Continue, s') /\
             requests (log s') = S (requests (log s)) /\
             backoffs (log s') = backoffs (log s) ++ [seconds (5 * (attempt + 1))].
Proof.
  intros (r & Hr & Hst). unfold fetch_attempt, bind at 1.
  destruct (wait_for_rate_limit_ok w s) as (s1 & -> & Hreq & Hbk).
  unfold bind at 1, session_get. rewrite Hreq, Hr, Hst. simpl.
  eexists. split; [ reflexivity | ]. simpl.
  rewrite !requests_app, !backoffs_app, Hreq, Hbk. simpl.
  split; [ lia | ]. rewrite app_nil_r. reflexivity.
Qed.

Lemma fetch_attempt_200 (w : world) paper_id attempt s d :
  answers w (requests (log s)) (metadata_url paper_id) (JObj d) ->
  exists s', fetch_attempt w paper_id attempt s = (Ok (Return (Some d)), s') /\
             requests (log s') = S (requests (log s)) /\
             backoffs (log s') = backoffs (log s).
Proof.
  intros (r & Hr & Hst & Hbody). unfold fetch_attempt, bind at 1.
  destruct (wait_for_rate_limit_ok w s) as (s1 & -> & Hreq & Hbk).
  unfold bind at 1, session_get. rewrite Hreq, Hr, Hst. simpl.
  unfold bind, response_json. rewrite Hbody. simpl.
  eexists. split; [ reflexivity | ]. simpl.
  rewrite requests_app, backoffs_app, Hreq, Hbk. simpl.
  split; [ lia | apply app_nil_r ].
Qed.

(** [fetch_paper_details] never lets an exception out. *)
Lemma fetch_loop_total (w : world) paper_id retries todo attempt s :
  exists v s', fetch_loop w paper_id retries todo attempt s = (Ok v, s').
Proof.
  revert attempt s. induction todo as [ | todo IH ]; intros attempt s; simpl.
  - eexists _, _. reflexivity.
  - unfold bind, try_except.
    destruct (fetch_attempt w paper_id attempt s) as [[[ v | ] | ] s1].
    + eexists _, _. reflexivity.
    + apply IH.
    + destruct (attempt <? retries - 1); simpl.
      * apply IH.
      * eexists _, _. reflexivity.
Qed.

Lemma fetch_paper_details_total (w : world) paper_id retries s :
  exists v s', fetch_paper_details w paper_id retries s = (Ok v, s').
Proof. apply fetch_loop_total. Qed.

(** C2, as stated, fails: with [retries = 3] the loop body runs three
    times.  After three 429 the function returns [None]; the 200 that the
    server would give to a fourth request is never asked for. *)
Lemma fourth_attempt_never_made :
  fetch_paper_details (world_429_then_200 3) (JStr "R") 3 (new_fetcher "papers" [])
  = (Ok None,
     {| output_dir := "papers"; visited_papers := [];
        last_request_time := 1700000080000; files := [];
        log := [Get "https://api.semanticscholar.org/graph/v1/paper/R";
                Sleep Backoff 5000;
                Get "https://api.semanticscholar.org/graph/v1/paper/R";
                Sleep Backoff 10000;
                Get "https://api.semanticscholar.org/graph/v1/paper/R";
                Sleep Backoff 15000] |})
  /\ answers (world_429_then_200 3) 3 (metadata_url (JStr "R"))
             (JObj [("title", JStr "T")])
  /\ ~ fourth_attempt_succeeds.
Proof.
  split; [ vm_compute; reflexivity | ].
  split; [ eexists; repeat split; reflexivity | ].
  intros H.
  specialize (H (world_429_then_200 3) (JStr "R") [("title", JStr "T")]
                (new_fetcher "papers" [])).
  assert (Hnone : fst (fetch_paper_details (world_429_then_200 3) (JStr "R") 3
                         (new_fetcher "papers" [])) = Ok None)
    by (vm_compute; reflexivity).
  rewrite H in Hnone; [ discriminate | | ].
  - intros n Hn. exists {| status := 429; json_body := None; headers := []; url := "" |}.
    split; [ | reflexivity ].
    destruct n as [ | [ | [ | n ] ] ]; [ reflexivity .. | lia ].
  - eexists. repeat split; reflexivity.
Qed.

(** C2, amended: [fetch_paper_details] with [retries = 3] makes at most
    three attempts and never raises.  Three 429 in a row give [None] after
    exactly three requests and waits of 5, 10 and 15 seconds; two 429
    followed by a 200 on the third attempt give the parsed metadata. *)
Theorem fetch_paper_details_three_attempts (w : world) (paper_id : json) (s : fetcher) :
  let u := metadata_url paper_id in
  let n := requests (log s) in
  (exists v s', fetch_paper_details w paper_id 3 s = (Ok v, s')) /\
  ((forall k, (k < 3)%nat -> status_is w (n + k) u 429) ->
   exists s', fetch_paper_details w paper_id 3 s = (Ok None, s') /\
              requests (log s') = (n + 3)%nat /\
              backoffs (log s') = backoffs (log s) ++ [5000; 10000; 15000]) /\
  (forall d, status_is w n u 429 -> status_is w (n + 1) u 429 ->
             answers w (n + 2) u (JObj d) ->
   exists s', fetch_paper_details w paper_id 3 s = (Ok (Some d), s') /\
              requests (log s') = (n + 3)%nat /\
              backoffs (log s') = backoffs (log s) ++ [5000; 10000]).
Proof.
  intros u n. split; [ apply fetch_paper_details_total | ]. split.
  - intros H.
    assert (H0 := H 0%nat ltac:(lia)). assert (H1 := H 1%nat ltac:(lia)).
    assert (H2 := H 2%nat ltac:(lia)). clear H.
    subst n u. rewrite Nat.add_0_r in H0.
    unfold fetch_paper_details. simpl. unfold bind at 1, try_except.
    destruct (fetch_attempt_429 w paper_id 0 s H0) as (s1 & -> & Hr1 & Hb1).
    rewrite Nat.add_1_r, <- Hr1 in H1.
    unfold bind at 1.
    destruct (fetch_attempt_429 w paper_id (0 + 1) s1 H1) as (s2 & -> & Hr2 & Hb2).
    replace (requests (log s) + 2)%nat with (requests (log s2)) in H2 by lia.
    unfold bind at 1.
    destruct (fetch_attempt_429 w paper_id (0 + 1 + 1) s2 H2) as (s3 & -> & Hr3 & Hb3).
    exists s3. split; [ reflexivity | ]. split; [ lia | ].
    rewrite Hb3, Hb2, Hb1, <- !app_assoc. reflexivity.
  - intros d H0 H1 H2. subst n u.
    unfold fetch_paper_details. simpl. unfold bind at 1, try_except.
    destruct (fetch_attempt_429 w paper_id 0 s H0) as (s1 & -> & Hr1 & Hb1).
    rewrite Nat.add_1_r, <- Hr1 in H1.
    unfold bind at 1.
    destruct (fetch_attempt_429 w paper_id (0 + 1) s1 H1) as (s2 & -> & Hr2 & Hb2).
    replace (requests (log s) + 2)%nat with (requests (log s2)) in H2 by lia.
    unfold bind at 1.
    destruct (fetch_attempt_200 w paper_id (0 + 1 + 1) s2 d H2) as (s3 & -> & Hr3 & Hb3).
    exists s3. split; [ reflexivity | ]. split; [ lia | ].
    rewrite Hb3, Hb2, Hb1, <- !app_assoc. reflexivity.
Qed.

Lemma fetch_paper_details_three_attempts_witness :
  (exists s', fetch_paper_details (world_429_then_200 3) (JStr "R") 3
                (new_fetcher "papers" []) = (Ok None, s') /\
              requests (log s') = 3%nat /\
              backoffs (log s') = [5000; 10000; 15000]) /\
  (exists s', fetch_paper_details (world_429_then_200 2) (JStr "R") 3
                (new_fetcher "papers" []) = (Ok (Some [("title", JStr "T")]), s') /\
              requests (log s') = 3%nat /\
              backoffs (log s') = [5000; 10000]).
Proof.
  split.
  - apply (fetch_paper_details_three_attempts (world_429_then_200 3) (JStr "R")
             (new_fetcher "papers" [])).
    intros k Hk. exists {| status := 429; json_body := None; headers := []; url := "" |}.
    split; [ | reflexivity ].
    destruct k as [ | [ | [ | k ] ] ]; [ reflexivity .. | lia ].
  - apply (fetch_paper_details_three_attempts (world_429_then_200 2) (JStr "R")
             (new_fetcher "papers" [])).
    + eexists. split; reflexivity.
    + eexists. split; reflexivity.
    + eexists. repeat split; reflexivity.
Defined.

(** ** The resolver: one handler around the chain (C3) *)

Lemma external_id_spec (d : dict) (k : string) (s : fetcher) :
  external_id d k s = (Ok (ext_id d k), s) \/
  (external_id d k s = (Raised, s) /\ ext_id d k = JNull).
Proof.
  unfold external_id, ext_id, lift, attr_get.
  destruct (get_or d "externalIds" (JObj [])); auto.
Qed.

Lemma try_arxiv_raises (w : world) (d : dict) (s : fetcher) :
  truthy (ext_id d "ArXiv") = true ->
  http w (requests (log s)) (arxiv_pdf_url (ext_id d "ArXiv")) = ConnectionError ->
  try_arxiv w d s = (Raised, emit (Get (arxiv_pdf_url (ext_id d "ArXiv"))) s).
Proof.
  intros Ht Hc. unfold try_arxiv, bind at 1.
  destruct (external_id_spec d "ArXiv" s) as [ -> | [_ Hn] ].
  - rewrite Ht. unfold bind, session_get. rewrite Hc. reflexivity.
  - rewrite Hn in Ht. discriminate.
Qed.

Lemma try_arxiv_continues (w : world) (d : dict) (s : fetcher) (r : response) :
  truthy (ext_id d "ArXiv") = true ->
  http w (requests (log s)) (arxiv_pdf_url (ext_id d "ArXiv")) = Reply r ->
  status r <> 200 ->
  try_arxiv w d s = (Ok Continue, emit (Get (arxiv_pdf_url (ext_id d "ArXiv"))) s).
Proof.
  intros Ht Hr Hst. unfold try_arxiv, bind at 1.
  destruct (external_id_spec d "ArXiv" s) as [ -> | [_ Hn] ].
  - rewrite Ht. unfold bind, session_get. rewrite Hr.
    apply Z.eqb_neq in Hst. rewrite Hst. reflexivity.
  - rewrite Hn in Ht. discriminate.
Qed.

Lemma try_alternative_sources_total (w : world) (d : dict) (s : fetcher) :
  exists v s', try_alternative_sources w d s = (Ok v, s').
Proof.
  unfold try_alternative_sources, try_except.
  destruct (or_else _ _ s) as [[ v | ] s']; eexists _, _; reflexivity.
Qed.

Lemma requests_emit_get (u : string) (s : fetcher) :
  requests (log (emit (Get u) s)) = S (requests (log s)).
Proof. simpl. rewrite requests_app. simpl. lia. Qed.

Lemma external_id_ok (d : dict) (k0 : string) :
  truthy (ext_id d k0) = true ->
  forall k s, external_id d k s = (Ok (ext_id d k), s).
Proof.
  intros Ht k s. destruct (external_id_spec d k0 s) as [ _ | [_ Hn] ].
  - revert Ht. unfold external_id, ext_id, lift, attr_get.
    destruct (get_or d "externalIds" (JObj [])); try discriminate. reflexivity.
  - rewrite Hn in Ht. discriminate.
Qed.

Lemma try_arxiv_skipped (w : world) (d : dict) (s : fetcher) :
  truthy (ext_id d "ArXiv") = false -> truthy (ext_id d "DOI") = true ->
  try_arxiv w d s = (Ok Continue, s).
Proof.
  intros Ha Hd. unfold try_arxiv, bind.
  rewrite (external_id_ok d "DOI" Hd), Ha. reflexivity.
Qed.

(** What Unpaywall's reply makes of [try_unpaywall]. *)
Lemma try_unpaywall_reply (w : world) (d : dict) (s : fetcher) :
  let u := unpaywall_url (ext_id d "DOI") in
  truthy (ext_id d "DOI") = true ->
  (http w (requests (log s)) u = ConnectionError ->
   try_unpaywall w d s = (Raised, emit (Get u) s)) /\
  (forall r, http w (requests (log s)) u = Reply r ->
     (status r <> 200 \/ unpaywall_no_url r ->
      try_unpaywall w d s = (Ok Continue, emit (Get u) s)) /\
     (unpaywall_malformed r ->
      try_unpaywall w d s = (Raised, emit (Get u) s))).
Proof.
  intros u Ht.
  assert (E : try_unpaywall w d s
              = bind (session_get w u)
                  (fun response =>
                     if status response =? 200 then
                       data <- response_json response ;;
                       d0 <- lift (as_dict data) ;;
                       v <- lift (attr_get (get_or d0 "best_oa_location" (JObj []))
                                    "url_for_pdf") ;;
                       if truthy v then ret (Return v) else ret Continue
                     else ret Continue) s).
  { unfold try_unpaywall. unfold bind at 1.
    rewrite (external_id_ok d "DOI" Ht), Ht. reflexivity. }
  assert (G : forall k : response -> prog (flow json),
             bind (session_get w u) k s
             = match http w (requests (log s)) u with
               | Reply r => k r (emit (Get u) s)
               | ConnectionError => (Raised, emit (Get u) s)
               end).
  { intros k. unfold bind, session_get.
    destruct (http w (requests (log s)) u); reflexivity. }
  rewrite E, G. clear E G. split.
  - intros ->. reflexivity.
  - intros r ->. split.
    + intros [ Hst | (Hst & body & loc & Hb & Hl & Hu) ].
      * apply Z.eqb_neq in Hst. rewrite Hst. reflexivity.
      * rewrite Hst. change (200 =? 200) with true. cbv iota.
        unfold bind, response_json, lift, ret. rewrite Hb. cbn [as_dict].
        rewrite Hl. cbn [attr_get]. rewrite Hu. reflexivity.
    + intros (Hst & Hshape). rewrite Hst. change (200 =? 200) with true. cbv iota.
      unfold bind, response_json, lift, ret, raise.
      destruct (json_body r) as [ [ | | | | | body ] | ]; try reflexivity.
      cbn [as_dict].
      destruct (get_or body "best_oa_location" (JObj [])); try reflexivity.
      contradiction.
Qed.

(** What CORE's reply makes of [try_core]: it returns a URL only from a
    well-formed reply that holds one. *)
Lemma try_core_reply (w : world) (d : dict) (s : fetcher) :
  let u := core_url (ext_id d "DOI") in
  truthy (ext_id d "DOI") = true ->
  (http w (requests (log s)) u = ConnectionError ->
   try_core w d s = (Raised, emit (Get u) s)) /\
  (forall r, http w (requests (log s)) u = Reply r ->
     (status r <> 200 \/ core_no_url r ->
      try_core w d s = (Ok Continue, emit (Get u) s)) /\
     (core_malformed r ->
      try_core w d s = (Raised, emit (Get u) s))).
Proof.
  intros u Ht.
  assert (E : try_core w d s
              = bind (session_get w u)
                  (fun response =>
                     if status response =? 200 then
                       data <- response_json response ;;
                       results <- lift (attr_get data "results") ;;
                       if truthy results then
                         first <- lift (index0 results) ;;
                         v <- lift (attr_get first "downloadUrl") ;;
                         if truthy v then ret (Return v) else ret Continue
                       else ret Continue
                     else ret Continue) s).
  { unfold try_core. unfold bind at 1.
    rewrite (external_id_ok d "DOI" Ht), Ht. reflexivity. }
  assert (G : forall k : response -> prog (flow json),
             bind (session_get w u) k s
             = match http w (requests (log s)) u with
               | Reply r => k r (emit (Get u) s)
               | ConnectionError => (Raised, emit (Get u) s)
               end).
  { intros k. unfold bind, session_get.
    destruct (http w (requests (log s)) u); reflexivity. }
  rewrite E, G. clear E G. split.
  - intros ->. reflexivity.
  - intros r ->. split.
    + intros [ Hst | (Hst & body & Hb & Hres) ].
      * apply Z.eqb_neq in Hst. rewrite Hst. reflexivity.
      * rewrite Hst. change (200 =? 200) with true. cbv iota.
        unfold bind, response_json, lift, ret. rewrite Hb. cbn [attr_get].
        destruct Hres as [ Hf | (first & Hi & Hu) ].
        -- rewrite Hf. reflexivity.
        -- destruct (truthy (get body "results")); [ | reflexivity ].
           rewrite Hi. cbn [attr_get]. rewrite Hu. reflexivity.
    + intros (Hst & Hshape). rewrite Hst. change (200 =? 200) with true. cbv iota.
      unfold bind, response_json, lift, ret, raise.
      destruct (json_body r) as [ [ | | | | | body ] | ]; try reflexivity.
      cbn [attr_get]. destruct Hshape as [-> Hfirst].
      destruct (index0 (get body "results")) as [ [ | | | | | first ] | ];
        try reflexivity.
      contradiction.
Qed.

(** The chain from Unpaywall on: an exception ends it, no answer hands on
    to CORE. *)
Lemma after_arxiv_raised (w : world) (d : dict) (s s' : fetcher) :
  try_unpaywall w d s = (Raised, s') -> after_arxiv w d s = (Ok JNull, s').
Proof.
  intros H. unfold after_arxiv, try_except, or_else. unfold bind at 1.
  rewrite H. reflexivity.
Qed.

Lemma after_arxiv_continue (w : world) (d : dict) (s s' : fetcher) :
  try_unpaywall w d s = (Ok Continue, s') -> after_arxiv w d s = after_unpaywall w d s'.
Proof.
  intros H. unfold after_arxiv, after_unpaywall, try_except.
  unfold or_else at 1. unfold bind at 1. rewrite H. reflexivity.
Qed.

Lemma after_unpaywall_none (w : world) (d : dict) (s s' : fetcher) :
  try_core w d s = (Raised, s') \/ try_core w d s = (Ok Continue, s') ->
  after_unpaywall w d s = (Ok JNull, s').
Proof.
  intros H. unfold after_unpaywall, try_except, or_else, bind.
  destruct H as [ -> | -> ]; reflexivity.
Qed.

(** C3, as stated, fails: arXiv is down and Unpaywall has the PDF, yet the
    resolver answers [None] after the one request to arXiv. *)
Lemma arxiv_failure_ends_the_chain :
  try_alternative_sources world_arxiv_down paper_arxiv_doi (new_fetcher "papers" [])
  = (Ok JNull,
     {| output_dir := "papers"; visited_papers := []; last_request_time := 0;
        files := []; log := [Get "https://arxiv.org/pdf/2101.00001.pdf"] |})
  /\ (forall n, answers world_arxiv_down n (unpaywall_url (JStr "10.1/x"))
                  (JObj [("best_oa_location",
                          JObj [("url_for_pdf", JStr "https://host/p.pdf")])]))
  /\ ~ provider_failures_isolated.
Proof.
  split; [ vm_compute; reflexivity | ].
  split; [ intros n; eexists; repeat split; reflexivity | ].
  intros H.
  specialize (H world_arxiv_down paper_arxiv_doi (new_fetcher "papers" [])
                eq_refl eq_refl eq_refl).
  vm_compute in H. destruct H as [ H | [] ]. discriminate.
Qed.

(** C3, amended: [try_alternative_sources] never raises.  Each of the
    three providers that answers with a status other than 200, or with a
    well-formed reply that holds no URL, is treated as having no answer,
    and the resolver goes on to the next provider of the chain: from arXiv
    to Unpaywall ([after_arxiv]), from Unpaywall to CORE
    ([after_unpaywall]), and from CORE to [None].  A network error or a
    reply of unexpected shape while any one provider is consulted is
    caught by the single handler around the chain: the resolver returns
    [None] in the state just after that request, so no later provider is
    asked.  The last two parts follow the chain from end to end: three
    providers without an answer are all asked, in order; arXiv without an
    answer and Unpaywall failing leave CORE unasked. *)
Theorem try_alternative_sources_one_handler (w : world) (d : dict) (s : fetcher) :
  let arxiv := arxiv_pdf_url (ext_id d "ArXiv") in
  let unpaywall := unpaywall_url (ext_id d "DOI") in
  let core := core_url (ext_id d "DOI") in
  (exists v s', try_alternative_sources w d s = (Ok v, s')) /\
  (truthy (ext_id d "ArXiv") = true ->
   (http w (requests (log s)) arxiv = ConnectionError ->
    try_alternative_sources w d s = (Ok JNull, emit (Get arxiv) s)) /\
   (forall r, http w (requests (log s)) arxiv = Reply r -> status r <> 200 ->
      try_alternative_sources w d s = after_arxiv w d (emit (Get arxiv) s))) /\
  (truthy (ext_id d "ArXiv") = false -> truthy (ext_id d "DOI") = true ->
   try_alternative_sources w d s = after_arxiv w d s) /\
  (forall s1, truthy (ext_id d "DOI") = true ->
     (http w (requests (log s1)) unpaywall = ConnectionError ->
      after_arxiv w d s1 = (Ok JNull, emit (Get unpaywall) s1)) /\
     (forall r, http w (requests (log s1)) unpaywall = Reply r ->
        (status r <> 200 \/ unpaywall_no_url r ->
         after_arxiv w d s1 = after_unpaywall w d (emit (Get unpaywall) s1)) /\
        (unpaywall_malformed r ->
         after_arxiv w d s1 = (Ok JNull, emit (Get unpaywall) s1)))) /\
  (forall s2, truthy (ext_id d "DOI") = true ->
     (http w (requests (log s2)) core = ConnectionError ->
      after_unpaywall w d s2 = (Ok JNull, emit (Get core) s2)) /\
     (forall r, http w (requests (log s2)) core = Reply r ->
        status r <> 200 \/ core_no_url r \/ core_malformed r ->
        after_unpaywall w d s2 = (Ok JNull, emit (Get core) s2))) /\
  (forall r1 r2 r3,
     truthy (ext_id d "ArXiv") = true -> truthy (ext_id d "DOI") = true ->
     http w (requests (log s)) arxiv = Reply r1 -> status r1 <> 200 ->
     http w (S (requests (log s))) unpaywall = Reply r2 ->
     status r2 <> 200 \/ unpaywall_no_url r2 ->
     http w (S (S (requests (log s)))) core = Reply r3 ->
     status r3 <> 200 \/ core_no_url r3 ->
     try_alternative_sources w d s
     = (Ok JNull, emit (Get core) (emit (Get unpaywall) (emit (Get arxiv) s)))) /\
  (forall r1,
     truthy (ext_id d "ArXiv") = true -> truthy (ext_id d "DOI") = true ->
     http w (requests (log s)) arxiv = Reply r1 -> status r1 <> 200 ->
     http w (S (requests (log s))) unpaywall = ConnectionError ->
     try_alternative_sources w d s
     = (Ok JNull, emit (Get unpaywall) (emit (Get arxiv) s))).
Proof.
  intros arxiv unpaywall core.
  assert (Hraise : forall s1, try_arxiv w d s = (Raised, s1) ->
                              try_alternative_sources w d s = (Ok JNull, s1)).
  { intros s1 H. unfold try_alternative_sources, try_except, or_else, bind at 1.
    rewrite H. reflexivity. }
  assert (Hcont : forall s1, try_arxiv w d s = (Ok Continue, s1) ->
                             try_alternative_sources w d s = after_arxiv w d s1).
  { intros s1 H. unfold try_alternative_sources, after_arxiv, try_except.
    unfold or_else at 1, bind at 1. rewrite H. reflexivity. }
  assert (HA : forall r, truthy (ext_id d "ArXiv") = true ->
                 http w (requests (log s)) arxiv = Reply r -> status r <> 200 ->
                 try_alternative_sources w d s = after_arxiv w d (emit (Get arxiv) s)).
  { intros r Ht Hr Hst. apply Hcont. eapply try_arxiv_continues; eassumption. }
  assert (HU : forall s1, truthy (ext_id d "DOI") = true ->
     (http w (requests (log s1)) unpaywall = ConnectionError ->
      after_arxiv w d s1 = (Ok JNull, emit (Get unpaywall) s1)) /\
     (forall r, http w (requests (log s1)) unpaywall = Reply r ->
        (status r <> 200 \/ unpaywall_no_url r ->
         after_arxiv w d s1 = after_unpaywall w d (emit (Get unpaywall) s1)) /\
        (unpaywall_malformed r ->
         after_arxiv w d s1 = (Ok JNull, emit (Get unpaywall) s1)))).
  { intros s1 Ht. destruct (try_unpaywall_reply w d s1 Ht) as [He Hr]. split.
    - intros H. apply after_arxiv_raised, He, H.
    - intros r H. destruct (Hr r H) as [Hno Hbad]. split.
      + intros Hc. apply after_arxiv_continue, Hno, Hc.
      + intros Hc. apply after_arxiv_raised, Hbad, Hc. }
  assert (HC : forall s2, truthy (ext_id d "DOI") = true ->
     (http w (requests (log s2)) core = ConnectionError ->
      after_unpaywall w d s2 = (Ok JNull, emit (Get core) s2)) /\
     (forall r, http w (requests (log s2)) core = Reply r ->
        status r <> 200 \/ core_no_url r \/ core_malformed r ->
        after_unpaywall w d s2 = (Ok JNull, emit (Get core) s2))).
  { intros s2 Ht. destruct (try_core_reply w d s2 Ht) as [He Hr]. split.
    - intros H. apply after_unpaywall_none. left. apply He, H.
    - intros r H Hc. destruct (Hr r H) as [Hno Hbad]. apply after_unpaywall_none.
      destruct Hc as [ Hc | [ Hc | Hc ] ]; [ right | right | left ]; auto. }
  split; [ apply try_alternative_sources_total | ].
  split; [ | split; [ | split; [ exact HU | split; [ exact HC | split ] ] ] ].
  - intros Ht. split; [ | intros r; apply HA; exact Ht ].
    intros Hc. apply Hraise. apply try_arxiv_raises; assumption.
  - intros Ha Hd. apply Hcont. apply try_arxiv_skipped; assumption.
  - intros r1 r2 r3 Ha Hd H1 Hs1 H2 Hs2 H3 Hs3.
    rewrite (HA r1 Ha H1 Hs1).
    destruct (HU (emit (Get arxiv) s) Hd) as [_ Hu].
    rewrite requests_emit_get in Hu. destruct (Hu r2 H2) as [Hu2 _].
    rewrite (Hu2 Hs2).
    destruct (HC (emit (Get unpaywall) (emit (Get arxiv) s)) Hd) as [_ Hc].
    rewrite !requests_emit_get in Hc. apply (Hc r3 H3).
    destruct Hs3 as [ Hs3 | Hs3 ]; auto.
  - intros r1 Ha Hd H1 Hs1 H2.
    rewrite (HA r1 Ha H1 Hs1).
    destruct (HU (emit (Get arxiv) s) Hd) as [Hu _].
    rewrite requests_emit_get in Hu. apply Hu, H2.
Qed.

Lemma try_alternative_sources_one_handler_witness :
  try_alternative_sources world_arxiv_down paper_arxiv_doi (new_fetcher "papers" [])
  = (Ok JNull,
     emit (Get (arxiv_pdf_url (ext_id paper_arxiv_doi "ArXiv"))) (new_fetcher "papers" []))
  /\ try_alternative_sources world_not_found paper_arxiv_doi (new_fetcher "papers" [])
     = (Ok JNull,
        emit (Get (core_url (ext_id paper_arxiv_doi "DOI")))
          (emit (Get (unpaywall_url (ext_id paper_arxiv_doi "DOI")))
             (emit (Get (arxiv_pdf_url (ext_id paper_arxiv_doi "ArXiv")))
                (new_fetcher "papers" []))))
  /\ try_alternative_sources world_unpaywall_down paper_arxiv_doi
       (new_fetcher "papers" [])
     = (Ok JNull,
        emit (Get (unpaywall_url (ext_id paper_arxiv_doi "DOI")))
          (emit (Get (arxiv_pdf_url (ext_id paper_arxiv_doi "ArXiv")))
             (new_fetcher "papers" []))).
Proof.
  pose (r404 := {| status := 404; json_body := None; headers := []; url := "" |}).
  split; [ | split ].
  - apply (try_alternative_sources_one_handler world_arxiv_down paper_arxiv_doi
             (new_fetcher "papers" [])); reflexivity.
  - apply (proj1 (proj2 (proj2 (proj2 (proj2 (proj2
             (try_alternative_sources_one_handler world_not_found paper_arxiv_doi
                (new_fetcher "papers" []))))))) r404 r404 r404);
      try reflexivity; try (left; vm_compute; discriminate);
      vm_compute; discriminate.
  - apply (proj2 (proj2 (proj2 (proj2 (proj2 (proj2
             (try_alternative_sources_one_handler world_unpaywall_down paper_arxiv_doi
                (new_fetcher "papers" []))))))) r404);
      try reflexivity; vm_compute; discriminate.
Defined.

(** ** The resolver: priority and order of the chain (C6, C10) *)

Lemma silent_ret {A} (a : A) : silent (ret a).
Proof. intros s. reflexivity. Qed.

Lemma silent_raise {A} : silent (@raise A).
Proof. intros s. reflexivity. Qed.

Lemma silent_lift {A} (r : result A) : silent (lift r).
Proof. intros s. reflexivity. Qed.

Lemma silent_bind {A B} (m : prog A) (k : A -> prog B) :
  silent m -> (forall a, silent (k a)) -> silent (bind m k).
Proof.
  intros Hm Hk s. unfold bind. specialize (Hm s).
  destruct (m s) as [[ a | ] s']; simpl in *; subst s'; [ apply Hk | reflexivity ].
Qed.

Lemma silent_response_json (r : response) : silent (response_json r).
Proof. unfold response_json. destruct (json_body r); intros s; reflexivity. Qed.

Ltac silent_step :=
  match goal with
  | |- silent (bind _ _) => apply silent_bind; [ | intros ? ]
  | |- silent (ret _) => apply silent_ret
  | |- silent raise => apply silent_raise
  | |- silent (lift _) => apply silent_lift
  | |- silent (response_json _) => apply silent_response_json
  | |- silent (if ?b then _ else _) => destruct b
  | |- silent (match ?x with _ => _ end) => destruct x
  end.

(** A request followed by a computation on the reply alone logs the
    request and nothing else. *)
Lemma session_get_then {A} (w : world) (u : string) (k : response -> prog A)
    (s : fetcher) :
  (forall r, silent (k r)) ->
  snd (bind (session_get w u) k s) = emit (Get u) s.
Proof.
  intros Hk. unfold bind, session_get.
  destruct (http w (requests (log s)) u); [ apply Hk | reflexivity ].
Qed.

Lemma try_arxiv_log (w : world) (d : dict) (s : fetcher) :
  exists l, log (snd (try_arxiv w d s)) = log s ++ l /\
            l `sublist_of` [Get (arxiv_pdf_url (ext_id d "ArXiv"))].
Proof.
  unfold try_arxiv, bind at 1.
  destruct (external_id_spec d "ArXiv" s) as [ -> | [-> _] ].
  - destruct (truthy _).
    + exists [Get (arxiv_pdf_url (ext_id d "ArXiv"))]. split; [ | reflexivity ].
      rewrite session_get_then; [ reflexivity | ]. intros r. repeat silent_step.
    + exists []. split; [ symmetry; apply app_nil_r | apply sublist_nil_l ].
  - exists []. split; [ symmetry; apply app_nil_r | apply sublist_nil_l ].
Qed.

Lemma try_unpaywall_log (w : world) (d : dict) (s : fetcher) :
  exists l, log (snd (try_unpaywall w d s)) = log s ++ l /\
            l `sublist_of` [Get (unpaywall_url (ext_id d "DOI"))].
Proof.
  unfold try_unpaywall, bind at 1.
  destruct (external_id_spec d "DOI" s) as [ -> | [-> _] ].
  - destruct (truthy _).
    + exists [Get (unpaywall_url (ext_id d "DOI"))]. split; [ | reflexivity ].
      rewrite session_get_then; [ reflexivity | ]. intros r. repeat silent_step.
    + exists []. split; [ symmetry; apply app_nil_r | apply sublist_nil_l ].
  - exists []. split; [ symmetry; apply app_nil_r | apply sublist_nil_l ].
Qed.

Lemma try_core_log (w : world) (d : dict) (s : fetcher) :
  exists l, log (snd (try_core w d s)) = log s ++ l /\
            l `sublist_of` [Get (core_url (ext_id d "DOI"))].
Proof.
  unfold try_core, bind at 1.
  destruct (external_id_spec d "DOI" s) as [ -> | [-> _] ].
  - destruct (truthy _).
    + exists [Get (core_url (ext_id d "DOI"))]. split; [ | reflexivity ].
      rewrite session_get_then; [ reflexivity | ]. intros r. repeat silent_step.
    + exists []. split; [ symmetry; apply app_nil_r | apply sublist_nil_l ].
  - exists []. split; [ symmetry; apply app_nil_r | apply sublist_nil_l ].
Qed.

Lemma sublist_chain {A} (l1 l2 l3 : list A) (a b c : A) :
  l1 `sublist_of` [a] -> l2 `sublist_of` [b] -> l3 `sublist_of` [c] ->
  (l1 ++ l2 ++ l3) `sublist_of` [a; b; c].
Proof.
  intros H1 H2 H3.
  apply (sublist_app l1 [a] (l2 ++ l3) [b; c]); [ exact H1 | ].
  apply (sublist_app l2 [b] l3 [c]); assumption.
Qed.

(** The requests of [try_alternative_sources] are a part of the chain, in
    the order of the chain. *)
Lemma try_alternative_sources_order (w : world) (d : dict) (s : fetcher) :
  exists l, log (snd (try_alternative_sources w d s)) = log s ++ l /\
            l `sublist_of` chain_requests d.
Proof.
  destruct (try_arxiv_log w d s) as (l1 & E1 & S1).
  unfold try_alternative_sources, try_except, or_else. unfold bind at 1.
  destruct (try_arxiv w d s) as [[[ v | ] | ] s1]; simpl in E1.
  - exists (l1 ++ [] ++ []). split; [ simpl; rewrite !app_nil_r; exact E1 | ].
    apply sublist_chain; [ exact S1 | apply sublist_nil_l .. ].
  - destruct (try_unpaywall_log w d s1) as (l2 & E2 & S2). unfold bind at 1.
    destruct (try_unpaywall w d s1) as [[[ v | ] | ] s2]; simpl in E2.
    + exists (l1 ++ l2 ++ []). split.
      * simpl. rewrite app_nil_r, E2, E1, app_assoc. reflexivity.
      * apply sublist_chain; [ exact S1 | exact S2 | apply sublist_nil_l ].
    + destruct (try_core_log w d s2) as (l3 & E3 & S3). unfold bind at 1.
      assert (Hlog : log s2 ++ l3 = log s ++ l1 ++ l2 ++ l3)
        by (rewrite E2, E1, <- !app_assoc; reflexivity).
      exists (l1 ++ l2 ++ l3). split; [ | apply sublist_chain; assumption ].
      destruct (try_core w d s2) as [[[ v | ] | ] s3]; simpl in *; congruence.
    + exists (l1 ++ l2 ++ []). split.
      * simpl. rewrite app_nil_r, E2, E1, app_assoc. reflexivity.
      * apply sublist_chain; [ exact S1 | exact S2 | apply sublist_nil_l ].
  - exists (l1 ++ [] ++ []). split; [ simpl; rewrite !app_nil_r; exact E1 | ].
    apply sublist_chain; [ exact S1 | apply sublist_nil_l .. ].
Qed.

Lemma resolve_open_access (w : world) (d : dict) (s : fetcher) :
  truthy (open_access_url d) = true ->
  resolve_pdf_url w d s = (Ok (open_access_url d), s).
Proof.
  unfold open_access_url, resolve_pdf_url, bind, lift, attr_get. intros H.
  destruct (get d "openAccessPdf") as [ | | | | | oa ]; try discriminate.
  assert (Hoa : truthy (JObj oa) = true).
  { destruct oa; [ discriminate | reflexivity ]. }
  rewrite Hoa, H. reflexivity.
Qed.

(** C6: when the metadata carries an open-access URL, [download_pdf]
    resolves to that URL without any request, whatever identifiers the
    paper has, and goes on to download from it.  The providers of the
    fallback chain are asked only when there is no such URL, and in the
    order arXiv, Unpaywall, CORE. *)
Theorem open_access_url_has_priority
    (w : world) (ex : response -> dict -> result string) (d : dict) (s : fetcher) :
  (truthy (open_access_url d) = true ->
   resolve_pdf_url w d s = (Ok (open_access_url d), s) /\
   download_pdf w ex d s
   = try_except (save_pdf w ex d (open_access_url d)) (ret (DownloadError, d)) s) /\
  (exists l, log (snd (resolve_pdf_url w d s)) = log s ++ l /\
             l `sublist_of` chain_requests d /\
             (truthy (open_access_url d) = true -> l = [])).
Proof.
  split.
  - intros H. split; [ apply resolve_open_access; exact H | ].
    unfold download_pdf, try_except. unfold bind at 1.
    rewrite (resolve_open_access w d s H), H. reflexivity.
  - destruct (truthy (open_access_url d)) eqn:Hoa.
    + rewrite (resolve_open_access w d s Hoa). exists []. simpl.
      split; [ symmetry; apply app_nil_r | ].
      split; [ apply sublist_nil_l | reflexivity ].
    + assert (H : exists l, log (snd (resolve_pdf_url w d s)) = log s ++ l /\
                            l `sublist_of` chain_requests d).
      { unfold resolve_pdf_url, bind at 1.
        destruct (truthy (get d "openAccessPdf")).
        - unfold lift. destruct (attr_get _ _) as [ u | ].
          + destruct (truthy u); simpl.
            * exists []. split; [ symmetry; apply app_nil_r | apply sublist_nil_l ].
            * apply try_alternative_sources_order.
          + exists []. split; [ symmetry; apply app_nil_r | apply sublist_nil_l ].
        - simpl. apply try_alternative_sources_order. }
      destruct H as (l & Hl & Hsub). exists l.
      split; [ exact Hl | ]. split; [ exact Hsub | discriminate ].
Qed.

Lemma open_access_url_has_priority_witness :
  resolve_pdf_url world_arxiv_404 paper_open_access (new_fetcher "papers" [])
  = (Ok (JStr "https://host/oa.pdf"), new_fetcher "papers" []).
Proof.
  apply (open_access_url_has_priority world_arxiv_404 title_filename
           paper_open_access (new_fetcher "papers" [])).
  reflexivity.
Defined.






(** ** The crawler: each paper at most once (C1) *)

Lemma fetch_ids_io (l : list event) : Forall io_event l -> fetch_ids l = [].
Proof.
  induction 1 as [ | e l He _ IH ]; [ reflexivity | ].
  destruct e; simpl in He; try contradiction; exact IH.
Qed.

Lemma download_ids_io (l : list event) : Forall io_event l -> download_ids l = [].
Proof.
  induction 1 as [ | e l He _ IH ]; [ reflexivity | ].
  destruct e; simpl in He; try contradiction; exact IH.
Qed.

Lemma extends_fetch_ids (s s' : fetcher) :
  extends s s' -> fetch_ids (log s') = fetch_ids (log s).
Proof.
  intros (_ & _ & l & -> & Hio). unfold fetch_ids. rewrite omap_app.
  change (omap fetch_id l) with (fetch_ids l).
  rewrite (fetch_ids_io l Hio). apply app_nil_r.
Qed.

Lemma extends_download_ids (s s' : fetcher) :
  extends s s' -> download_ids (log s') = download_ids (log s).
Proof.
  intros (_ & _ & l & -> & Hio). unfold download_ids. rewrite omap_app.
  change (omap download_id l) with (download_ids l).
  rewrite (download_ids_io l Hio). apply app_nil_r.
Qed.

Lemma extends_log (s s' : fetcher) (e : event) :
  extends s s' -> e ∈ log s -> e ∈ log s'.
Proof. intros (_ & _ & l & -> & _) H. apply elem_of_app. left. exact H. Qed.

(** Replacing the task at [i] changes the identifiers in flight by that
    task's alone; tasks added at the end add theirs. *)
Lemma omap_insert {A B} (f : A -> option B) (l : list A) (i : nat) (x : A) :
  l !! i = Some x ->
  exists rest,
    omap f l ≡ₚ option_list (f x) ++ rest /\
    forall y k, omap f (<[i := y]> l ++ k) ≡ₚ option_list (f y) ++ rest ++ omap f k.
Proof.
  intros Hi. exists (omap f (take i l) ++ omap f (drop (S i) l)).
  assert (Hlen : (i < length l)%nat) by (eapply lookup_lt_Some; exact Hi).
  split.
  - rewrite <- (take_drop_middle l i x Hi) at 1. rewrite omap_app. simpl.
    destruct (f x); simpl; [ | reflexivity ].
    symmetry. apply Permutation_middle.
  - intros y k. rewrite (insert_take_drop l i y Hlen), !omap_app. simpl.
    destruct (f y); simpl.
    + rewrite <- !app_assoc. simpl. symmetry. apply Permutation_middle.
    + rewrite <- !app_assoc. reflexivity.
Qed.

Lemma elem_of_insert_inv {A} (l : list A) (i : nat) (x y : A) :
  x ∈ <[i := y]> l -> x = y \/ x ∈ l.
Proof.
  intros (j & Hj)%list_elem_of_lookup_1.
  apply list_lookup_insert_Some in Hj as [ (_ & -> & _) | (_ & Hj) ]; [ auto | ].
  right. eapply list_elem_of_lookup_2. exact Hj.
Qed.

Lemma elem_of_insert_app {A} (l k : list A) (i : nat) (x y : A) :
  x ∈ <[i := y]> l ++ k -> x = y \/ x ∈ l \/ x ∈ k.
Proof.
  intros [H | H]%elem_of_app; [ | auto ].
  apply elem_of_insert_inv in H as [ | ]; auto.
Qed.

Lemma make_record_id out paper_id d r :
  make_record out paper_id d = Ok r -> rec_id r = paper_id.
Proof.
  unfold make_record. destruct (py_iter _); [ | discriminate ].
  destruct (map_result _ _); [ | discriminate ].
  destruct (get_or d "saved_filename" _); try discriminate.
  intros [= <-]. reflexivity.
Qed.

Lemma collect_results (p : list task) (children : list nat) rs r :
  collect (map (fun j => p !! j) children) = Some rs ->
  r ∈ rs -> exists t, t ∈ p /\ r ∈ results_of t.
Proof.
  revert rs. induction children as [ | j js IH ]; simpl; intros rs.
  - intros [= <-] H. inversion H.
  - destruct (p !! j) as [ t | ] eqn:Hj; simpl; [ | discriminate ].
    destruct t; simpl; try discriminate.
    destruct (collect _) as [ rs' | ]; [ | discriminate ].
    intros [= <-] [H | H]%elem_of_app.
    + eexists. split; [ eapply list_elem_of_lookup_2; exact Hj | exact H ].
    + eapply IH; [ reflexivity | exact H ].
Qed.

Lemma omap_insert_nil {A B} (f : A -> option B) (l : list A) (i : nat) (x : A) :
  l !! i = Some x ->
  exists rest,
    omap f l ≡ₚ option_list (f x) ++ rest /\
    (forall y, omap f (<[i := y]> l) ≡ₚ option_list (f y) ++ rest) /\
    (forall y k, omap f (<[i := y]> l ++ k) ≡ₚ option_list (f y) ++ rest ++ omap f k).
Proof.
  intros Hi. destruct (omap_insert f l i x Hi) as (rest & H1 & H2).
  exists rest. split; [ exact H1 | ]. split; [ | exact H2 ].
  intros y. specialize (H2 y []). rewrite !app_nil_r in H2. exact H2.
Qed.

Lemma inv_enter (c : crawl) (i : nat) paper_id depth t s' :
  crawl_inv c ->
  pool c !! i = Some (Start paper_id depth) ->
  enter paper_id depth (self c) = (t, s') ->
  crawl_inv {| self := s'; pool := <[i := t]> (pool c) |}.
Proof.
  intros [If Im Id Ifd Ih Ir] Hi He.
  destruct (omap_insert_nil fetching_id _ _ _ Hi) as (rf & Hf & Hf' & _).
  destruct (omap_insert_nil downloading_id _ _ _ Hi) as (rd & Hd & Hd' & _).
  unfold fetching, downloading in *. simpl in Hf, Hd.
  assert (If' : NoDup (rf ++ fetch_ids (log (self c)))) by (rewrite <- Hf; exact If).
  assert (Im' : forall v, v ∈ rf ++ fetch_ids (log (self c)) ->
                          v ∈ visited_papers (self c))
    by (intros v Hv; apply Im; rewrite Hf; exact Hv).
  assert (Id' : NoDup (rd ++ download_ids (log (self c)))) by (rewrite <- Hd; exact Id).
  assert (Ifd' : forall v, v ∈ rd ++ download_ids (log (self c)) ->
                           v ∈ fetch_ids (log (self c)))
    by (intros v Hv; apply Ifd; rewrite Hd; exact Hv).
  clear If Im Id Ifd.
  unfold enter in He.
  destruct (hashable paper_id) eqn:Hh; simpl in He.
  - destruct (set_mem paper_id (visited_papers (self c)) || (depth <? 0)) eqn:Hv;
      injection He as <- <-.
    + constructor; unfold fetching, downloading; simpl;
        try setoid_rewrite Hf'; try setoid_rewrite Hd'; simpl; try assumption.
      intros t r [-> | Ht]%elem_of_insert_inv Hr; [ inversion Hr | eauto ].
    + apply orb_false_iff in Hv as [Hv _].
      apply set_mem_false_not_In in Hv. rewrite <- list_elem_of_In in Hv.
      constructor; unfold fetching, downloading; simpl;
        try setoid_rewrite Hf'; try setoid_rewrite Hd'; simpl; try assumption.
      * apply NoDup_cons. split; [ | exact If' ]. intros H. apply Hv, Im', H.
      * intros v [-> | H]%elem_of_cons; [ left | right; apply Im', H ].
      * intros v [-> | H]%elem_of_cons; [ exact Hh | apply Ih, H ].
      * intros t r [-> | Ht]%elem_of_insert_inv Hr; [ inversion Hr | eauto ].
  - injection He as <- <-.
    constructor; unfold fetching, downloading; simpl;
      try setoid_rewrite Hf'; try setoid_rewrite Hd'; simpl; try assumption.
    intros t r [-> | Ht]%elem_of_insert_inv Hr; [ inversion Hr | eauto ].
Qed.

Lemma fetch_ids_emit (e : event) (s : fetcher) :
  fetch_ids (log (emit e s)) = fetch_ids (log s) ++ option_list (fetch_id e).
Proof.
  unfold fetch_ids. simpl. rewrite omap_app. simpl.
  destruct (fetch_id e); reflexivity.
Qed.

Lemma download_ids_emit (e : event) (s : fetcher) :
  download_ids (log (emit e s)) = download_ids (log s) ++ option_list (download_id e).
Proof.
  unfold download_ids. simpl. rewrite omap_app. simpl.
  destruct (download_id e); reflexivity.
Qed.

Lemma perm_snoc {A} (x : A) (l k : list A) : l ++ k ++ [x] ≡ₚ x :: l ++ k.
Proof. rewrite app_assoc. symmetry. apply Permutation_cons_append. Qed.

Lemma inv_fetched_step (w : world) (c : crawl) (i : nat) paper_id depth t s' :
  crawl_inv c ->
  pool c !! i = Some (Fetching paper_id depth) ->
  fetched w paper_id depth (self c) = (t, s') ->
  crawl_inv {| self := s'; pool := <[i := t]> (pool c) |}.
Proof.
  intros [If Im Id Ifd Ih Ir] Hi He.
  destruct (omap_insert_nil fetching_id _ _ _ Hi) as (rf & Hf & Hf' & _).
  destruct (omap_insert_nil downloading_id _ _ _ Hi) as (rd & Hd & Hd' & _).
  unfold fetching, downloading in *. simpl in Hf, Hd.
  assert (If' : NoDup (paper_id :: rf ++ fetch_ids (log (self c))))
    by (rewrite Hf in If; exact If).
  assert (Im' : forall v, v ∈ paper_id :: rf ++ fetch_ids (log (self c)) ->
                          v ∈ visited_papers (self c)).
  { intros v Hv. apply Im. rewrite Hf. exact Hv. }
  assert (Id' : NoDup (rd ++ download_ids (log (self c)))) by (rewrite <- Hd; exact Id).
  assert (Ifd' : forall v, v ∈ rd ++ download_ids (log (self c)) ->
                           v ∈ fetch_ids (log (self c)))
    by (intros v Hv; apply Ifd; rewrite Hd; exact Hv).
  clear If Im Id Ifd.
  unfold fetched in He.
  pose proof (quiet_fetch_paper_details w paper_id retries_default (self c)) as Hq.
  destruct (fetch_paper_details w paper_id retries_default (self c)) as [[ data | ] s1];
    simpl in Hq; injection He as <- <-;
    pose proof (extends_fetch_ids _ _ Hq) as EF;
    pose proof (extends_download_ids _ _ Hq) as ED;
    pose proof (fun e => extends_log _ _ e Hq) as EL;
    destruct Hq as (_ & EV & _).
  - set (t := match data with Some ((_ :: _) as d) => Downloading paper_id depth d
                         | _ => Returned [] end).
    assert (Ht1 : fetching_id t = None) by (subst t; destruct data as [[|]|]; reflexivity).
    assert (Ht2 : option_list (downloading_id t) = [paper_id] \/
                  option_list (downloading_id t) = [])
      by (subst t; destruct data as [[|]|]; auto).
    assert (Ht3 : results_of t = []) by (subst t; destruct data as [[|]|]; reflexivity).
    apply NoDup_cons in If' as [Hnew If'].
    constructor; unfold fetching, downloading; cbn [self pool];
      try setoid_rewrite Hf'; try setoid_rewrite Hd';
      rewrite ?fetch_ids_emit, ?download_ids_emit, ?EF, ?ED, ?Ht1; simpl;
      rewrite ?app_nil_r, ?EV.
    + rewrite perm_snoc. apply NoDup_cons. split; assumption.
    + intros v Hv. apply Im'. rewrite perm_snoc in Hv. exact Hv.
    + destruct Ht2 as [-> | ->]; simpl; [ | exact Id' ].
      apply NoDup_cons. split; [ | exact Id' ].
      intros H. apply Hnew, elem_of_app. right. apply Ifd', H.
    + intros v Hv. apply elem_of_app.
      destruct Ht2 as [E | E]; rewrite E in Hv; simpl in Hv.
      * apply elem_of_cons in Hv as [-> | Hv]; [ right; left | left; apply Ifd', Hv ].
      * left. apply Ifd', Hv.
    + exact Ih.
    + intros t' r [-> | Ht]%elem_of_insert_inv Hr.
      * rewrite Ht3 in Hr. inversion Hr.
      * apply elem_of_app. left. apply EL. eauto.
  - apply NoDup_cons in If' as [Hnew If'].
    constructor; unfold fetching, downloading; simpl;
      try setoid_rewrite Hf'; try setoid_rewrite Hd';
      rewrite ?EF, ?ED, ?EV; simpl.
    + exact If'.
    + intros v Hv. apply Im'. right. exact Hv.
    + exact Id'.
    + intros v Hv. apply Ifd', Hv.
    + exact Ih.
    + intros t' r [-> | Ht]%elem_of_insert_inv Hr; [ inversion Hr | ].
      apply EL. eauto.
Qed.

Lemma omap_starts {B} (f : task -> option B) (ids : list json) (depth : Z) :
  (forall v d, f (Start v d) = None) ->
  omap f (map (fun c => Start c depth) ids) = [].
Proof.
  intros Hf. induction ids as [ | v ids IH ]; [ reflexivity | ].
  simpl. rewrite Hf. exact IH.
Qed.

Lemma results_of_starts (ids : list json) (depth : Z) (t : task) :
  t ∈ map (fun c => Start c depth) ids -> results_of t = [].
Proof.
  induction ids as [ | v ids IH ]; simpl; intros H; [ inversion H | ].
  apply elem_of_cons in H as [-> | H]; [ reflexivity | apply IH, H ].
Qed.

Lemma after_download_spec out paper_id depth ok d results tasks :
  after_download out paper_id depth ok d = Ok (results, tasks) ->
  (exists ids, children_of d = Ok ids /\ tasks = map (fun c => Start c (depth - 1)) ids) /\
  (forall r, r ∈ results -> ok = true /\ rec_id r = paper_id).
Proof.
  unfold after_download. intros H.
  destruct ok.
  - destruct (make_record out paper_id d) as [ r | ] eqn:Hr; [ | discriminate ].
    destruct (children_of d) as [ ids | ]; [ | discriminate ].
    injection H as <- <-. split; [ eauto | ].
    intros r' [-> | H]%elem_of_cons; [ | inversion H ].
    split; [ reflexivity | eapply make_record_id; exact Hr ].
  - destruct (children_of d) as [ ids | ]; [ | discriminate ].
    injection H as <- <-. split; [ eauto | ].
    intros r H. inversion H.
Qed.

Lemma inv_download_gen (c : crawl) (i : nat) (old : task) paper_id
    (s'' : fetcher) (dl : list json) (t' : task) (k : list task) :
  crawl_inv c ->
  pool c !! i = Some old ->
  fetching_id old = None -> downloading_id old = Some paper_id ->
  visited_papers s'' = visited_papers (self c) ->
  fetch_ids (log s'') = fetch_ids (log (self c)) ->
  download_ids (log s'') = download_ids (log (self c)) ++ dl ->
  dl = [paper_id] \/ dl = [] ->
  (forall e, e ∈ log (self c) -> e ∈ log s'') ->
  fetching_id t' = None -> downloading_id t' = None ->
  (forall r, r ∈ results_of t' -> DownloadPdf (rec_id r) true ∈ log s'') ->
  omap fetching_id k = [] -> omap downloading_id k = [] ->
  (forall t, t ∈ k -> results_of t = []) ->
  crawl_inv {| self := s''; pool := <[i := t']> (pool c) ++ k |}.
Proof.
  intros [If Im Id Ifd Ih Ir] Hi Ho1 Ho2 EV EF ED Hdl EL Ht1 Ht2 Ht3 Hk1 Hk2 Hk3.
  destruct (omap_insert_nil fetching_id _ _ _ Hi) as (rf & Hf & _ & Hf').
  destruct (omap_insert_nil downloading_id _ _ _ Hi) as (rd & Hd & _ & Hd').
  unfold fetching, downloading in *. rewrite Ho1 in Hf. rewrite Ho2 in Hd.
  simpl in Hf, Hd.
  assert (If' : NoDup (rf ++ fetch_ids (log (self c)))) by (rewrite <- Hf; exact If).
  assert (Im' : forall v, v ∈ rf ++ fetch_ids (log (self c)) ->
                          v ∈ visited_papers (self c))
    by (intros v Hv; apply Im; rewrite Hf; exact Hv).
  assert (Id' : NoDup (paper_id :: rd ++ download_ids (log (self c))))
    by (rewrite Hd in Id; exact Id).
  assert (Ifd' : forall v, v ∈ paper_id :: rd ++ download_ids (log (self c)) ->
                           v ∈ fetch_ids (log (self c))).
  { intros v Hv. apply Ifd. rewrite Hd. exact Hv. }
  clear If Im Id Ifd.
  constructor; unfold fetching, downloading; cbn [self pool];
    try setoid_rewrite Hf'; try setoid_rewrite Hd';
    rewrite ?EF, ?ED, ?EV, ?Ht1, ?Ht2, ?Hk1, ?Hk2; simpl; rewrite ?app_nil_r.
  - exact If'.
  - exact Im'.
  - destruct Hdl as [-> | ->].
    + rewrite perm_snoc. exact Id'.
    + rewrite app_nil_r. apply NoDup_cons in Id' as [_ Id']. exact Id'.
  - intros v Hv. apply Ifd'. destruct Hdl as [-> | ->].
    + rewrite perm_snoc in Hv. exact Hv.
    + rewrite app_nil_r in Hv. right. exact Hv.
  - exact Ih.
  - intros t r [-> | [Ht | Ht]]%elem_of_insert_app Hr.
    + apply Ht3, Hr.
    + apply EL. eauto.
    + rewrite (Hk3 _ Ht) in Hr. inversion Hr.
Qed.

(** A task replaced by one that is in the same call, with no record yet. *)
Lemma inv_opening (c : crawl) (i : nat) (old new : task) (s' : fetcher) :
  crawl_inv c -> pool c !! i = Some old ->
  fetching_id new = fetching_id old -> downloading_id new = downloading_id old ->
  results_of new = [] -> extends (self c) s' ->
  crawl_inv {| self := s'; pool := <[i := new]> (pool c) |}.
Proof.
  intros [If Im Id Ifd Ih Ir] Hi E1 E2 E3 Hq.
  destruct (omap_insert_nil fetching_id _ _ _ Hi) as (rf & Hf & Hf' & _).
  destruct (omap_insert_nil downloading_id _ _ _ Hi) as (rd & Hd & Hd' & _).
  pose proof (extends_fetch_ids _ _ Hq) as EF.
  pose proof (extends_download_ids _ _ Hq) as ED.
  pose proof (fun e => extends_log _ _ e Hq) as EL.
  destruct Hq as (_ & EV & _).
  unfold fetching, downloading in *.
  constructor; unfold fetching, downloading; cbn [self pool];
    try setoid_rewrite Hf'; try setoid_rewrite Hd'; rewrite ?E1, ?E2, ?EF, ?ED, ?EV.
  - rewrite <- Hf. exact If.
  - intros v Hv. apply Im. rewrite Hf. exact Hv.
  - rewrite <- Hd. exact Id.
  - intros v Hv. apply Ifd. rewrite Hd. exact Hv.
  - exact Ih.
  - intros t r [-> | Ht]%elem_of_insert_inv Hr.
    + rewrite E3 in Hr. inversion Hr.
    + apply EL. eauto.
Qed.

Lemma inv_downloaded_step (c : crawl) (i : nat) (old : task) paper_id depth
    (r : result (outcome * dict) * fetcher) :
  crawl_inv c ->
  pool c !! i = Some old ->
  fetching_id old = None -> downloading_id old = Some paper_id ->
  extends (self c) (snd r) ->
  crawl_inv (downloaded i paper_id depth r c).
Proof.
  intros Inv Hi Ho1 Ho2 Hq. unfold downloaded.
  destruct r as [[ [o data'] | ] s1]; simpl in Hq;
    pose proof (extends_fetch_ids _ _ Hq) as EF;
    pose proof (extends_download_ids _ _ Hq) as ED;
    pose proof (fun e => extends_log _ _ e Hq) as EL;
    destruct Hq as (_ & EV & _).
  - set (s'' := emit (DownloadPdf paper_id (succeeded o)) s1).
    assert (EF' : fetch_ids (log s'') = fetch_ids (log (self c)))
      by (subst s''; rewrite fetch_ids_emit, EF; apply app_nil_r).
    assert (ED' : download_ids (log s'') = download_ids (log (self c)) ++ [paper_id])
      by (subst s''; rewrite download_ids_emit, ED; reflexivity).
    assert (EL' : forall e, e ∈ log (self c) -> e ∈ log s'')
      by (intros e He; apply elem_of_app; left; apply EL, He).
    assert (Hrec : forall results tasks,
               after_download (output_dir s'') paper_id depth (succeeded o) data'
               = Ok (results, tasks) ->
               forall r, r ∈ results -> DownloadPdf (rec_id r) true ∈ log s'').
    { intros results tasks Ha r Hr.
      apply after_download_spec in Ha as [_ Ha]. destruct (Ha r Hr) as [E1 E2].
      subst s''. simpl. rewrite E1, E2. apply elem_of_app. right. left. }
    destruct (after_download _ _ _ _ _) as [ [results tasks] | ] eqn:Ha.
    + pose proof (Hrec _ _ eq_refl) as Hrec'.
      apply after_download_spec in Ha as [(ids & _ & Htasks) _].
      destruct tasks as [ | t0 tasks ].
      * rewrite <- (app_nil_r (<[i := _]> _)).
        eapply inv_download_gen; eauto; try reflexivity. intros t Ht. inversion Ht.
      * eapply inv_download_gen; eauto; try reflexivity.
        -- rewrite Htasks. apply omap_starts. reflexivity.
        -- rewrite Htasks. apply omap_starts. reflexivity.
        -- rewrite Htasks. apply results_of_starts.
    + rewrite <- (app_nil_r (<[i := _]> _)).
      eapply inv_download_gen; eauto; try reflexivity.
      * intros r Hr. inversion Hr.
      * intros t Ht. inversion Ht.
  - rewrite <- (app_nil_r (<[i := _]> _)).
    eapply (inv_download_gen c i old paper_id s1 []); eauto; try reflexivity.
    + rewrite ED. symmetry. apply app_nil_r.
    + intros r Hr. inversion Hr.
    + intros t Ht. inversion Ht.
Qed.

Lemma inv_download_started (w : world) ex (c : crawl) (i : nat) paper_id depth data :
  crawl_inv c ->
  pool c !! i = Some (Downloading paper_id depth data) ->
  crawl_inv (download_started w ex i paper_id depth data c).
Proof.
  intros Inv Hi. unfold download_started.
  pose proof (quiet_download_pdf_begin w ex data (self c)) as Hq.
  destruct (download_pdf_begin w ex data (self c)) as [[ [o data' | fp] | ] s1];
    simpl in Hq.
  - apply (inv_downloaded_step c i _ paper_id depth (Ok (o, data'), s1) Inv Hi);
      [ reflexivity | reflexivity | exact Hq ].
  - apply (inv_opening c i _ _ s1 Inv Hi); [ reflexivity .. | exact Hq ].
  - apply (inv_downloaded_step c i _ paper_id depth (Raised, s1) Inv Hi);
      [ reflexivity | reflexivity | exact Hq ].
Qed.

Lemma inv_gather_step (c : crawl) (i : nat) results children t' :
  crawl_inv c ->
  pool c !! i = Some (Gathering results children) ->
  fetching_id t' = None -> downloading_id t' = None ->
  (forall r, r ∈ results_of t' ->
             r ∈ results \/ exists t, t ∈ pool c /\ r ∈ results_of t) ->
  crawl_inv (set_task i t' c).
Proof.
  intros [If Im Id Ifd Ih Ir] Hi Ht1 Ht2 Ht3.
  destruct (omap_insert_nil fetching_id _ _ _ Hi) as (rf & Hf & Hf' & _).
  destruct (omap_insert_nil downloading_id _ _ _ Hi) as (rd & Hd & Hd' & _).
  unfold fetching, downloading in *. simpl in Hf, Hd.
  constructor; unfold fetching, downloading; cbn [self pool set_task];
    try setoid_rewrite Hf'; try setoid_rewrite Hd'; rewrite ?Ht1, ?Ht2; simpl.
  - rewrite <- Hf. exact If.
  - intros v Hv. apply Im. rewrite Hf. exact Hv.
  - rewrite <- Hd. exact Id.
  - intros v Hv. apply Ifd. rewrite Hd. exact Hv.
  - exact Ih.
  - intros t r [-> | Ht]%elem_of_insert_inv Hr; [ | eauto ].
    destruct (Ht3 r Hr) as [ H | (t & Ht & H) ]; [ | eauto ].
    eapply Ir; [ eapply list_elem_of_lookup_2; exact Hi | exact H ].
Qed.

(** Every turn of the event loop keeps the invariant. *)
Lemma step_inv (w : world) ex (i : nat) (c c' : crawl) :
  crawl_inv c -> step w ex i c = Some c' -> crawl_inv c'.
Proof.
  intros Inv Hs. unfold step in Hs.
  destruct (pool c !! i) as [ t | ] eqn:Hi; [ | discriminate ].
  destruct t as [ v d | v d | v d data | v d data fp | results children | | ];
    try discriminate.
  - destruct (enter v d (self c)) as [t s'] eqn:He. injection Hs as <-.
    eapply inv_enter; eassumption.
  - destruct (fetched w v d (self c)) as [t s'] eqn:He. injection Hs as <-.
    eapply inv_fetched_step; eassumption.
  - injection Hs as <-. apply inv_download_started; assumption.
  - injection Hs as <-.
    apply (inv_downloaded_step c i _ v d _ Inv Hi); [ reflexivity | reflexivity | ].
    apply quiet_download_pdf_end.
  - unfold gather in Hs. destruct (existsb _ _).
    + injection Hs as <-. eapply inv_gather_step; eauto.
      intros r Hr. inversion Hr.
    + destruct (collect _) as [ rs | ] eqn:Hc; [ | discriminate ].
      injection Hs as <-. eapply inv_gather_step; eauto.
      intros r [Hr | Hr]%elem_of_app; [ auto | ].
      right. eapply collect_results; eassumption.
Qed.

Lemma run_inv (w : world) ex (sched : list nat) (c : crawl) :
  crawl_inv c -> crawl_inv (run w ex sched c).
Proof.
  revert c. induction sched as [ | i sched IH ]; intros c Inv; simpl; [ exact Inv | ].
  apply IH. destruct (step w ex i c) as [ c' | ] eqn:Hs; [ | exact Inv ].
  eapply step_inv; eassumption.
Qed.

Lemma process_paper_inv (out : string) (fs : list string) root depth :
  crawl_inv (process_paper (new_fetcher out fs) root depth).
Proof.
  constructor; simpl.
  - constructor.
  - intros v H. inversion H.
  - constructor.
  - intros v H. inversion H.
  - intros v H. inversion H.
  - intros t r [-> | H]%elem_of_cons Hr; [ inversion Hr | inversion H ].
Qed.

Lemma save_pdf_data (w : world) ex (d : dict) (u : json) (s : fetcher) o d' s' :
  save_pdf w ex d u s = (Ok (o, d'), s') ->
  (o = Downloaded /\ exists name, d' = dict_set d "saved_filename" (JStr name)) \/
  (succeeded o = false /\ d' = d).
Proof.
  unfold save_pdf, bind at 1.
  destruct (session_get_value w u s) as [[ r | ] s1]; [ | discriminate ].
  destruct (status r =? 200).
  - unfold bind at 1, lift. destruct (ex r d) as [ filename | ]; [ | discriminate ].
    unfold bind. destruct (write_file w _ s1) as [[ [] | ] s2]; [ | discriminate ].
    intros [= <- <- <-]. left. eauto.
  - intros [= <- <- <-]. right. split; reflexivity.
Qed.

(** [download_pdf] hands back [paper_data] as it was, or with the saved
    file name added after a successful download. *)
Lemma download_pdf_data (w : world) ex (d : dict) (s : fetcher) o d' s' :
  download_pdf w ex d s = (Ok (o, d'), s') ->
  (o = Downloaded /\ exists name, d' = dict_set d "saved_filename" (JStr name)) \/
  (succeeded o = false /\ d' = d).
Proof.
  unfold download_pdf, try_except. unfold bind at 1.
  destruct (resolve_pdf_url w d s) as [[ u | ] s1].
  - destruct (negb (truthy u)).
    + intros [= <- <- <-]. right. split; reflexivity.
    + destruct (save_pdf w ex d u s1) as [[ [o1 d1] | ] s2] eqn:Hs.
      * intros [= <- <- <-]. eapply save_pdf_data. exact Hs.
      * intros [= <- <- <-]. right. split; reflexivity.
  - intros [= <- <- <-]. right. split; reflexivity.
Qed.


(** Before the file is opened, [download_pdf] returns only to report a
    failure, with [paper_data] as it was. *)
Lemma download_pdf_begin_reported (w : world) ex (d : dict) (s : fetcher) o d' s' :
  download_pdf_begin w ex d s = (Ok (Reported o d'), s') ->
  succeeded o = false /\ d' = d.
Proof.
  unfold download_pdf_begin, try_except. unfold bind at 1.
  destruct (resolve_pdf_url w d s) as [[ u | ] s1];
    [ | intros [= <- <- <-]; split; reflexivity ].
  destruct (negb (truthy u)); [ intros [= <- <- <-]; split; reflexivity | ].
  unfold choose_path. unfold bind at 1.
  destruct (session_get_value w u s1) as [[ r | ] s2];
    [ | intros [= <- <- <-]; split; reflexivity ].
  destruct (status r =? 200); [ | intros [= <- <- <-]; split; reflexivity ].
  unfold bind, lift. destruct (ex r d) as [ filename | ]; [ discriminate | ].
  intros [= <- <- <-]. split; reflexivity.
Qed.

Lemma download_pdf_begin_total (w : world) ex (d : dict) (s : fetcher) :
  exists st s', download_pdf_begin w ex d s = (Ok st, s').
Proof.
  unfold download_pdf_begin, try_except.
  destruct (bind _ _ s) as [[ st | ] s']; eexists _, _; reflexivity.
Qed.

(** What the second half does, by the answer of the disk. *)
Lemma download_pdf_end_cases (w : world) (d : dict) (p : string) (s : fetcher) :
  download_pdf_end w d p s
  = match io w (length (log s)) p with
    | IoOk => (Ok (Downloaded, dict_set d "saved_filename" (JStr (basename p))),
               add_file p (emit (Create p) s))
    | OpenError => (Ok (DownloadError, d), s)
    | WriteError => (Ok (DownloadError, d), add_file p (emit (Create p) s))
    end.
Proof.
  unfold download_pdf_end, try_except, bind, write_file.
  destruct (io w (length (log s)) p); reflexivity.
Qed.





(** C1: in every run of a crawl, under every schedule and whatever the
    network answers, [fetch_paper_details] and [download_pdf] are each
    called at most once per paper identifier.  An identifier is in the
    visited set before its fetch begins, and a later [process_paper] on a
    visited identifier returns the empty list and leaves the state as it
    is, without a fetch or a download. *)
Theorem each_paper_at_most_once
    (w : world) (ex : response -> dict -> result string)
    (out : string) (fs : list string) (root : json) (depth : Z) (sched : list nat) :
  let c := run w ex sched (process_paper (new_fetcher out fs) root depth) in
  NoDup (fetch_ids (log (self c))) /\
  NoDup (download_ids (log (self c))) /\
  (forall v, v ∈ fetching (pool c) ++ fetch_ids (log (self c)) ->
             v ∈ visited_papers (self c)) /\
  (forall v d, v ∈ visited_papers (self c) ->
               enter v d (self c) = (Returned [], self c)).
Proof.
  intros c.
  destruct (run_inv w ex sched _ (process_paper_inv out fs root depth))
    as [If Im Id Ifd Ih Ir].
  fold c in If, Im, Id, Ifd, Ih, Ir.
  split; [ apply NoDup_app in If as (_ & _ & If); exact If | ].
  split; [ apply NoDup_app in Id as (_ & _ & Id); exact Id | ].
  split; [ exact Im | ].
  intros v d Hv. unfold enter. rewrite (Ih v Hv). simpl.
  rewrite set_mem_In by (apply list_elem_of_In; exact Hv). reflexivity.
Qed.

(** ** The crawler: skipped calls and failed downloads (C9, C8) *)

(** C9: a call of [process_paper] on a visited identifier, or with a
    negative depth, returns the empty list and changes nothing: the
    fetcher's state is the same, and in particular a negative depth does
    not mark the identifier, which a later call with a depth of at least 0
    then marks and fetches. *)
Theorem skipped_call_changes_nothing
    (w : world) (ex : response -> dict -> result string)
    (c : crawl) (i : nat) (paper_id : json) (depth : Z) :
  pool c !! i = Some (Start paper_id depth) ->
  hashable paper_id = true ->
  set_mem paper_id (visited_papers (self c)) = true \/ depth < 0 ->
  step w ex i c = Some {| self := self c; pool := <[i := Returned []]> (pool c) |} /\
  (set_mem paper_id (visited_papers (self c)) = false ->
   forall depth', 0 <= depth' ->
     enter paper_id depth' (self c)
     = (Fetching paper_id depth', add_visited paper_id (self c))).
Proof.
  intros Hi Hh Hskip. split.
  - unfold step. rewrite Hi. unfold enter. rewrite Hh. simpl.
    replace (set_mem paper_id (visited_papers (self c)) || (depth <? 0)) with true.
    + reflexivity.
    + symmetry. apply orb_true_iff.
      destruct Hskip as [ H | H ]; [ left; exact H | right; apply Z.ltb_lt; exact H ].
  - intros Hv depth' Hd. unfold enter. rewrite Hh, Hv. simpl.
    replace (depth' <? 0) with false by (symmetry; apply Z.ltb_ge; exact Hd).
    reflexivity.
Qed.

Lemma skipped_call_changes_nothing_witness :
  step world_arxiv_404 title_filename 1 crawl_with_child
  = Some {| self := self crawl_with_child;
            pool := [Gathering [] [1%nat]; Returned []] |} /\
  enter (JStr "A") 0 (self crawl_with_child)
  = (Fetching (JStr "A") 0, add_visited (JStr "A") (self crawl_with_child)).
Proof.
  destruct (skipped_call_changes_nothing world_arxiv_404 title_filename
              crawl_with_child 1 (JStr "A") (-1) eq_refl eq_refl
              (or_intror eq_refl)) as [H1 H2].
  split; [ exact H1 | ].
  apply H2; [ reflexivity | discriminate ].
Defined.



(** ** Concurrent callers of the rate limiter (C4) *)

(** C4: the root's request is issued at [t0]; its two children reach
    [wait_for_rate_limit] half a second later, while both permits are
    free.  Each reads the same [last_request_time], sleeps until
    [t0 + 2000] and issues its request then: two admitted requests start
    at the same time, not 2 seconds apart. *)
Lemma concurrent_callers_start_together :
  let l := RateLimiter.simulate 20
             (RateLimiter.init [(1700000000000, 300);
                                (1700000000500, 300);
                                (1700000000500, 300)]) in
  RateLimiter.start_times l = [1700000000000; 1700000002000; 1700000002000] /\
  ~ RateLimiter.spaced (RateLimiter.start_times l).
Proof.
  intros l.
  assert (H : RateLimiter.start_times l
              = [1700000000000; 1700000002000; 1700000002000])
    by (vm_compute; reflexivity).
  split; [ exact H | ].
  rewrite H. intros Hs.
  specialize (Hs 1%nat 2%nat 1700000002000 1700000002000).
  unfold request_interval in Hs. simpl in Hs.
  specialize (Hs ltac:(lia) eq_refl eq_refl). lia.
Qed.

(** ** The crawler: the depth bound (C5) *)






Lemma dict_lookup_set_ne (d : dict) (k k' : string) (v : json) :
  k <> k' -> dict_lookup (dict_set d k v) k' = dict_lookup d k'.
Proof.
  intros Hne. induction d as [ | [k0 v0] d IH ]; simpl.
  - destruct (String.eqb k k') eqn:E; [ | reflexivity ].
    apply String.eqb_eq in E. contradiction.
  - destruct (String.eqb k0 k) eqn:E0; simpl.
    + apply String.eqb_eq in E0. subst k0.
      destruct (String.eqb k k') eqn:E; [ | reflexivity ].
      apply String.eqb_eq in E. contradiction.
    + rewrite IH. reflexivity.
Qed.

Lemma children_of_saved (d : dict) (v : json) :
  children_of (dict_set d "saved_filename" v) = children_of d.
Proof.
  unfold children_of, connected_papers, extend_with, get.
  rewrite !dict_lookup_set_ne by discriminate. reflexivity.
Qed.

Lemma download_pdf_children (w : world) ex (d : dict) (s : fetcher) o d' s' :
  download_pdf w ex d s = (Ok (o, d'), s') -> children_of d' = children_of d.
Proof.
  intros H. destruct (download_pdf_data _ _ _ _ _ _ _ H) as [ [_ [name ->]] | [_ ->] ].
  - apply children_of_saved.
  - reflexivity.
Qed.










(** ** The downloader: the choice of the path *)

Lemma str_of_Z_inj (a b : Z) : str_of_Z a = str_of_Z b -> a = b.
Proof.
  unfold str_of_Z. intros H.
  assert (Hi : Some (Z.to_int a) = Some (Z.to_int b))
    by (rewrite <- !NilEmpty.isi, H; reflexivity).
  injection Hi as Hi. rewrite <- (DecimalZ.of_to a), <- (DecimalZ.of_to b), Hi.
  reflexivity.
Qed.

Lemma append_cons (c : ascii) (a b : string) :
  String c a +:+ b = String c (a +:+ b).
Proof. reflexivity. Qed.

Lemma append_length (a b : string) :
  String.length (a +:+ b) = (String.length a + String.length b)%nat.
Proof.
  induction a as [ | c a IH ]; [ reflexivity | ].
  rewrite append_cons. simpl. rewrite IH. reflexivity.
Qed.

Lemma append_nil_r (a : string) : a +:+ "" = a.
Proof.
  induction a as [ | c a IH ]; [ reflexivity | ].
  rewrite append_cons, IH. reflexivity.
Qed.

Lemma append_inv_head (a b c : string) : a +:+ b = a +:+ c -> b = c.
Proof.
  induction a as [ | x a IH ]; [ auto | ].
  rewrite !append_cons. intros [= H]. auto.
Qed.

Lemma append_inv_tail (a b e : string) : a +:+ e = b +:+ e -> a = b.
Proof.
  revert b. induction a as [ | x a IH ]; intros [ | y b ] H.
  - reflexivity.
  - apply (f_equal String.length) in H. rewrite !append_length in H. simpl in H. lia.
  - apply (f_equal String.length) in H. rewrite !append_length in H. simpl in H. lia.
  - rewrite !append_cons in H. injection H as -> H. f_equal. apply IH, H.
Qed.

Lemma candidate_inj (base ext : string) (a b : Z) :
  candidate base ext a = candidate base ext b -> a = b.
Proof.
  unfold candidate. intros H.
  apply append_inv_head, append_inv_head, append_inv_tail in H.
  apply str_of_Z_inj, H.
Qed.

Lemma candidate_not_plain (base ext : string) (a : Z) :
  candidate base ext a <> base +:+ ext.
Proof.
  unfold candidate. intros H. apply append_inv_head in H.
  apply (f_equal String.length) in H. rewrite !append_length in H. simpl in H. lia.
Qed.

Lemma str_take_drop (n : nat) (p : string) : str_take n p +:+ str_drop n p = p.
Proof.
  revert p. induction n as [ | n IH ]; intros [ | c p ]; simpl; try reflexivity.
  rewrite append_cons, IH. reflexivity.
Qed.

(** [splitext] splits: the two parts make up the path. *)
Lemma splitext_append (p : string) : fst (splitext p) +:+ snd (splitext p) = p.
Proof.
  unfold splitext. destruct (rfind "/" p <? rfind "." p).
  - destruct (all_dots _); simpl; [ apply append_nil_r | apply str_take_drop ].
  - apply append_nil_r.
Qed.

Lemma path_exists_elem (fs : list string) (p : string) :
  path_exists fs p = true <-> p ∈ fs.
Proof.
  unfold path_exists. rewrite existsb_exists. split.
  - intros (x & Hx & E). apply String.eqb_eq in E. subst x.
    apply list_elem_of_In, Hx.
  - intros H. exists p. split; [ apply list_elem_of_In, H | apply String.eqb_refl ].
Qed.

Lemma path_exists_not (fs : list string) (p : string) :
  path_exists fs p = false <-> p ∉ fs.
Proof.
  rewrite <- path_exists_elem. destruct (path_exists fs p); split; congruence.
Qed.

(** The loop ends on a free path: among the paths that exist, each
    candidate tried is new, and there are only [length fs] of them. *)
Lemma adjust_filename_free_gen (fs : list string) (base ext : string) :
  forall (fuel : nat) (counter : Z) (fp : string) (seen : list string),
    NoDup seen -> (forall x, x ∈ seen -> x ∈ fs) ->
    fp ∉ seen ->
    (forall j, counter <= j -> candidate base ext j ∉ seen) ->
    (forall j, counter <= j -> candidate base ext j <> fp) ->
    (length fs <= fuel + length seen)%nat ->
    adjust_filename fuel fs base ext counter fp ∉ fs.
Proof.
  induction fuel as [ | fuel IH ]; intros counter fp seen Hnd Hin Hfp Hc Hne Hlen;
    simpl; destruct (path_exists fs fp) eqn:Hex;
    try (apply path_exists_not; exact Hex).
  - apply path_exists_elem in Hex.
    assert (Hsub : fp :: seen ⊆+ fs).
    { apply NoDup_submseteq.
      - apply NoDup_cons. split; assumption.
      - intros x [-> | H]%elem_of_cons; auto. }
    apply submseteq_length in Hsub. simpl in Hsub. lia.
  - apply path_exists_elem in Hex.
    apply (IH (counter + 1) (candidate base ext counter) (fp :: seen)).
    + apply NoDup_cons. split; assumption.
    + intros x [-> | H]%elem_of_cons; auto.
    + intros [H | H]%elem_of_cons.
      * apply (Hne counter); [ lia | exact H ].
      * apply (Hc counter); [ lia | exact H ].
    + intros j Hj [H | H]%elem_of_cons.
      * apply (Hne j); [ lia | exact H ].
      * apply (Hc j); [ lia | exact H ].
    + intros j Hj H. apply candidate_inj in H. lia.
    + simpl. lia.
Qed.

Lemma target_path_free (fs : list string) (out filename : string) :
  target_path fs out filename ∉ fs.
Proof.
  unfold target_path.
  pose proof (splitext_append (path_join out filename)) as Hsplit.
  destruct (splitext (path_join out filename)) as [base ext]. simpl in Hsplit.
  apply (adjust_filename_free_gen fs base ext _ 1 _ []).
  - constructor.
  - intros x H. inversion H.
  - intros H. inversion H.
  - intros j _ H. inversion H.
  - intros j _. rewrite <- Hsplit. apply candidate_not_plain.
  - simpl. lia.
Qed.

(** With the path and the candidates up to [k - 1] taken, the loop stops
    at candidate [k]. *)
Lemma adjust_filename_suffix (fs : list string) (base ext : string) :
  forall (k fuel : nat) (counter : Z) (fp : string),
    fp ∈ fs ->
    (forall j, counter <= j < counter + Z.of_nat k -> candidate base ext j ∈ fs) ->
    candidate base ext (counter + Z.of_nat k) ∉ fs ->
    (k < fuel)%nat ->
    adjust_filename fuel fs base ext counter fp
    = candidate base ext (counter + Z.of_nat k).
Proof.
  induction k as [ | k IH ]; intros fuel counter fp Hfp Hc Hfree Hfuel;
    (destruct fuel as [ | fuel ]; [ lia | ]); simpl;
    rewrite (proj2 (path_exists_elem fs fp) Hfp).
  - rewrite Z.add_0_r in *. destruct fuel; simpl;
      rewrite (proj2 (path_exists_not fs _) Hfree); reflexivity.
  - replace (counter + Z.of_nat (S k)) with ((counter + 1) + Z.of_nat k) in * by lia.
    apply IH.
    + apply Hc. lia.
    + intros j Hj. apply Hc. lia.
    + exact Hfree.
    + lia.
Qed.

Lemma taken_length (fs : list string) (base ext : string) (k : nat) :
  base +:+ ext ∈ fs ->
  (forall j, 1 <= j < 1 + Z.of_nat k -> candidate base ext j ∈ fs) ->
  (k < length fs)%nat.
Proof.
  intros Hfp Hc.
  set (cand := fun j : nat => candidate base ext (Z.of_nat j)).
  assert (Hsub : (base +:+ ext) :: (cand <$> seq 1 k) ⊆+ fs).
  { apply NoDup_submseteq.
    - apply NoDup_cons. split.
      + intros (j & Hj & _)%list_elem_of_fmap.
        symmetry in Hj. revert Hj. apply candidate_not_plain.
      + apply NoDup_fmap_2; [ | apply NoDup_seq ].
        intros a b H. apply candidate_inj in H. lia.
    - intros x [-> | (j & -> & Hj)%list_elem_of_fmap]%elem_of_cons; [ exact Hfp | ].
      apply elem_of_seq in Hj. apply Hc. lia. }
  apply submseteq_length in Hsub. simpl in Hsub. rewrite length_fmap, length_seq in Hsub.
  lia.
Qed.

Lemma keeps_files_bind {A B} (m : prog A) (k : A -> prog B) :
  keeps_files m -> (forall a, keeps_files (k a)) -> keeps_files (bind m k).
Proof.
  intros Hm Hk s. unfold bind. specialize (Hm s).
  destruct (m s) as [[ a | ] s']; simpl in *; [ | exact Hm ].
  rewrite Hk. exact Hm.
Qed.

Lemma keeps_files_try_except {A} (m h : prog A) :
  keeps_files m -> keeps_files h -> keeps_files (try_except m h).
Proof.
  intros Hm Hh s. unfold try_except. specialize (Hm s).
  destruct (m s) as [[ a | ] s']; simpl in *; [ exact Hm | ].
  rewrite Hh. exact Hm.
Qed.

Lemma keeps_files_silent {A} (m : prog A) : silent m -> keeps_files m.
Proof. intros H s. rewrite H. reflexivity. Qed.

Lemma keeps_files_session_get (w : world) (u : string) : keeps_files (session_get w u).
Proof.
  intros s. unfold session_get. destruct (http w (requests (log s)) u); reflexivity.
Qed.

Ltac keeps_files_step :=
  match goal with
  | |- keeps_files (bind _ _) => apply keeps_files_bind; [ | intros ? ]
  | |- keeps_files (try_except _ _) => apply keeps_files_try_except
  | |- keeps_files (session_get _ _) => apply keeps_files_session_get
  | |- keeps_files (if ?b then _ else _) => destruct b
  | |- keeps_files (match ?x with _ => _ end) => destruct x
  | |- keeps_files _ => apply keeps_files_silent; solve [ repeat silent_step ]
  end.

Lemma keeps_files_resolve_pdf_url (w : world) (d : dict) :
  keeps_files (resolve_pdf_url w d).
Proof.
  unfold resolve_pdf_url, try_alternative_sources, or_else,
    try_arxiv, try_unpaywall, try_core, external_id.
  repeat keeps_files_step.
Qed.

Lemma keeps_files_session_get_value (w : world) (u : json) :
  keeps_files (session_get_value w u).
Proof. unfold session_get_value. repeat keeps_files_step. Qed.

(** [download_pdf] creates at most one file, at a path that did not
    exist. *)
Lemma download_pdf_files_eq (w : world) ex (d : dict) (s : fetcher) r s' :
  download_pdf w ex d s = (r, s') ->
  files s' = files s \/ exists p, files s' = p :: files s /\ p ∉ files s.
Proof.
  unfold download_pdf, try_except. unfold bind at 1.
  pose proof (keeps_files_resolve_pdf_url w d s) as H1.
  destruct (resolve_pdf_url w d s) as [[ u | ] s1]; simpl in H1;
    [ | intros [= <- <-]; left; exact H1 ].
  destruct (negb (truthy u)); [ intros [= <- <-]; left; exact H1 | ].
  unfold save_pdf. unfold bind at 1.
  pose proof (keeps_files_session_get_value w u s1) as H2.
  destruct (session_get_value w u s1) as [[ resp | ] s2]; simpl in H2;
    [ | intros [= <- <-]; left; congruence ].
  destruct (status resp =? 200); [ | intros [= <- <-]; left; congruence ].
  unfold bind at 1, lift.
  destruct (ex resp d) as [ filename | ]; [ | intros [= <- <-]; left; congruence ].
  unfold bind, write_file.
  pose proof (target_path_free (files s2) (output_dir s2) filename) as Hfree.
  rewrite H2, H1 in Hfree.
  destruct (io w _ _); intros [= <- <-]; simpl.
  - right. eexists. split; [ rewrite H2, H1; reflexivity | exact Hfree ].
  - left. congruence.
  - right. eexists. split; [ rewrite H2, H1; reflexivity | exact Hfree ].
Qed.

Lemma download_pdf_files (w : world) ex (d : dict) (s : fetcher) :
  let s' := snd (download_pdf w ex d s) in
  files s' = files s \/ exists p, files s' = p :: files s /\ p ∉ files s.
Proof.
  intros s'. apply (download_pdf_files_eq w ex d s (fst (download_pdf w ex d s))).
  subst s'. destruct (download_pdf w ex d s); reflexivity.
Qed.

(** ** Scenarios of the specification, run on the model *)

(** Scenario A: depth 0 and an open-access PDF that downloads: one record,
    saved under the output directory. *)
Example scenario_A :
  let c := run world_scenario_A title_filename [0; 0; 0; 0]%nat
             (process_paper (new_fetcher "papers" []) (JStr "R") 0) in
  pool c = [Returned [{| rec_id := JStr "R"; rec_title := JStr "R";
                        rec_authors := [JStr "Ada"]; rec_year := JNum 2020;
                        rec_url := JStr "http://s2/R";
                        rec_filename := JStr "R.pdf";
                        rec_pdf_path := "papers/R.pdf" |}]] /\
  files (self c) = ["papers/R.pdf"].
Proof. split; vm_compute; reflexivity. Qed.

(** Scenario B: [A] is listed twice by the root and fetched once; three
    papers are visited. *)
Example scenario_B :
  let c := run world_scenario_B title_filename [0; 0; 0; 1; 2; 3; 1; 3; 1; 3; 0]%nat
             (process_paper (new_fetcher "papers" []) (JStr "R") 1) in
  fetch_ids (log (self c)) = [JStr "R"; JStr "A"; JStr "B"] /\
  visited_papers (self c) = [JStr "B"; JStr "A"; JStr "R"] /\
  pool c = [Returned []; Returned []; Returned []; Returned []].
Proof. repeat split; vm_compute; reflexivity. Qed.

(** A caller that is alone in [wait_for_rate_limit] does start two seconds
    after the previous request. *)
Example single_caller_waits :
  RateLimiter.start_times
    (RateLimiter.simulate 20
       (RateLimiter.init [(1700000000000, 300); (1700000000500, 300)]))
  = [1700000000000; 1700000002000].
Proof. vm_compute. reflexivity. Qed.

(** * Further properties *)

(** ** [fetch_paper_details]: every way an attempt can end *)

Lemma requested_app (l l' : list event) :
  requested (l ++ l') = requested l ++ requested l'.
Proof. apply omap_app. Qed.

Lemma retry_waits_app (l l' : list event) :
  retry_waits (l ++ l') = retry_waits l ++ retry_waits l'.
Proof. apply omap_app. Qed.

(** [wait_for_rate_limit] never raises and issues no request. *)
Lemma wait_for_rate_limit_frame (w : world) (s : fetcher) :
  exists s', wait_for_rate_limit w s = (Ok tt, s') /\
             requests (log s') = requests (log s) /\
             requested (log s') = requested (log s) /\
             backoffs (log s') = backoffs (log s) /\
             retry_waits (log s') = retry_waits (log s).
Proof.
  unfold wait_for_rate_limit, bind, time_time, sleep.
  destruct (rate_limit_delay _ _) as [ d | ]; simpl; eexists;
    (split; [ reflexivity | ]); simpl.
  - rewrite requests_app, requested_app, backoffs_app, retry_waits_app. simpl.
    rewrite !app_nil_r. repeat split. lia.
  - repeat split.
Qed.

(** One attempt makes exactly one request, and ends according to the
    reply alone. *)
Lemma fetch_attempt_cases (w : world) (paper_id : json) (attempt : Z) (s : fetcher) :
  exists s1,
    wait_for_rate_limit w s = (Ok tt, s1) /\
    fetch_attempt w paper_id attempt s
    = match http w (requests (log s)) (metadata_url paper_id) with
      | ConnectionError => (Raised, emit (Get (metadata_url paper_id)) s1)
      | Reply r =>
          if status r =? 200 then
            match json_body r with
            | Some (JObj d) =>
                (Ok (Return (Some d)), emit (Get (metadata_url paper_id)) s1)
            | _ => (Raised, emit (Get (metadata_url paper_id)) s1)
            end
          else if status r =? 429 then
            (Ok Continue,
             emit (Sleep Backoff (seconds (5 * (attempt + 1))))
               (emit (Get (metadata_url paper_id)) s1))
          else (Ok (Return None), emit (Get (metadata_url paper_id)) s1)
      end.
Proof.
  destruct (wait_for_rate_limit_frame w s) as (s1 & Hw & Hreq & _).
  exists s1. split; [ exact Hw | ].
  unfold fetch_attempt, bind at 1. rewrite Hw.
  unfold bind at 1, session_get. rewrite Hreq.
  destruct (http w (requests (log s)) (metadata_url paper_id)) as [ r | ];
    [ | reflexivity ].
  destruct (status r =? 200).
  - unfold bind, response_json, lift, as_dict, ret, raise.
    destruct (json_body r) as [ [ | | | | | d ] | ]; reflexivity.
  - destruct (status r =? 429); reflexivity.
Qed.

Lemma requests_emit_sleep site ms (s : fetcher) :
  requests (log (emit (Sleep site ms) s)) = requests (log s).
Proof. simpl. rewrite requests_app. simpl. lia. Qed.

(** The traffic of a state: what the lemmas on the loops keep track of. *)
Lemma traffic_emit_get (u : string) (s : fetcher) :
  requested (log (emit (Get u) s)) = requested (log s) ++ [u] /\
  backoffs (log (emit (Get u) s)) = backoffs (log s) /\
  retry_waits (log (emit (Get u) s)) = retry_waits (log s).
Proof.
  simpl. rewrite requested_app, backoffs_app, retry_waits_app. simpl.
  rewrite !app_nil_r. repeat split.
Qed.

Lemma traffic_emit_sleep site ms (s : fetcher) :
  requested (log (emit (Sleep site ms) s)) = requested (log s) /\
  backoffs (log (emit (Sleep site ms) s))
  = backoffs (log s) ++ match site with Backoff => [ms] | _ => [] end /\
  retry_waits (log (emit (Sleep site ms) s))
  = retry_waits (log s) ++ match site with Retry => [ms] | _ => [] end.
Proof.
  simpl. rewrite requested_app, backoffs_app, retry_waits_app. simpl.
  rewrite !app_nil_r. destruct site; repeat split.
Qed.

(** One turn of the loop of [fetch_paper_details], by the reply. *)
Lemma fetch_loop_step (w : world) (paper_id : json) (retries : Z) (todo : nat)
    (attempt : Z) (s : fetcher) :
  exists s1,
    wait_for_rate_limit w s = (Ok tt, s1) /\
    fetch_loop w paper_id retries (S todo) attempt s
    = let got := emit (Get (metadata_url paper_id)) s1 in
      let on_error :=
        if attempt <? retries - 1
        then fetch_loop w paper_id retries todo (attempt + 1)
               (emit (Sleep Retry (seconds 1)) got)
        else (Ok None, got) in
      match http w (requests (log s)) (metadata_url paper_id) with
      | ConnectionError => on_error
      | Reply r =>
          if status r =? 200 then
            match json_body r with
            | Some (JObj d) => (Ok (Some d), got)
            | _ => on_error
            end
          else if status r =? 429 then
            fetch_loop w paper_id retries todo (attempt + 1)
              (emit (Sleep Backoff (seconds (5 * (attempt + 1)))) got)
          else (Ok None, got)
      end.
Proof.
  destruct (fetch_attempt_cases w paper_id attempt s) as (s1 & Hw & Ha).
  exists s1. split; [ exact Hw | ].
  simpl. unfold bind at 1, try_except. rewrite Ha.
  destruct (http w (requests (log s)) (metadata_url paper_id)) as [ r | ].
  - destruct (status r =? 200).
    + destruct (json_body r) as [ [ | | | | | d ] | ];
        try reflexivity; destruct (attempt <? retries - 1); reflexivity.
    + destruct (status r =? 429); reflexivity.
  - destruct (attempt <? retries - 1); reflexivity.
Qed.

Lemma attempt_fails_reply (w : world) (n : nat) (u : string) (A : Type)
    (on_error other : A) (ok : dict -> A) (limited : A) :
  attempt_fails w n u ->
  match http w n u with
  | ConnectionError => on_error
  | Reply r =>
      if status r =? 200 then
        match json_body r with
        | Some (JObj d) => ok d
        | _ => on_error
        end
      else if status r =? 429 then limited
      else other
  end = on_error.
Proof.
  intros [ -> | (r & -> & -> & Hb) ]; [ reflexivity | ]. simpl.
  destruct Hb as [ -> | (v & -> & Hv) ]; [ reflexivity | ].
  destruct v; simpl in Hv; try reflexivity. discriminate.
Qed.

(** X1: a status other than 200 and 429 ends the fetch at once: one
    request, no wait, [None]. *)
Theorem fetch_status_not_retried
    (w : world) (paper_id : json) (retries : Z) (s : fetcher) (r : response) :
  0 < retries ->
  http w (requests (log s)) (metadata_url paper_id) = Reply r ->
  status r <> 200 -> status r <> 429 ->
  exists s', fetch_paper_details w paper_id retries s = (Ok None, s') /\
             requested (log s') = requested (log s) ++ [metadata_url paper_id] /\
             backoffs (log s') = backoffs (log s) /\
             retry_waits (log s') = retry_waits (log s).
Proof.
  intros Hr Hh H200 H429. unfold fetch_paper_details.
  destruct (Z.to_nat retries) as [ | todo ] eqn:Hn; [ lia | ].
  destruct (fetch_loop_step w paper_id retries todo 0 s) as (s1 & Hw & ->).
  cbv zeta. rewrite Hh.
  apply Z.eqb_neq in H200, H429. rewrite H200, H429.
  eexists. split; [ reflexivity | ].
  destruct (wait_for_rate_limit_frame w s) as (s1' & Hw' & _ & Hq & Hb & Ht).
  rewrite Hw in Hw'. injection Hw' as <-.
  destruct (traffic_emit_get (metadata_url paper_id) s1) as (E1 & E2 & E3).
  rewrite E1, E2, E3, Hq, Hb, Ht. repeat split.
Qed.

Lemma fetch_status_not_retried_witness :
  exists s', fetch_paper_details world_arxiv_404 (JStr "R") 3 (new_fetcher "papers" [])
             = (Ok None, s') /\
             requested (log s') = [metadata_url (JStr "R")].
Proof.
  destruct (fetch_status_not_retried world_arxiv_404 (JStr "R") 3
              (new_fetcher "papers" [])
              {| status := 404; json_body := None; headers := []; url := "" |})
    as (s' & H1 & H2 & _).
  - lia.
  - reflexivity.
  - discriminate.
  - discriminate.
  - exists s'. split; [ exact H1 | exact H2 ].
Defined.

(** The state after the request of one turn, and after the wait that may
    follow it. *)
Lemma turn_traffic (w : world) (u : string) (s s1 : fetcher) :
  wait_for_rate_limit w s = (Ok tt, s1) ->
  let got := emit (Get u) s1 in
  requests (log got) = S (requests (log s)) /\
  requested (log got) = requested (log s) ++ [u] /\
  backoffs (log got) = backoffs (log s) /\
  retry_waits (log got) = retry_waits (log s) /\
  forall site ms,
    let slept := emit (Sleep site ms) got in
    requests (log slept) = S (requests (log s)) /\
    requested (log slept) = requested (log s) ++ [u] /\
    backoffs (log slept)
    = backoffs (log s) ++ match site with Backoff => [ms] | _ => [] end /\
    retry_waits (log slept)
    = retry_waits (log s) ++ match site with Retry => [ms] | _ => [] end.
Proof.
  intros Hw got.
  destruct (wait_for_rate_limit_frame w s) as (s1' & Hw' & Hn & Hq & Hb & Ht).
  rewrite Hw in Hw'. injection Hw' as <-.
  destruct (traffic_emit_get u s1) as (E1 & E2 & E3).
  assert (En : requests (log got) = S (requests (log s)))
    by (subst got; rewrite requests_emit_get, Hn; reflexivity).
  split; [ exact En | ].
  split; [ subst got; rewrite E1, Hq; reflexivity | ].
  split; [ subst got; rewrite E2, Hb; reflexivity | ].
  split; [ subst got; rewrite E3, Ht; reflexivity | ].
  intros site ms slept.
  destruct (traffic_emit_sleep site ms got) as (F1 & F2 & F3).
  split; [ subst slept; rewrite requests_emit_sleep; exact En | ].
  subst slept got. rewrite F1, F2, F3, E1, E2, E3, Hq, Hb, Ht. repeat split.
Qed.

Lemma fetch_loop_all_fail (w : world) (paper_id : json) (retries : Z) :
  forall (todo : nat) (attempt : Z) (s : fetcher),
    retries = attempt + Z.of_nat todo ->
    (forall k, (k < todo)%nat ->
               attempt_fails w (requests (log s) + k) (metadata_url paper_id)) ->
    exists s',
      fetch_loop w paper_id retries todo attempt s = (Ok None, s') /\
      requested (log s') = requested (log s) ++ replicate todo (metadata_url paper_id) /\
      retry_waits (log s') = retry_waits (log s) ++ replicate (todo - 1) 1000 /\
      backoffs (log s') = backoffs (log s).
Proof.
  induction todo as [ | todo IH ]; intros attempt s Hr Hf.
  - exists s. simpl. rewrite !app_nil_r. repeat split.
  - destruct (fetch_loop_step w paper_id retries todo attempt s) as (s1 & Hw & ->).
    cbv zeta.
    rewrite attempt_fails_reply
      by (specialize (Hf 0%nat ltac:(lia)); rewrite Nat.add_0_r in Hf; exact Hf).
    destruct (turn_traffic w (metadata_url paper_id) s s1 Hw)
      as (En & Eq & Eb & Et & Hslept).
    destruct (Nat.eq_dec todo 0%nat) as [ -> | Hne ].
    + replace (attempt <? retries - 1) with false by (symmetry; apply Z.ltb_ge; lia).
      eexists. split; [ reflexivity | ].
      rewrite Eq, Eb, Et. simpl. rewrite app_nil_r. repeat split.
    + replace (attempt <? retries - 1) with true by (symmetry; apply Z.ltb_lt; lia).
      destruct (Hslept Retry (seconds 1)) as (Fn & Fq & Fb & Ft).
      destruct (IH (attempt + 1)
                  (emit (Sleep Retry (seconds 1))
                     (emit (Get (metadata_url paper_id)) s1)) ltac:(lia))
        as (s' & H1 & H2 & H3 & H4).
      { intros k Hk. rewrite Fn.
        replace (S (requests (log s)) + k)%nat with (requests (log s) + S k)%nat by lia.
        apply Hf. lia. }
      exists s'. split; [ exact H1 | ].
      rewrite H2, H3, H4, Fq, Fb, Ft, <- !app_assoc.
      replace (S todo - 1)%nat with (S (todo - 1)) by lia.
      repeat split. apply app_nil_r.
Qed.

Lemma fetch_loop_recovers (w : world) (paper_id : json) (retries : Z) (d : dict) :
  forall (j todo : nat) (attempt : Z) (s : fetcher),
    (j < todo)%nat ->
    retries = attempt + Z.of_nat todo ->
    (forall k, (k < j)%nat ->
               attempt_fails w (requests (log s) + k) (metadata_url paper_id)) ->
    answers w (requests (log s) + j) (metadata_url paper_id) (JObj d) ->
    exists s',
      fetch_loop w paper_id retries todo attempt s = (Ok (Some d), s') /\
      requested (log s')
      = requested (log s) ++ replicate (S j) (metadata_url paper_id) /\
      retry_waits (log s') = retry_waits (log s) ++ replicate j 1000 /\
      backoffs (log s') = backoffs (log s).
Proof.
  induction j as [ | j IH ]; intros todo attempt s Hj Hr Hf Ha;
    (destruct todo as [ | todo ]; [ lia | ]);
    destruct (fetch_loop_step w paper_id retries todo attempt s) as (s1 & Hw & ->);
    cbv zeta;
    destruct (turn_traffic w (metadata_url paper_id) s s1 Hw)
      as (En & Eq & Eb & Et & Hslept).
  - rewrite Nat.add_0_r in Ha. destruct Ha as (r & -> & -> & ->). simpl.
    eexists. split; [ reflexivity | ].
    rewrite Eq, Eb, Et. simpl. rewrite app_nil_r. repeat split.
  - rewrite attempt_fails_reply
      by (specialize (Hf 0%nat ltac:(lia)); rewrite Nat.add_0_r in Hf; exact Hf).
    replace (attempt <? retries - 1) with true by (symmetry; apply Z.ltb_lt; lia).
    destruct (Hslept Retry (seconds 1)) as (Fn & Fq & Fb & Ft).
    destruct (IH todo (attempt + 1)
                (emit (Sleep Retry (seconds 1))
                   (emit (Get (metadata_url paper_id)) s1)) ltac:(lia) ltac:(lia))
      as (s' & H1 & H2 & H3 & H4).
    { intros k Hk. rewrite Fn.
      replace (S (requests (log s)) + k)%nat with (requests (log s) + S k)%nat by lia.
      apply Hf. lia. }
    { rewrite Fn.
      replace (S (requests (log s)) + j)%nat with (requests (log s) + S j)%nat by lia.
      exact Ha. }
    exists s'. split; [ exact H1 | ].
    rewrite H2, H3, H4, Fq, Fb, Ft, <- !app_assoc.
    repeat split. apply app_nil_r.
Qed.

(** X2: an attempt that ends in an exception (the transport fails, or the
    200 reply is not a JSON dictionary) is retried after one second, as
    long as attempts are left.  When all [retries] attempts fail the result
    is [None], with a wait between the attempts and none after the last;
    when an attempt succeeds after [j] failures the metadata is returned. *)
Theorem fetch_exceptions_retried
    (w : world) (paper_id : json) (retries : nat) (s : fetcher) :
  let u := metadata_url paper_id in
  let n := requests (log s) in
  ((forall k, (k < retries)%nat -> attempt_fails w (n + k) u) ->
   exists s', fetch_paper_details w paper_id (Z.of_nat retries) s = (Ok None, s') /\
              requested (log s') = requested (log s) ++ replicate retries u /\
              retry_waits (log s') = retry_waits (log s) ++ replicate (retries - 1) 1000 /\
              backoffs (log s') = backoffs (log s)) /\
  (forall (j : nat) (d : dict),
     (j < retries)%nat ->
     (forall k, (k < j)%nat -> attempt_fails w (n + k) u) ->
     answers w (n + j) u (JObj d) ->
     exists s', fetch_paper_details w paper_id (Z.of_nat retries) s = (Ok (Some d), s') /\
                requested (log s') = requested (log s) ++ replicate (S j) u /\
                retry_waits (log s') = retry_waits (log s) ++ replicate j 1000 /\
                backoffs (log s') = backoffs (log s)).
Proof.
  intros u n. unfold fetch_paper_details. rewrite Nat2Z.id. split.
  - intros Hf. apply fetch_loop_all_fail; [ lia | exact Hf ].
  - intros j d Hj Hf Ha. apply fetch_loop_recovers; [ exact Hj | lia | exact Hf | exact Ha ].
Qed.

Lemma fetch_exceptions_retried_witness :
  (exists s', fetch_paper_details (world_flaky 3) (JStr "R") 3 (new_fetcher "papers" [])
              = (Ok None, s') /\
              retry_waits (log s') = [1000; 1000]) /\
  (exists s', fetch_paper_details (world_flaky 1) (JStr "R") 3 (new_fetcher "papers" [])
              = (Ok (Some [("title", JStr "T")]), s') /\
              retry_waits (log s') = [1000]).
Proof.
  split.
  - destruct (fetch_exceptions_retried (world_flaky 3) (JStr "R") 3
                (new_fetcher "papers" [])) as [H _].
    destruct H as (s' & H1 & _ & H3 & _).
    + intros k Hk. left. simpl.
      destruct k as [ | [ | [ | k ] ] ]; [ reflexivity .. | lia ].
    + exists s'. split; [ exact H1 | exact H3 ].
  - destruct (fetch_exceptions_retried (world_flaky 1) (JStr "R") 3
                (new_fetcher "papers" [])) as [_ H].
    destruct (H 1%nat [("title", JStr "T")]) as (s' & H1 & _ & H3 & _).
    + lia.
    + intros k Hk. left. simpl. destruct k; [ reflexivity | lia ].
    + eexists. repeat split; reflexivity.
    + exists s'. split; [ exact H1 | exact H3 ].
Defined.

(** Whatever the replies, the loop makes at most one request per turn, all
    to the paper's URL, and what it returns is the body of one of the
    replies. *)
Lemma fetch_loop_trace (w : world) (paper_id : json) (retries : Z) :
  forall (todo : nat) (attempt : Z) (s : fetcher),
  exists v s' (k : nat),
    fetch_loop w paper_id retries todo attempt s = (Ok v, s') /\
    (k <= todo)%nat /\
    requested (log s') = requested (log s) ++ replicate k (metadata_url paper_id) /\
    (forall d, v = Some d ->
               exists j, (j < k)%nat /\
                         answers w (requests (log s) + j) (metadata_url paper_id) (JObj d)).
Proof.
  induction todo as [ | todo IH ]; intros attempt s.
  - exists None, s, 0%nat. simpl. rewrite app_nil_r.
    repeat split; [ lia | discriminate ].
  - destruct (fetch_loop_step w paper_id retries todo attempt s) as (s1 & Hw & ->).
    cbv zeta.
    destruct (turn_traffic w (metadata_url paper_id) s s1 Hw)
      as (En & Eq & Eb & Et & Hslept).
    assert (Hstop : forall v : option dict,
               (forall d, v = Some d ->
                          answers w (requests (log s)) (metadata_url paper_id) (JObj d)) ->
               exists v' s' (k : nat),
                 (Ok v, emit (Get (metadata_url paper_id)) s1) = (Ok v', s') /\
                 (k <= S todo)%nat /\
                 requested (log s')
                 = requested (log s) ++ replicate k (metadata_url paper_id) /\
                 (forall d, v' = Some d ->
                    exists j, (j < k)%nat /\
                              answers w (requests (log s) + j)
                                (metadata_url paper_id) (JObj d))).
    { intros v Hv. exists v, (emit (Get (metadata_url paper_id)) s1), 1%nat.
      split; [ reflexivity | ]. split; [ lia | ]. split; [ exact Eq | ].
      intros d Hd. exists 0%nat. split; [ lia | ].
      rewrite Nat.add_0_r. apply Hv, Hd. }
    assert (Hgo : forall site ms,
               exists v' s' (k : nat),
                 fetch_loop w paper_id retries todo (attempt + 1)
                   (emit (Sleep site ms) (emit (Get (metadata_url paper_id)) s1))
                 = (Ok v', s') /\
                 (k <= S todo)%nat /\
                 requested (log s')
                 = requested (log s) ++ replicate k (metadata_url paper_id) /\
                 (forall d, v' = Some d ->
                    exists j, (j < k)%nat /\
                              answers w (requests (log s) + j)
                                (metadata_url paper_id) (JObj d))).
    { intros site ms. destruct (Hslept site ms) as (Fn & Fq & _).
      destruct (IH (attempt + 1)
                  (emit (Sleep site ms) (emit (Get (metadata_url paper_id)) s1)))
        as (v' & s' & k & H1 & H2 & H3 & H4).
      exists v', s', (S k). split; [ exact H1 | ]. split; [ lia | ].
      split; [ rewrite H3, Fq, <- app_assoc; reflexivity | ].
      intros d Hd. destruct (H4 d Hd) as (j & Hj & Ha). exists (S j).
      split; [ lia | ]. rewrite Fn in Ha.
      replace (requests (log s) + S j)%nat with (S (requests (log s)) + j)%nat by lia.
      exact Ha. }
    assert (Herr : exists v' s' (k : nat),
               (if attempt <? retries - 1
                then fetch_loop w paper_id retries todo (attempt + 1)
                       (emit (Sleep Retry (seconds 1))
                          (emit (Get (metadata_url paper_id)) s1))
                else (Ok None, emit (Get (metadata_url paper_id)) s1))
               = (Ok v', s') /\
               (k <= S todo)%nat /\
               requested (log s')
               = requested (log s) ++ replicate k (metadata_url paper_id) /\
               (forall d, v' = Some d ->
                  exists j, (j < k)%nat /\
                            answers w (requests (log s) + j)
                              (metadata_url paper_id) (JObj d))).
    { destruct (attempt <? retries - 1); [ apply Hgo | apply Hstop; discriminate ]. }
    destruct (http w (requests (log s)) (metadata_url paper_id)) as [ r | ] eqn:Hh;
      [ | exact Herr ].
    destruct (status r =? 200) eqn:H200.
    + destruct (json_body r) as [ [ | | | | | d ] | ] eqn:Hb; try exact Herr.
      apply Hstop. intros d' [= <-]. exists r.
      split; [ exact Hh | ]. split; [ apply Z.eqb_eq, H200 | exact Hb ].
    + destruct (status r =? 429); [ apply Hgo | apply Hstop; discriminate ].
Qed.

(** X3: for every behaviour of the network, [fetch_paper_details] never
    raises, makes at most [retries] requests, all of them for the paper
    asked for, and returns only metadata that one of these requests was
    answered with (status 200, a JSON dictionary).  With [retries <= 0] it
    makes no request at all. *)
Theorem fetch_paper_details_bounded
    (w : world) (paper_id : json) (retries : Z) (s : fetcher) :
  exists v s' (k : nat),
    fetch_paper_details w paper_id retries s = (Ok v, s') /\
    (k <= Z.to_nat retries)%nat /\
    requested (log s') = requested (log s) ++ replicate k (metadata_url paper_id) /\
    (forall d, v = Some d ->
               exists j, (j < k)%nat /\
                         answers w (requests (log s) + j) (metadata_url paper_id) (JObj d)) /\
    (retries <= 0 -> v = None /\ s' = s).
Proof.
  destruct (fetch_loop_trace w paper_id retries (Z.to_nat retries) 0 s)
    as (v & s' & k & H1 & H2 & H3 & H4).
  exists v, s', k. unfold fetch_paper_details.
  repeat (split; [ assumption | ]).
  intros Hr. replace (Z.to_nat retries) with 0%nat in H1 by lia.
  simpl in H1. injection H1 as <- <-. split; reflexivity.
Qed.

(** ** [search_papers] *)

(** One turn of the loop of [search_papers], by the reply. *)
Lemma search_loop_step (w : world) (todo : nat) (attempt retry_delay : Z) (s : fetcher) :
  exists s1,
    wait_for_rate_limit w s = (Ok tt, s1) /\
    search_loop w (S todo) attempt retry_delay s
    = let got := emit (Get search_url) s1 in
      let on_error :=
        if attempt <? max_retries - 1
        then search_loop w todo (attempt + 1) retry_delay
               (emit (Sleep Retry (seconds retry_delay)) got)
        else (Ok (JArr []), got) in
      match http w (requests (log s)) search_url with
      | ConnectionError => on_error
      | Reply r =>
          if status r =? 200 then
            match json_body r with
            | Some (JObj d) => (Ok (get_or d "data" (JArr [])), got)
            | _ => on_error
            end
          else if (status r =? 429) && (attempt <? max_retries - 1) then
            search_loop w todo (attempt + 1) (retry_delay * 2)
              (emit (Sleep Backoff (seconds retry_delay)) got)
          else (Ok (JArr []), got)
      end.
Proof.
  destruct (wait_for_rate_limit_frame w s) as (s1 & Hw & Hreq & _).
  exists s1. split; [ exact Hw | ].
  simpl. unfold bind at 1. rewrite Hw.
  unfold bind at 1, try_except, search_try. unfold bind at 1, session_get.
  rewrite Hreq.
  destruct (http w (requests (log s)) search_url) as [ r | ].
  - destruct (status r =? 200).
    + unfold bind, response_json, lift, as_dict, ret, raise.
      destruct (json_body r) as [ [ | | | | | d ] | ];
        try reflexivity; destruct (attempt <? max_retries - 1); reflexivity.
    + destruct ((status r =? 429) && (attempt <? max_retries - 1)); reflexivity.
  - destruct (attempt <? max_retries - 1); reflexivity.
Qed.

Lemma search_loop_trace (w : world) :
  forall (todo : nat) (attempt retry_delay : Z) (s : fetcher),
  exists v s' (k : nat),
    search_loop w todo attempt retry_delay s = (Ok v, s') /\
    (k <= todo)%nat /\
    requested (log s') = requested (log s) ++ replicate k search_url /\
    (v = JArr [] \/
     exists j d, (j < k)%nat /\
                 answers w (requests (log s) + j) search_url (JObj d) /\
                 v = get_or d "data" (JArr [])).
Proof.
  induction todo as [ | todo IH ]; intros attempt retry_delay s.
  - exists (JArr []), s, 0%nat. simpl. rewrite app_nil_r.
    repeat split; [ lia | left; reflexivity ].
  - destruct (search_loop_step w todo attempt retry_delay s) as (s1 & Hw & ->).
    cbv zeta.
    destruct (turn_traffic w search_url s s1 Hw) as (En & Eq & Eb & Et & Hslept).
    set (P := fun (res : result json * fetcher) =>
                exists v s' (k : nat),
                  res = (Ok v, s') /\ (k <= S todo)%nat /\
                  requested (log s') = requested (log s) ++ replicate k search_url /\
                  (v = JArr [] \/
                   exists j d, (j < k)%nat /\
                               answers w (requests (log s) + j) search_url (JObj d) /\
                               v = get_or d "data" (JArr []))).
    assert (Hstop : P (Ok (JArr []), emit (Get search_url) s1)).
    { exists (JArr []), (emit (Get search_url) s1), 1%nat.
      split; [ reflexivity | ]. split; [ lia | ]. split; [ exact Eq | left; reflexivity ]. }
    assert (Hgo : forall site ms delay,
               P (search_loop w todo (attempt + 1) delay
                    (emit (Sleep site ms) (emit (Get search_url) s1)))).
    { intros site ms delay. destruct (Hslept site ms) as (Fn & Fq & _).
      destruct (IH (attempt + 1) delay
                  (emit (Sleep site ms) (emit (Get search_url) s1)))
        as (v' & s' & k & H1 & H2 & H3 & H4).
      exists v', s', (S k). split; [ exact H1 | ]. split; [ lia | ].
      split; [ rewrite H3, Fq, <- app_assoc; reflexivity | ].
      destruct H4 as [ H4 | (j & d & Hj & Ha & Hv) ]; [ left; exact H4 | right ].
      exists (S j), d. split; [ lia | ]. split; [ | exact Hv ].
      rewrite Fn in Ha.
      replace (requests (log s) + S j)%nat with (S (requests (log s)) + j)%nat by lia.
      exact Ha. }
    assert (Herr : P (if attempt <? max_retries - 1
                      then search_loop w todo (attempt + 1) retry_delay
                             (emit (Sleep Retry (seconds retry_delay))
                                (emit (Get search_url) s1))
                      else (Ok (JArr []), emit (Get search_url) s1))).
    { destruct (attempt <? max_retries - 1); [ apply Hgo | exact Hstop ]. }
    match goal with
    | |- exists v s' k, ?X = (Ok v, s') /\ _ => change (P X)
    end.
    destruct (http w (requests (log s)) search_url) as [ r | ] eqn:Hh;
      [ | exact Herr ].
    destruct (status r =? 200) eqn:H200.
    + destruct (json_body r) as [ [ | | | | | d ] | ] eqn:Hb; try exact Herr.
      exists (get_or d "data" (JArr [])), (emit (Get search_url) s1), 1%nat.
      split; [ reflexivity | ]. split; [ lia | ]. split; [ exact Eq | right ].
      exists 0%nat, d. split; [ lia | ]. split; [ | reflexivity ].
      rewrite Nat.add_0_r. exists r.
      split; [ exact Hh | ]. split; [ apply Z.eqb_eq, H200 | exact Hb ].
    + destruct ((status r =? 429) && (attempt <? max_retries - 1));
        [ apply Hgo | exact Hstop ].
Qed.

(** X4: for every behaviour of the network, [search_papers] never raises
    and makes at most three requests, all to the search endpoint; it
    returns the empty list, or the [data] entry of a reply with status 200
    ([[]] when the reply has no such entry). *)
Theorem search_papers_bounded (w : world) (s : fetcher) :
  exists v s' (k : nat),
    search_papers w s = (Ok v, s') /\
    (k <= 3)%nat /\
    requested (log s') = requested (log s) ++ replicate k search_url /\
    (v = JArr [] \/
     exists j d, (j < k)%nat /\
                 answers w (requests (log s) + j) search_url (JObj d) /\
                 v = get_or d "data" (JArr [])).
Proof. apply (search_loop_trace w 3 0 5 s). Qed.

Lemma turn_traffic' (w : world) (u : string) (s s1 : fetcher) :
  wait_for_rate_limit w s = (Ok tt, s1) ->
  requests (log (emit (Get u) s1)) = S (requests (log s)) /\
  traffic (emit (Get u) s1) = more_traffic (traffic s) [u] [] [] /\
  forall site ms,
    requests (log (emit (Sleep site ms) (emit (Get u) s1))) = S (requests (log s)) /\
    traffic (emit (Sleep site ms) (emit (Get u) s1))
    = more_traffic (traffic s) [u]
        match site with Backoff => [ms] | _ => [] end
        match site with Retry => [ms] | _ => [] end.
Proof.
  intros Hw. destruct (turn_traffic w u s s1 Hw) as (En & Eq & Eb & Et & Hs).
  split; [ exact En | ]. unfold traffic, more_traffic. split.
  - rewrite Eq, Eb, Et, !app_nil_r. reflexivity.
  - intros site ms. destruct (Hs site ms) as (Fn & Fq & Fb & Ft).
    split; [ exact Fn | ]. rewrite Fq, Fb, Ft. reflexivity.
Qed.

Lemma more_traffic_assoc t us bs rs us' bs' rs' :
  more_traffic (more_traffic t us bs rs) us' bs' rs'
  = more_traffic t (us ++ us') (bs ++ bs') (rs ++ rs').
Proof. destruct t as [[q b] r]. simpl. rewrite <- !app_assoc. reflexivity. Qed.

Lemma status_is_reply (w : world) (n : nat) (u : string) (st : Z) (A : Type)
    (f : response -> A) (e : A) :
  status_is w n u st ->
  exists r, status r = st /\
            match http w n u with Reply r => f r | ConnectionError => e end = f r.
Proof. intros (r & -> & Hst). exists r. split; [ exact Hst | reflexivity ]. Qed.

(** The turns of [search_papers], one lemma for each way a turn ends. *)
Lemma search_turn_limited (w : world) (todo : nat) (attempt delay : Z) (s : fetcher) :
  attempt < max_retries - 1 ->
  status_is w (requests (log s)) search_url 429 ->
  exists s2,
    search_loop w (S todo) attempt delay s
    = search_loop w todo (attempt + 1) (delay * 2) s2 /\
    requests (log s2) = S (requests (log s)) /\
    traffic s2 = more_traffic (traffic s) [search_url] [seconds delay] [].
Proof.
  intros Ha (r & Hr & Hst).
  destruct (search_loop_step w todo attempt delay s) as (s1 & Hw & ->).
  cbv zeta. rewrite Hr, Hst. simpl.
  replace (attempt <? max_retries - 1) with true by (symmetry; apply Z.ltb_lt; exact Ha).
  eexists. split; [ reflexivity | ].
  apply (turn_traffic' w search_url s s1 Hw).
Qed.

Lemma search_turn_limited_last (w : world) (todo : nat) (attempt delay : Z) (s : fetcher) :
  max_retries - 1 <= attempt ->
  status_is w (requests (log s)) search_url 429 ->
  exists s2,
    search_loop w (S todo) attempt delay s = (Ok (JArr []), s2) /\
    traffic s2 = more_traffic (traffic s) [search_url] [] [].
Proof.
  intros Ha (r & Hr & Hst).
  destruct (search_loop_step w todo attempt delay s) as (s1 & Hw & ->).
  cbv zeta. rewrite Hr, Hst. simpl.
  replace (attempt <? max_retries - 1) with false by (symmetry; apply Z.ltb_ge; exact Ha).
  eexists. split; [ reflexivity | ].
  apply (turn_traffic' w search_url s s1 Hw).
Qed.

Lemma search_turn_fails (w : world) (todo : nat) (attempt delay : Z) (s : fetcher) :
  attempt < max_retries - 1 ->
  attempt_fails w (requests (log s)) search_url ->
  exists s2,
    search_loop w (S todo) attempt delay s
    = search_loop w todo (attempt + 1) delay s2 /\
    requests (log s2) = S (requests (log s)) /\
    traffic s2 = more_traffic (traffic s) [search_url] [] [seconds delay].
Proof.
  intros Ha Hf.
  destruct (search_loop_step w todo attempt delay s) as (s1 & Hw & ->).
  cbv zeta.
  assert (E : forall (A : Type) (on_error other : A) (ok : dict -> A) (limited : A) b,
             match http w (requests (log s)) search_url with
             | ConnectionError => on_error
             | Reply r =>
                 if status r =? 200 then
                   match json_body r with
                   | Some (JObj d) => ok d
                   | _ => on_error
                   end
                 else if (status r =? 429) && b then limited
                 else other
             end = on_error).
  { intros A on_error other ok limited b.
    destruct Hf as [ -> | (r & -> & -> & Hb) ]; [ reflexivity | ]. simpl.
    destruct Hb as [ -> | (v & -> & Hv) ]; [ reflexivity | ].
    destruct v; simpl in Hv; try reflexivity. discriminate. }
  rewrite E.
  replace (attempt <? max_retries - 1) with true by (symmetry; apply Z.ltb_lt; exact Ha).
  eexists. split; [ reflexivity | ].
  apply (turn_traffic' w search_url s s1 Hw).
Qed.

Lemma search_turn_fails_last (w : world) (todo : nat) (attempt delay : Z) (s : fetcher) :
  max_retries - 1 <= attempt ->
  attempt_fails w (requests (log s)) search_url ->
  exists s2,
    search_loop w (S todo) attempt delay s = (Ok (JArr []), s2) /\
    traffic s2 = more_traffic (traffic s) [search_url] [] [].
Proof.
  intros Ha Hf.
  destruct (search_loop_step w todo attempt delay s) as (s1 & Hw & ->).
  cbv zeta.
  replace (attempt <? max_retries - 1) with false by (symmetry; apply Z.ltb_ge; exact Ha).
  destruct Hf as [ -> | (r & -> & -> & Hb) ].
  - eexists. split; [ reflexivity | ]. apply (turn_traffic' w search_url s s1 Hw).
  - simpl. eexists. split.
    + destruct Hb as [ -> | (v & -> & Hv) ]; [ reflexivity | ].
      destruct v; simpl in Hv; try reflexivity. discriminate.
    + apply (turn_traffic' w search_url s s1 Hw).
Qed.

Lemma search_turn_answered (w : world) (todo : nat) (attempt delay : Z) (s : fetcher)
    (d : dict) :
  answers w (requests (log s)) search_url (JObj d) ->
  exists s2,
    search_loop w (S todo) attempt delay s = (Ok (get_or d "data" (JArr [])), s2) /\
    traffic s2 = more_traffic (traffic s) [search_url] [] [].
Proof.
  intros (r & Hr & Hst & Hb).
  destruct (search_loop_step w todo attempt delay s) as (s1 & Hw & ->).
  cbv zeta. rewrite Hr, Hst, Hb. simpl.
  eexists. split; [ reflexivity | ].
  apply (turn_traffic' w search_url s s1 Hw).
Qed.

(** X5: rate-limited searches back off exponentially: after the first 429
    the client waits 5 seconds, after the second 10, and after a third it
    gives up with the empty list, without a further wait.  A 200 on the
    third attempt returns the results. *)
Theorem search_papers_backoff (w : world) (s : fetcher) :
  let n := requests (log s) in
  ((forall k, (k < 3)%nat -> status_is w (n + k) search_url 429) ->
   exists s', search_papers w s = (Ok (JArr []), s') /\
              traffic s'
              = more_traffic (traffic s) [search_url; search_url; search_url]
                  [5000; 10000] []) /\
  (forall d,
     status_is w n search_url 429 -> status_is w (n + 1) search_url 429 ->
     answers w (n + 2) search_url (JObj d) ->
     exists s', search_papers w s = (Ok (get_or d "data" (JArr [])), s') /\
                traffic s'
                = more_traffic (traffic s) [search_url; search_url; search_url]
                    [5000; 10000] []).
Proof.
  intros n. unfold search_papers. change (Z.to_nat max_retries) with 3%nat. split.
  - intros H.
    assert (H0 := H 0%nat ltac:(lia)). assert (H1 := H 1%nat ltac:(lia)).
    assert (H2 := H 2%nat ltac:(lia)). clear H. subst n.
    rewrite Nat.add_0_r in H0.
    destruct (search_turn_limited w 2 0 5 s ltac:(unfold max_retries; lia) H0)
      as (s1 & -> & N1 & T1).
    rewrite Nat.add_1_r, <- N1 in H1.
    destruct (search_turn_limited w 1 (0 + 1) (5 * 2) s1
                ltac:(unfold max_retries; lia) H1) as (s2 & -> & N2 & T2).
    replace (requests (log s) + 2)%nat with (requests (log s2)) in H2 by lia.
    destruct (search_turn_limited_last w 0 (0 + 1 + 1) (5 * 2 * 2) s2
                ltac:(unfold max_retries; lia) H2) as (s3 & -> & T3).
    exists s3. split; [ reflexivity | ].
    rewrite T3, T2, T1, !more_traffic_assoc. reflexivity.
  - intros d H0 H1 H2. subst n.
    destruct (search_turn_limited w 2 0 5 s ltac:(unfold max_retries; lia) H0)
      as (s1 & -> & N1 & T1).
    rewrite Nat.add_1_r, <- N1 in H1.
    destruct (search_turn_limited w 1 (0 + 1) (5 * 2) s1
                ltac:(unfold max_retries; lia) H1) as (s2 & -> & N2 & T2).
    replace (requests (log s) + 2)%nat with (requests (log s2)) in H2 by lia.
    destruct (search_turn_answered w 0 (0 + 1 + 1) (5 * 2 * 2) s2 d H2)
      as (s3 & -> & T3).
    exists s3. split; [ reflexivity | ].
    rewrite T3, T2, T1, !more_traffic_assoc. reflexivity.
Qed.

Lemma search_papers_backoff_witness :
  (exists s', search_papers (world_search_429 3) (new_fetcher "papers" [])
              = (Ok (JArr []), s') /\
              traffic s' = ([search_url; search_url; search_url], [5000; 10000], [])) /\
  (exists s', search_papers (world_search_429 2) (new_fetcher "papers" [])
              = (Ok (JArr [JObj [("paperId", JStr "P")]]), s') /\
              traffic s' = ([search_url; search_url; search_url], [5000; 10000], [])).
Proof.
  split.
  - apply (search_papers_backoff (world_search_429 3) (new_fetcher "papers" [])).
    intros k Hk. exists {| status := 429; json_body := None; headers := []; url := "" |}.
    split; [ | reflexivity ].
    destruct k as [ | [ | [ | k ] ] ]; [ reflexivity .. | lia ].
  - apply (proj2 (search_papers_backoff (world_search_429 2) (new_fetcher "papers" []))
             [("total", JNum 1); ("data", JArr [JObj [("paperId", JStr "P")]])]).
    + eexists. split; reflexivity.
    + eexists. split; reflexivity.
    + eexists. repeat split; reflexivity.
Defined.

(** X6: an exception during a search is retried after the current
    [retry_delay]: 5 seconds at first, 10 seconds once a 429 has doubled
    it.  Three failed attempts give the empty list, with no wait after the
    last. *)
Theorem search_papers_exceptions (w : world) (s : fetcher) :
  let n := requests (log s) in
  ((forall k, (k < 3)%nat -> attempt_fails w (n + k) search_url) ->
   exists s', search_papers w s = (Ok (JArr []), s') /\
              traffic s'
              = more_traffic (traffic s) [search_url; search_url; search_url]
                  [] [5000; 5000]) /\
  (forall d,
     status_is w n search_url 429 -> attempt_fails w (n + 1) search_url ->
     answers w (n + 2) search_url (JObj d) ->
     exists s', search_papers w s = (Ok (get_or d "data" (JArr [])), s') /\
                traffic s'
                = more_traffic (traffic s) [search_url; search_url; search_url]
                    [5000] [10000]).
Proof.
  intros n. unfold search_papers. change (Z.to_nat max_retries) with 3%nat. split.
  - intros H.
    assert (H0 := H 0%nat ltac:(lia)). assert (H1 := H 1%nat ltac:(lia)).
    assert (H2 := H 2%nat ltac:(lia)). clear H. subst n.
    rewrite Nat.add_0_r in H0.
    destruct (search_turn_fails w 2 0 5 s ltac:(unfold max_retries; lia) H0)
      as (s1 & -> & N1 & T1).
    rewrite Nat.add_1_r, <- N1 in H1.
    destruct (search_turn_fails w 1 (0 + 1) 5 s1
                ltac:(unfold max_retries; lia) H1) as (s2 & -> & N2 & T2).
    replace (requests (log s) + 2)%nat with (requests (log s2)) in H2 by lia.
    destruct (search_turn_fails_last w 0 (0 + 1 + 1) 5 s2
                ltac:(unfold max_retries; lia) H2) as (s3 & -> & T3).
    exists s3. split; [ reflexivity | ].
    rewrite T3, T2, T1, !more_traffic_assoc. reflexivity.
  - intros d H0 H1 H2. subst n.
    destruct (search_turn_limited w 2 0 5 s ltac:(unfold max_retries; lia) H0)
      as (s1 & -> & N1 & T1).
    rewrite Nat.add_1_r, <- N1 in H1.
    destruct (search_turn_fails w 1 (0 + 1) (5 * 2) s1
                ltac:(unfold max_retries; lia) H1) as (s2 & -> & N2 & T2).
    replace (requests (log s) + 2)%nat with (requests (log s2)) in H2 by lia.
    destruct (search_turn_answered w 0 (0 + 1 + 1) (5 * 2) s2 d H2)
      as (s3 & -> & T3).
    exists s3. split; [ reflexivity | ].
    rewrite T3, T2, T1, !more_traffic_assoc. reflexivity.
Qed.

Lemma search_papers_exceptions_witness :
  (exists s', search_papers (world_flaky 3) (new_fetcher "papers" [])
              = (Ok (JArr []), s') /\
              traffic s' = ([search_url; search_url; search_url], [], [5000; 5000])) /\
  (exists s', search_papers world_search_mixed (new_fetcher "papers" [])
              = (Ok (JArr [JObj [("paperId", JStr "P")]]), s') /\
              traffic s' = ([search_url; search_url; search_url], [5000], [10000])).
Proof.
  split.
  - apply (search_papers_exceptions (world_flaky 3) (new_fetcher "papers" [])).
    intros k Hk. left. simpl.
    destruct k as [ | [ | [ | k ] ] ]; [ reflexivity .. | lia ].
  - apply (proj2 (search_papers_exceptions world_search_mixed (new_fetcher "papers" []))
             [("data", JArr [JObj [("paperId", JStr "P")]])]).
    + eexists. split; reflexivity.
    + left. reflexivity.
    + eexists. repeat split; reflexivity.
Defined.

(** ** The downloader *)

Lemma requests_le_length (l : list event) : (requests l <= length l)%nat.
Proof. induction l as [ | [] l IH ]; simpl; lia. Qed.

Lemma resolve_pdf_url_frame (w : world) (d : dict) (s : fetcher) r s1 :
  resolve_pdf_url w d s = (r, s1) ->
  files s1 = files s /\ output_dir s1 = output_dir s /\
  exists l, log s1 = log s ++ l /\ l `sublist_of` chain_requests d.
Proof.
  intros H.
  pose proof (keeps_files_resolve_pdf_url w d s) as Hf.
  pose proof (quiet_resolve_pdf_url w d s) as (Ho & _).
  rewrite H in Hf, Ho. simpl in Hf, Ho.
  split; [ exact Hf | ]. split; [ exact Ho | ].
  assert (Hnone : exists l, log s = log s ++ l /\ l `sublist_of` chain_requests d).
  { exists []. split; [ symmetry; apply app_nil_r | apply sublist_nil_l ]. }
  assert (Halt : forall r s1, try_alternative_sources w d s = (r, s1) ->
                   exists l, log s1 = log s ++ l /\ l `sublist_of` chain_requests d).
  { intros r' s1' E. pose proof (try_alternative_sources_order w d s) as Hl.
    rewrite E in Hl. exact Hl. }
  revert H. unfold resolve_pdf_url, bind at 1.
  destruct (truthy (get d "openAccessPdf")).
  - unfold lift. destruct (attr_get _ _) as [ u | ].
    + destruct (negb (truthy u)).
      * apply Halt.
      * intros [= <- <-]. exact Hnone.
    + intros [= <- <-]. exact Hnone.
  - unfold ret at 1. destruct (negb (truthy JNull)).
    + apply Halt.
    + intros [= <- <-]. exact Hnone.
Qed.

Lemma session_get_value_cases (w : world) (u : json) (s : fetcher) :
  (exists r a, u = JStr a /\ http w (requests (log s)) a = Reply r /\
               session_get_value w u s = (Ok r, emit (Get a) s)) \/
  (exists s1, session_get_value w u s = (Raised, s1) /\
              files s1 = files s /\
              (requests (log s1) <= S (requests (log s)))%nat).
Proof.
  destruct u as [ | | | a | | ];
    try (right; exists s; repeat split; simpl; lia).
  unfold session_get_value, session_get.
  destruct (http w (requests (log s)) a) as [ r | ] eqn:E.
  - left. exists r, a. repeat split. exact E.
  - right. eexists. split; [ reflexivity | ]. split; [ reflexivity | ].
    simpl. rewrite requests_app. simpl. lia.
Qed.

(** What [download_pdf] reports agrees with what it did, when no other
    coroutine runs during the call. *)
Lemma download_pdf_report
    (w : world) (ex : response -> dict -> result string) (d : dict) (s : fetcher) :
  exists o d' s',
    download_pdf w ex d s = (Ok (o, d'), s') /\
    report_matches w s d o d' s' /\
    (requests (log s') <= requests (log s) + 4)%nat.
Proof.
  unfold download_pdf, try_except. unfold bind at 1.
  destruct (resolve_pdf_url w d s) as [[ u | ] s1] eqn:Hres;
    destruct (resolve_pdf_url_frame w d s _ _ Hres) as (Hf1 & Ho1 & l1 & Hl1 & Hsub).
  all: assert (Hreq1 : (requests (log s1) <= requests (log s) + 3)%nat)
    by (rewrite Hl1, requests_app;
        pose proof (requests_le_length l1);
        apply sublist_length in Hsub; simpl in Hsub; lia).
  2: { eexists _, _, _. split; [ reflexivity | ].
       split; [ split; [ reflexivity | left; exact Hf1 ] | lia ]. }
  destruct (negb (truthy u)).
  { eexists _, _, _. split; [ reflexivity | ].
    split; [ split; [ reflexivity | exact Hf1 ] | lia ]. }
  unfold save_pdf. unfold bind at 1.
  destruct (session_get_value_cases w u s1)
    as [ (r & a & -> & Hr & ->) | (s2 & -> & Hf2 & Hreq2) ].
  2: { eexists _, _, _. split; [ reflexivity | ].
       split; [ split; [ reflexivity | left; congruence ] | lia ]. }
  assert (Hreq2 : (requests (log (emit (Get a) s1)) <= requests (log s) + 4)%nat)
    by (simpl; rewrite requests_app; simpl; lia).
  destruct (status r =? 200) eqn:Hst.
  2: { eexists _, _, _. split; [ reflexivity | ].
       split; [ | exact Hreq2 ].
       split; [ reflexivity | ]. split; [ exact Hf1 | ].
       apply Z.eqb_neq. exact Hst. }
  unfold bind at 1, lift. destruct (ex r d) as [ filename | ].
  2: { eexists _, _, _. split; [ reflexivity | ].
       split; [ split; [ reflexivity | left; exact Hf1 ] | exact Hreq2 ]. }
  unfold bind, write_file.
  pose proof (target_path_free (files (emit (Get a) s1))
                (output_dir (emit (Get a) s1)) filename) as Hfree.
  set (p := target_path _ _ filename) in *.
  cbn [files emit] in Hfree. rewrite Hf1 in Hfree.
  destruct (io w (length (log (emit (Get a) s1))) p) eqn:Hio.
  - eexists _, _, _. split; [ reflexivity | ]. split.
    + exists p, (log (emit (Get a) s1)).
      split; [ simpl; rewrite Hf1; reflexivity | ].
      split; [ exact Hfree | ]. split; [ reflexivity | ].
      split; [ exact Hio | reflexivity ].
    + simpl. rewrite !requests_app. simpl in *. rewrite requests_app in Hreq2.
      simpl in *. lia.
  - eexists _, _, _. split; [ reflexivity | ].
    split; [ split; [ reflexivity | left; exact Hf1 ] | exact Hreq2 ].
  - eexists _, _, _. split; [ reflexivity | ]. split.
    + split; [ reflexivity | ]. right.
      exists p, (log (emit (Get a) s1)).
      split; [ simpl; rewrite Hf1; reflexivity | ].
      split; [ exact Hfree | ]. split; [ reflexivity | exact Hio ].
    + simpl. rewrite !requests_app. simpl in *. rewrite requests_app in Hreq2.
      simpl in *. lia.
Qed.

Lemma download_pdf_begin_outcome
    (w : world) (ex : response -> dict -> result string) (d : dict) (s : fetcher) :
  exists st s1,
    download_pdf_begin w ex d s = (Ok st, s1) /\
    files s1 = files s /\
    (requests (log s1) <= requests (log s) + 4)%nat /\
    match st with
    | Reported o d' =>
        d' = d /\ o <> Downloaded /\ (forall st', o = FailedStatus st' -> st' <> 200)
    | Opening p => p ∉ files s1
    end.
Proof.
  unfold download_pdf_begin, try_except. unfold bind at 1.
  destruct (resolve_pdf_url w d s) as [[ u | ] s1] eqn:Hres;
    destruct (resolve_pdf_url_frame w d s _ _ Hres) as (Hf1 & Ho1 & l1 & Hl1 & Hsub).
  all: assert (Hreq1 : (requests (log s1) <= requests (log s) + 3)%nat)
    by (rewrite Hl1, requests_app;
        pose proof (requests_le_length l1);
        apply sublist_length in Hsub; simpl in Hsub; lia).
  2: { eexists _, _. split; [ reflexivity | ]. split; [ exact Hf1 | ].
       split; [ lia | ]. repeat split; discriminate. }
  destruct (negb (truthy u)).
  { eexists _, _. split; [ reflexivity | ]. split; [ exact Hf1 | ].
    split; [ lia | ]. repeat split; discriminate. }
  unfold choose_path. unfold bind at 1.
  destruct (session_get_value_cases w u s1)
    as [ (r & a & -> & Hr & ->) | (s2 & -> & Hf2 & Hreq2) ].
  2: { eexists _, _. split; [ reflexivity | ]. split; [ congruence | ].
       split; [ lia | ]. repeat split; discriminate. }
  assert (Hreq2 : (requests (log (emit (Get a) s1)) <= requests (log s) + 4)%nat)
    by (simpl; rewrite requests_app; simpl; lia).
  destruct (status r =? 200) eqn:Hst.
  2: { eexists _, _. split; [ reflexivity | ]. split; [ exact Hf1 | ].
       split; [ exact Hreq2 | ]. split; [ reflexivity | ]. split; [ discriminate | ].
       intros st' [= <-]. apply Z.eqb_neq. exact Hst. }
  unfold bind, lift. destruct (ex r d) as [ filename | ].
  2: { eexists _, _. split; [ reflexivity | ]. split; [ exact Hf1 | ].
       split; [ exact Hreq2 | ]. repeat split; discriminate. }
  eexists _, _. split; [ reflexivity | ]. split; [ exact Hf1 | ].
  split; [ exact Hreq2 | ]. apply target_path_free.
Qed.

(** X7: what [download_pdf] reports agrees with what it did.  It never
    raises and sends at most four requests.  Up to the opening of the
    file it leaves the disk as it is; if it returns before, it reports a
    failure and [paper_data] is as before; otherwise the path it has
    chosen did not exist when it was tested.  The file is created when
    the coroutine is resumed, in whatever state the crawl is then, at
    that path whether or not it is still free: a download is reported,
    with [saved_filename] the last component of the path, exactly when
    the disk accepts the file, and a write that fails after the file was
    opened leaves the file behind.  When no other coroutine runs during
    the call, exactly one file was created for a reported download, at a
    path that did not exist. *)
Theorem download_pdf_outcome
    (w : world) (ex : response -> dict -> result string) (d : dict) (s : fetcher) :
  (exists st s1,
     download_pdf_begin w ex d s = (Ok st, s1) /\
     files s1 = files s /\
     (requests (log s1) <= requests (log s) + 4)%nat /\
     match st with
     | Reported o d' =>
         d' = d /\ o <> Downloaded /\ (forall st', o = FailedStatus st' -> st' <> 200)
     | Opening p => p ∉ files s1
     end) /\
  (forall p s2,
     download_pdf_end w d p s2
     = match io w (length (log s2)) p with
       | IoOk => (Ok (Downloaded, dict_set d "saved_filename" (JStr (basename p))),
                  add_file p (emit (Create p) s2))
       | OpenError => (Ok (DownloadError, d), s2)
       | WriteError => (Ok (DownloadError, d), add_file p (emit (Create p) s2))
       end) /\
  (exists o d' s',
     download_pdf w ex d s = (Ok (o, d'), s') /\
     report_matches w s d o d' s' /\
     (requests (log s') <= requests (log s) + 4)%nat).
Proof.
  split; [ apply download_pdf_begin_outcome | ].
  split; [ intros p s2; apply download_pdf_end_cases | apply download_pdf_report ].
Qed.

Lemma direct_download
    (w : world) (ex : response -> dict -> result string) (d : dict) (s : fetcher)
    (u : string) (r : response) :
  open_access_url d = JStr u -> u <> "" ->
  http w (requests (log s)) u = Reply r ->
  let got := emit (Get u) s in
  (status r <> 200 ->
   download_pdf w ex d s = (Ok (FailedStatus (status r), d), got)) /\
  (forall name,
     status r = 200 -> ex r d = Ok name ->
     let p := target_path (files s) (output_dir s) name in
     let written := add_file p (emit (Create p) got) in
     download_pdf w ex d s
     = match io w (S (length (log s))) p with
       | IoOk => (Ok (Downloaded,
                      dict_set d "saved_filename" (JStr (basename p))), written)
       | OpenError => (Ok (DownloadError, d), got)
       | WriteError => (Ok (DownloadError, d), written)
       end).
Proof.
  intros Hu Hne Hr got.
  assert (Ht : truthy (open_access_url d) = true).
  { rewrite Hu. destruct u; [ contradiction | reflexivity ]. }
  assert (E : download_pdf w ex d s
              = try_except (save_pdf w ex d (JStr u)) (ret (DownloadError, d)) s).
  { unfold download_pdf, try_except. unfold bind at 1.
    rewrite (resolve_open_access w d s Ht), Ht, Hu. reflexivity. }
  rewrite E. subst got.
  unfold try_except, save_pdf, bind, session_get_value, session_get, lift,
    write_file, ret.
  cbv beta. rewrite Hr. split.
  - intros Hst. apply Z.eqb_neq in Hst. rewrite Hst. reflexivity.
  - intros name Hst Hex. rewrite Hst, Hex.
    change (200 =? 200) with true. cbv beta iota zeta.
    cbn [files output_dir emit log]. rewrite length_app, Nat.add_1_r.
    cbn [length].
    destruct (io w (S (length (log s))) _); reflexivity.
Qed.


(** X8: a download from the open-access URL of the metadata.  The single
    request goes to that URL.  A status other than 200 is reported as such
    and nothing is written.  With a 200, the file is written at the free
    path for the extracted name; if the file cannot be opened nothing is
    left, and if writing fails after it was opened, the download is
    reported as failed while the file stays on disk. *)
Theorem open_access_download
    (w : world) (ex : response -> dict -> result string) (d : dict) (s : fetcher)
    (u : string) (r : response) :
  open_access_url d = JStr u -> u <> "" ->
  http w (requests (log s)) u = Reply r ->
  let got := emit (Get u) s in
  (status r <> 200 ->
   download_pdf w ex d s = (Ok (FailedStatus (status r), d), got)) /\
  (forall name,
     status r = 200 -> ex r d = Ok name ->
     let p := target_path (files s) (output_dir s) name in
     let written := add_file p (emit (Create p) got) in
     download_pdf w ex d s
     = match io w (S (length (log s))) p with
       | IoOk => (Ok (Downloaded,
                      dict_set d "saved_filename" (JStr (basename p))), written)
       | OpenError => (Ok (DownloadError, d), got)
       | WriteError => (Ok (DownloadError, d), written)
       end).
Proof. apply direct_download. Qed.

Lemma open_access_download_witness :
  download_pdf world_disk_full title_filename paper_open_access (new_fetcher "papers" [])
  = (Ok (DownloadError, paper_open_access),
     {| output_dir := "papers"; visited_papers := []; last_request_time := 0;
        files := ["papers/P.pdf"];
        log := [Get "https://host/oa.pdf"; Create "papers/P.pdf"] |}).
Proof.
  destruct (open_access_download world_disk_full title_filename paper_open_access
              (new_fetcher "papers" []) "https://host/oa.pdf"
              {| status := 200; json_body := None; headers := []; url := "" |}
              eq_refl ltac:(discriminate) eq_refl) as [_ H].
  exact (H "P.pdf" eq_refl eq_refl).
Defined.

(** ** The alternative sources *)

Lemma save_pdf_request (w : world) ex (d : dict) (u : string) (s : fetcher) :
  requested (log (snd (save_pdf w ex d (JStr u) s))) = requested (log s) ++ [u].
Proof.
  unfold save_pdf, bind at 1, session_get_value, session_get.
  destruct (http w (requests (log s)) u) as [ r | ];
    [ | simpl; rewrite requested_app; reflexivity ].
  destruct (status r =? 200); [ | simpl; rewrite requested_app; reflexivity ].
  unfold bind at 1, lift. destruct (ex r d) as [ name | ];
    [ | simpl; rewrite requested_app; reflexivity ].
  unfold bind, write_file. destruct (io w _ _); simpl;
    rewrite ?requested_app; simpl; rewrite ?requested_app; simpl;
    rewrite ?app_nil_r; reflexivity.
Qed.

(** X9: an arXiv identifier whose PDF URL answers 200 settles the
    resolution after that one request: the arXiv URL is returned, and
    Unpaywall and CORE are not asked, whatever DOI the paper has.  Without
    an open-access entry in the metadata, [download_pdf] then requests the
    same arXiv URL a second time, to download it. *)
Theorem arxiv_answer_wins
    (w : world) (ex : response -> dict -> result string) (d : dict) (s : fetcher) :
  let a := arxiv_pdf_url (ext_id d "ArXiv") in
  truthy (ext_id d "ArXiv") = true ->
  status_is w (requests (log s)) a 200 ->
  try_alternative_sources w d s = (Ok (JStr a), emit (Get a) s) /\
  (truthy (get d "openAccessPdf") = false ->
   requested (log (snd (download_pdf w ex d s))) = requested (log s) ++ [a; a]).
Proof.
  intros a Ht (r & Hr & Hst).
  assert (E : try_alternative_sources w d s = (Ok (JStr a), emit (Get a) s)).
  { unfold try_alternative_sources, try_except, or_else, try_arxiv.
    unfold bind at 1 2. rewrite (external_id_ok d "ArXiv" Ht), Ht.
    unfold bind at 1, session_get. fold a. rewrite Hr, Hst. reflexivity. }
  split; [ exact E | ]. intros Hoa.
  assert (R : resolve_pdf_url w d s = (Ok (JStr a), emit (Get a) s)).
  { unfold resolve_pdf_url, bind. rewrite Hoa. exact E. }
  assert (Ha : truthy (JStr a) = true) by reflexivity.
  unfold download_pdf, try_except. unfold bind at 1. rewrite R, Ha.
  cbn [negb].
  pose proof (save_pdf_request w ex d a (emit (Get a) s)) as Hs.
  destruct (save_pdf w ex d (JStr a) (emit (Get a) s)) as [[ [o d'] | ] s2];
    simpl in Hs |- *; rewrite Hs, requested_app, <- app_assoc; reflexivity.
Qed.

Lemma arxiv_answer_wins_witness :
  try_alternative_sources world_arxiv_200 paper_arxiv (new_fetcher "papers" [])
  = (Ok (JStr "https://arxiv.org/pdf/2101.00001.pdf"),
     emit (Get "https://arxiv.org/pdf/2101.00001.pdf") (new_fetcher "papers" [])).
Proof.
  apply (arxiv_answer_wins world_arxiv_200 title_filename paper_arxiv
           (new_fetcher "papers" []) eq_refl).
  eexists. split; reflexivity.
Defined.

Lemma try_unpaywall_answer (w : world) (d body : dict) (s : fetcher) :
  let u := unpaywall_url (ext_id d "DOI") in
  truthy (ext_id d "DOI") = true ->
  answers w (requests (log s)) u (JObj body) ->
  try_unpaywall w d s
  = (match attr_get (get_or body "best_oa_location" (JObj [])) "url_for_pdf" with
     | Ok v => Ok (if truthy v then Return v else Continue)
     | Raised => Raised
     end, emit (Get u) s).
Proof.
  intros u Ht (r & Hr & Hst & Hb).
  unfold try_unpaywall. unfold bind at 1. rewrite (external_id_ok d "DOI" Ht), Ht.
  unfold bind at 1, session_get. fold u. rewrite Hr, Hst.
  change (200 =? 200) with true. cbv iota.
  unfold bind, response_json, lift, ret. rewrite Hb. simpl.
  destruct (attr_get _ _) as [ v | ]; [ | reflexivity ].
  destruct (truthy v); reflexivity.
Qed.

Lemma try_core_request (w : world) (d : dict) (s : fetcher) :
  truthy (ext_id d "DOI") = true ->
  snd (try_core w d s) = emit (Get (core_url (ext_id d "DOI"))) s.
Proof.
  intros Hd. unfold try_core. unfold bind at 1.
  rewrite (external_id_ok d "DOI" Hd), Hd.
  apply session_get_then. intros r. repeat silent_step.
Qed.

(** X10: for a paper with a DOI and no arXiv identifier, the answer of
    Unpaywall decides whether CORE is asked.  A location with a PDF URL is
    returned at once.  A [best_oa_location] that is null makes the lookup
    raise: the resolver gives [None] and CORE is not asked.  When the key
    is absent, or the location has no PDF URL, CORE is asked next. *)
Theorem unpaywall_answer_decides (w : world) (d body : dict) (s : fetcher) :
  let doi := ext_id d "DOI" in
  truthy (ext_id d "ArXiv") = false -> truthy doi = true ->
  answers w (requests (log s)) (unpaywall_url doi) (JObj body) ->
  let asked := emit (Get (unpaywall_url doi)) s in
  (forall loc v, dict_lookup body "best_oa_location" = Some (JObj loc) ->
                 get loc "url_for_pdf" = v -> truthy v = true ->
                 try_alternative_sources w d s = (Ok v, asked)) /\
  (forall x, dict_lookup body "best_oa_location" = Some x -> as_dict x = Raised ->
             try_alternative_sources w d s = (Ok JNull, asked)) /\
  (dict_lookup body "best_oa_location" = None \/
   (exists loc, dict_lookup body "best_oa_location" = Some (JObj loc) /\
                truthy (get loc "url_for_pdf") = false) ->
   requested (log (snd (try_alternative_sources w d s)))
   = requested (log s) ++ [unpaywall_url doi; core_url doi]).
Proof.
  intros doi Ha Hd Hans asked.
  assert (E : try_alternative_sources w d s
              = try_except
                  (or_else (try_unpaywall w d)
                     (or_else (try_core w d) (ret JNull))) (ret JNull) s).
  { unfold try_alternative_sources, try_except. unfold or_else at 1, bind at 1.
    rewrite (try_arxiv_skipped w d s Ha Hd). reflexivity. }
  assert (F : try_alternative_sources w d s
              = match attr_get (get_or body "best_oa_location" (JObj []))
                        "url_for_pdf" with
                | Ok v => if truthy v then (Ok v, asked)
                          else try_except (or_else (try_core w d) (ret JNull))
                                 (ret JNull) asked
                | Raised => (Ok JNull, asked)
                end).
  { rewrite E. unfold try_except. unfold or_else at 1, bind at 1.
    rewrite (try_unpaywall_answer w d body s Hd Hans). fold doi asked.
    destruct (attr_get _ _) as [ v | ]; [ | reflexivity ].
    destruct (truthy v); reflexivity. }
  rewrite F. clear E F. unfold get_or. split; [ | split ].
  - intros loc v Hl Hv Ht. rewrite Hl. simpl. rewrite Hv, Ht. reflexivity.
  - intros x Hl Hx. rewrite Hl. destruct x; try reflexivity. discriminate.
  - intros H.
    assert (Hc : exists v, attr_get match dict_lookup body "best_oa_location" with
                                    | Some v => v
                                    | None => JObj []
                                    end "url_for_pdf" = Ok v /\ truthy v = false).
    { destruct H as [ -> | (loc & -> & Hf) ].
      - exists JNull. split; reflexivity.
      - eexists. split; [ reflexivity | exact Hf ]. }
    destruct Hc as (v & -> & ->).
    unfold try_except, or_else, bind at 1.
    pose proof (try_core_request w d asked Hd) as Hcore. fold doi in Hcore.
    destruct (try_core w d asked) as [[[ x | ] | ] s3]; simpl in Hcore |- *;
      subst s3; unfold asked; simpl; rewrite !requested_app, <- app_assoc;
      reflexivity.
Qed.

Lemma unpaywall_answer_decides_witness :
  try_alternative_sources (world_unpaywall [("best_oa_location", JNull)]) paper_doi
    (new_fetcher "papers" [])
  = (Ok JNull, emit (Get (unpaywall_url (JStr "10.1/x"))) (new_fetcher "papers" [])) /\
  requested (log (snd (try_alternative_sources (world_unpaywall [("doi", JStr "10.1/x")])
                         paper_doi (new_fetcher "papers" []))))
  = [unpaywall_url (JStr "10.1/x"); core_url (JStr "10.1/x")].
Proof.
  split.
  - refine (proj1 (proj2 (unpaywall_answer_decides
             (world_unpaywall [("best_oa_location", JNull)]) paper_doi
             [("best_oa_location", JNull)] (new_fetcher "papers" [])
             eq_refl eq_refl _)) JNull eq_refl eq_refl).
    eexists. repeat split; reflexivity.
  - refine (proj2 (proj2 (unpaywall_answer_decides
             (world_unpaywall [("doi", JStr "10.1/x")]) paper_doi
             [("doi", JStr "10.1/x")] (new_fetcher "papers" [])
             eq_refl eq_refl _)) (or_introl eq_refl)).
    eexists. repeat split; reflexivity.
Defined.

(** ** The semaphore of the rate limiter *)

Lemma count_phase_insert (f : RateLimiter.phase -> bool) (ps : list RateLimiter.phase)
    (i : nat) (old p : RateLimiter.phase) :
  ps !! i = Some old ->
  (count_phase f (<[i := p]> ps) + (if f old then 1 else 0)
   = count_phase f ps + (if f p then 1 else 0))%nat.
Proof.
  revert i. induction ps as [ | q ps IH ]; intros i Hi; [ discriminate | ].
  destruct i as [ | i ]; simpl in *.
  - injection Hi as ->. lia.
  - specialize (IH i Hi). lia.
Qed.

Lemma count_phase_le (f g : RateLimiter.phase -> bool) (ps : list RateLimiter.phase) :
  (forall p, f p = true -> g p = true) ->
  (count_phase f ps <= count_phase g ps)%nat.
Proof.
  intros H. induction ps as [ | p ps IH ]; simpl; [ lia | ].
  specialize (H p). destruct (f p), (g p); try lia.
Qed.

Lemma acquired_holds (now latency last : Z) :
  holds_permit (fst (RateLimiter.acquired now latency last)) = true.
Proof.
  unfold RateLimiter.acquired. destruct (rate_limit_delay now last); reflexivity.
Qed.

(** A turn of the event loop keeps the permits: the free ones and the
    held ones are never more than the three of [Semaphore(3)]. *)
Lemma fire_permits (i : nat) (l : RateLimiter.limiter) :
  (RateLimiter.value l + holders l <= 3)%nat ->
  (RateLimiter.value (RateLimiter.fire i l) + holders (RateLimiter.fire i l) <= 3)%nat.
Proof.
  intros Inv. unfold RateLimiter.fire.
  destruct (RateLimiter.callers l !! i) as [ p | ] eqn:Hi; [ | exact Inv ].
  destruct p as [ t latency | latency | t latency | started finish | started ];
    try exact Inv.
  - destruct (RateLimiter.value l) as [ | v ] eqn:Hv.
    + unfold holders in *. simpl.
      pose proof (count_phase_insert holds_permit _ i _ (RateLimiter.Queued latency) Hi).
      simpl in *. lia.
    + destruct (RateLimiter.waiters l).
      * pose proof (acquired_holds t latency (RateLimiter.last_request_time l)) as Hh.
        destruct (RateLimiter.acquired t latency _) as [p last]. simpl in Hh.
        unfold holders in *. simpl.
        pose proof (count_phase_insert holds_permit _ i _ p Hi) as Hc.
        rewrite Hh in Hc. simpl in Hc. lia.
      * unfold holders in *. simpl.
        pose proof (count_phase_insert holds_permit _ i _ (RateLimiter.Queued latency) Hi).
        simpl in *. lia.
  - unfold holders in *. simpl.
    pose proof (count_phase_insert holds_permit _ i _
                  (RateLimiter.InFlight t (t + latency)) Hi).
    simpl in *. lia.
  - pose proof (count_phase_insert holds_permit _ i _ (RateLimiter.Finished started) Hi)
      as Hc. simpl in Hc.
    cbn [RateLimiter.set_caller RateLimiter.waiters RateLimiter.callers
         RateLimiter.value RateLimiter.last_request_time].
    destruct (RateLimiter.waiters l) as [ | j rest ].
    + unfold holders in *. simpl. lia.
    + destruct (<[i := RateLimiter.Finished started]> (RateLimiter.callers l) !! j)
        as [ q | ] eqn:Hj; [ | unfold holders in *; simpl; lia ].
      destruct q as [ | latency | | | ]; try (unfold holders in *; simpl; lia).
      pose proof (acquired_holds finish latency (RateLimiter.last_request_time l)) as Hh.
      destruct (RateLimiter.acquired finish latency _) as [p last]. simpl in Hh.
      unfold holders in *. simpl.
      pose proof (count_phase_insert holds_permit _ j _ p Hj) as Hc'.
      rewrite Hh in Hc'. simpl in Hc'. lia.
Qed.

Lemma simulate_permits (fuel : nat) (l : RateLimiter.limiter) :
  (RateLimiter.value l + holders l <= 3)%nat ->
  (RateLimiter.value (RateLimiter.simulate fuel l)
   + holders (RateLimiter.simulate fuel l) <= 3)%nat.
Proof.
  revert l. induction fuel as [ | fuel IH ]; intros l Inv; simpl; [ exact Inv | ].
  destruct (RateLimiter.earliest (RateLimiter.callers l) 0) as [ [i t] | ];
    [ | exact Inv ].
  apply IH, fire_permits, Inv.
Qed.

Lemma init_holders (cs : list (Z * Z)) : holders (RateLimiter.init cs) = 0%nat.
Proof.
  unfold holders. simpl. induction cs as [ | c cs IH ]; [ reflexivity | exact IH ].
Qed.

(** X11: the semaphore caps the concurrency.  Whatever the arrival times
    and the latencies of the callers, at every moment of the simulation at
    most three callers hold a permit, so at most three requests are in
    flight. *)
Theorem at_most_three_in_flight (cs : list (Z * Z)) (fuel : nat) :
  let l := RateLimiter.simulate fuel (RateLimiter.init cs) in
  (holders l <= 3)%nat /\
  (count_phase in_flight (RateLimiter.callers l) <= 3)%nat.
Proof.
  intros l.
  assert (H : (RateLimiter.value l + holders l <= 3)%nat).
  { apply simulate_permits. rewrite init_holders. simpl. lia. }
  split; [ lia | ].
  etransitivity; [ apply (count_phase_le in_flight holds_permit) | unfold holders in H; lia ].
  intros [] Hp; try discriminate; reflexivity.
Qed.

(** ** File names *)

Lemma is_word_not_collapsed (c : ascii) :
  is_word c = true -> is_dash_or_space c = false.
Proof. destruct c as [[] [] [] [] [] [] [] []]; vm_compute; congruence. Qed.

Lemma is_word_not_slash (c : ascii) :
  is_word c = true -> negb (Ascii.eqb c "/") = true.
Proof. destruct c as [[] [] [] [] [] [] [] []]; vm_compute; congruence. Qed.

Lemma kept_not_collapsed_is_word (c : ascii) :
  is_word c || is_space c || Ascii.eqb c "-" = true ->
  is_dash_or_space c = false -> is_word c = true.
Proof.
  unfold is_dash_or_space. destruct (is_word c); [ reflexivity | ].
  destruct (is_space c), (Ascii.eqb c "-"); simpl; congruence.
Qed.

Lemma str_all_filter (f : ascii -> bool) (s : string) :
  str_all f (str_filter f s) = true.
Proof.
  induction s as [ | c s IH ]; [ reflexivity | ]. simpl.
  destruct (f c) eqn:E; [ simpl; rewrite E; exact IH | exact IH ].
Qed.

Lemma str_all_impl (f g : ascii -> bool) (s : string) :
  (forall c, f c = true -> g c = true) -> str_all f s = true -> str_all g s = true.
Proof.
  intros H. induction s as [ | c s IH ]; [ reflexivity | ]. simpl.
  intros [Hc Hs]%andb_true_iff. rewrite (H c Hc), (IH Hs). reflexivity.
Qed.

Lemma str_all_app (f : ascii -> bool) (a b : string) :
  str_all f (a +:+ b) = str_all f a && str_all f b.
Proof.
  induction a as [ | c a IH ]; [ reflexivity | ].
  rewrite append_cons. simpl. rewrite IH. apply andb_assoc.
Qed.

Lemma str_all_take (f : ascii -> bool) (n : nat) (s : string) :
  str_all f s = true -> str_all f (str_take n s) = true.
Proof.
  revert s. induction n as [ | n IH ]; intros [ | c s ]; simpl; try reflexivity.
  intros [Hc Hs]%andb_true_iff. rewrite Hc, (IH s Hs). reflexivity.
Qed.

Lemma str_all_drop (f : ascii -> bool) (n : nat) (s : string) :
  str_all f s = true -> str_all f (str_drop n s) = true.
Proof.
  revert s. induction n as [ | n IH ]; intros [ | c s ]; simpl; try tauto.
  intros [Hc Hs]%andb_true_iff. apply IH, Hs.
Qed.

Lemma str_all_collapse (in_run : bool) (s : string) :
  str_all (fun c => is_word c || is_space c || Ascii.eqb c "-") s = true ->
  str_all is_word (collapse_runs in_run s) = true.
Proof.
  revert in_run. induction s as [ | c s IH ]; intros in_run; [ reflexivity | ].
  simpl. intros [Hc Hs]%andb_true_iff.
  destruct (is_dash_or_space c) eqn:E.
  - destruct in_run; [ apply IH, Hs | ]. simpl. apply IH, Hs.
  - simpl. rewrite (kept_not_collapsed_is_word c Hc E). apply IH, Hs.
Qed.

Lemma str_take_length (n : nat) (s : string) :
  (String.length (str_take n s) <= n)%nat.
Proof.
  revert s. induction n as [ | n IH ]; intros [ | c s ]; simpl; try lia.
  specialize (IH s). lia.
Qed.

Lemma str_take_all (n : nat) (s : string) :
  (String.length s <= n)%nat -> str_take n s = s.
Proof.
  revert s. induction n as [ | n IH ]; intros [ | c s ]; simpl; try reflexivity; try lia.
  intros H. rewrite IH by lia. reflexivity.
Qed.

Lemma str_filter_all (f : ascii -> bool) (s : string) :
  str_all f s = true -> str_filter f s = s.
Proof.
  induction s as [ | c s IH ]; [ reflexivity | ]. simpl.
  intros [Hc Hs]%andb_true_iff. rewrite Hc, (IH Hs). reflexivity.
Qed.

Lemma collapse_runs_words (s : string) :
  str_all is_word s = true -> collapse_runs false s = s.
Proof.
  induction s as [ | c s IH ]; [ reflexivity | ]. simpl.
  intros [Hc Hs]%andb_true_iff.
  rewrite (is_word_not_collapsed c Hc), (IH Hs). reflexivity.
Qed.

Lemma clean_filename_props (title : string) :
  (String.length (clean_filename title) <= 100)%nat /\
  str_all is_word (clean_filename title) = true /\
  plain_name (clean_filename title +:+ ".pdf") = true /\
  clean_filename (clean_filename title) = clean_filename title.
Proof.
  assert (Hlen : (String.length (clean_filename title) <= 100)%nat)
    by apply str_take_length.
  assert (Hw : str_all is_word (clean_filename title) = true).
  { unfold clean_filename. apply str_all_take, str_all_collapse, str_all_filter. }
  split; [ exact Hlen | ]. split; [ exact Hw | ]. split.
  - unfold plain_name. rewrite str_all_app.
    rewrite (str_all_impl is_word _ _ is_word_not_slash Hw). reflexivity.
  - set (name := clean_filename title) in *. unfold clean_filename.
    rewrite str_filter_all.
    + rewrite (collapse_runs_words name Hw). apply str_take_all, Hlen.
    + eapply str_all_impl; [ | exact Hw ]. intros c ->. reflexivity.
Qed.

(** X12: the file name made from a title has at most 100 characters, all
    of them letters, digits or underscores, so that with [.pdf] it is a
    single path component; cleaning a cleaned name changes nothing. *)
Theorem clean_filename_safe (title : string) :
  (String.length (clean_filename title) <= 100)%nat /\
  str_all is_word (clean_filename title) = true /\
  plain_name (clean_filename title +:+ ".pdf") = true /\
  clean_filename (clean_filename title) = clean_filename title.
Proof. apply clean_filename_props. Qed.

(** ** Plain names stay inside the output directory *)

Lemma rfind_from_app (c : ascii) (a b : string) (i found : Z) :
  rfind_from c (a +:+ b) i found
  = rfind_from c b (i + Z.of_nat (String.length a)) (rfind_from c a i found).
Proof.
  revert i found. induction a as [ | x a IH ]; intros i found.
  - simpl. rewrite Z.add_0_r. reflexivity.
  - rewrite append_cons. cbn [rfind_from String.length]. rewrite IH.
    f_equal. lia.
Qed.

Lemma rfind_from_absent (c : ascii) (s : string) (i found : Z) :
  str_all (fun x => negb (Ascii.eqb x c)) s = true -> rfind_from c s i found = found.
Proof.
  revert i found. induction s as [ | x s IH ]; intros i found; [ reflexivity | ].
  simpl. intros [Hx Hs]%andb_true_iff. apply negb_true_iff in Hx. rewrite Hx.
  apply IH, Hs.
Qed.

Lemma rfind_from_cases (c : ascii) (s : string) (i found : Z) :
  let r := rfind_from c s i found in
  (r = found /\ str_all (fun x => negb (Ascii.eqb x c)) s = true) \/
  (i <= r < i + Z.of_nat (String.length s) /\
   str_all (fun x => negb (Ascii.eqb x c)) (str_drop (Z.to_nat (r - i + 1)) s) = true).
Proof.
  revert i found. induction s as [ | x s IH ]; intros i found; [ left; split; reflexivity | ].
  cbn [rfind_from String.length].
  destruct (IH (i + 1) (if Ascii.eqb x c then i else found)) as [ [Hr Hs] | [Hr Hs] ];
    cbv zeta in *.
  - destruct (Ascii.eqb x c) eqn:E.
    + right. rewrite Hr. split; [ lia | ].
      replace (i - i + 1) with 1 by lia. exact Hs.
    + left. split; [ exact Hr | ]. simpl. rewrite E. exact Hs.
  - right. split; [ lia | ].
    set (r := rfind_from c s (i + 1) _) in *.
    replace (Z.to_nat (r - i + 1)) with (S (Z.to_nat (r - (i + 1) + 1))) by lia.
    exact Hs.
Qed.

Lemma basename_plain (p : string) : plain_name (basename p) = true.
Proof.
  unfold plain_name, basename, rfind.
  destruct (rfind_from_cases "/" p 0 (-1)) as [ [Hr Hs] | [Hr Hs] ]; cbv zeta in *.
  - rewrite Hr. exact Hs.
  - replace (rfind_from "/" p 0 (-1) - 0 + 1) with (rfind_from "/" p 0 (-1) + 1) in Hs
      by lia. exact Hs.
Qed.

Lemma rfind_last (c : ascii) (q : string) :
  rfind c (q +:+ String c "") = Z.of_nat (String.length q).
Proof.
  unfold rfind. rewrite rfind_from_app. simpl. rewrite Ascii.eqb_refl. lia.
Qed.

Lemma endswith_sep_split (pre : string) :
  endswith_sep pre = true -> exists q, pre = q +:+ "/".
Proof.
  induction pre as [ | a pre IH ]; [ discriminate | ].
  destruct pre as [ | b pre ].
  - simpl. intros ->%Ascii.eqb_eq. exists "". reflexivity.
  - intros H. destruct (IH H) as (q & Hq). exists (String a q).
    rewrite append_cons, <- Hq. reflexivity.
Qed.

Lemma dir_prefix_rfind (out : string) :
  rfind "/" (dir_prefix out) + 1 = Z.of_nat (String.length (dir_prefix out)).
Proof.
  unfold dir_prefix. destruct (String.eqb out "") eqn:E.
  - apply String.eqb_eq in E. subst out. reflexivity.
  - simpl. destruct (endswith_sep out) eqn:Hs.
    + destruct (endswith_sep_split out Hs) as (q & ->).
      rewrite rfind_last, append_length. simpl. lia.
    + rewrite rfind_last, append_length. simpl. lia.
Qed.

Lemma rfind_plain_suffix (pre name : string) :
  plain_name name = true -> rfind "/" (pre +:+ name) = rfind "/" pre.
Proof.
  intros H. unfold rfind. rewrite rfind_from_app. apply rfind_from_absent, H.
Qed.

Lemma plain_name_not_abs (name : string) :
  plain_name name = true -> startswith_sep name = false.
Proof.
  destruct name as [ | c name ]; [ reflexivity | ]. simpl.
  intros [Hc _]%andb_true_iff. apply negb_true_iff, Hc.
Qed.

Lemma append_assoc (a b c : string) : (a +:+ b) +:+ c = a +:+ (b +:+ c).
Proof.
  induction a as [ | x a IH ]; [ reflexivity | ].
  rewrite !append_cons, IH. reflexivity.
Qed.

Lemma path_join_plain (out name : string) :
  plain_name name = true -> path_join out name = dir_prefix out +:+ name.
Proof.
  intros H. unfold path_join, dir_prefix. rewrite (plain_name_not_abs name H).
  destruct (String.eqb out "" || endswith_sep out); [ reflexivity | ].
  symmetry. apply append_assoc.
Qed.

Lemma str_take_app_ge (n : nat) (a b : string) :
  (String.length a <= n)%nat ->
  str_take n (a +:+ b) = a +:+ str_take (n - String.length a) b.
Proof.
  revert n. induction a as [ | x a IH ]; intros n H.
  - simpl. rewrite Nat.sub_0_r. reflexivity.
  - destruct n as [ | n ]; [ simpl in H; lia | ].
    rewrite !append_cons. simpl. rewrite IH by (simpl in H; lia). reflexivity.
Qed.

Lemma str_drop_app_ge (n : nat) (a b : string) :
  (String.length a <= n)%nat ->
  str_drop n (a +:+ b) = str_drop (n - String.length a) b.
Proof.
  revert n. induction a as [ | x a IH ]; intros n H.
  - simpl. rewrite Nat.sub_0_r. reflexivity.
  - destruct n as [ | n ]; [ simpl in H; lia | ].
    rewrite append_cons. simpl. apply IH. simpl in H. lia.
Qed.

Lemma basename_in_dir (out name : string) :
  plain_name name = true -> basename (dir_prefix out +:+ name) = name.
Proof.
  intros H. unfold basename.
  rewrite (rfind_plain_suffix _ _ H), dir_prefix_rfind, Nat2Z.id.
  rewrite str_drop_app_ge by lia. rewrite Nat.sub_diag. reflexivity.
Qed.

Lemma splitext_in_dir (out name : string) :
  plain_name name = true ->
  exists b e, splitext (dir_prefix out +:+ name) = (dir_prefix out +:+ b, e) /\
              plain_name b = true /\ plain_name e = true.
Proof.
  intros H. unfold splitext.
  pose proof (dir_prefix_rfind out) as Hsep.
  rewrite (rfind_plain_suffix _ _ H).
  set (pre := dir_prefix out) in *.
  remember (rfind "." (pre +:+ name)) as dot eqn:Hdot. clear Hdot.
  destruct (rfind "/" pre <? dot) eqn:Hlt.
  - destruct (all_dots _).
    + exists name, "". repeat split. exact H.
    + apply Z.ltb_lt in Hlt.
      exists (str_take (Z.to_nat dot - String.length pre) name),
             (str_drop (Z.to_nat dot - String.length pre) name).
      split; [ | split ].
      * rewrite str_take_app_ge, str_drop_app_ge by lia. reflexivity.
      * apply str_all_take, H.
      * apply str_all_drop, H.
  - exists name, "". repeat split. exact H.
Qed.

Lemma adjust_filename_shape (fs : list string) (base ext : string) :
  forall (fuel : nat) (counter : Z) (fp : string),
    adjust_filename fuel fs base ext counter fp = fp \/
    exists k, adjust_filename fuel fs base ext counter fp = candidate base ext k.
Proof.
  induction fuel as [ | fuel IH ]; intros counter fp; simpl.
  - left. destruct (path_exists fs fp); reflexivity.
  - destruct (path_exists fs fp); [ | left; reflexivity ].
    right. destruct (IH (counter + 1) (candidate base ext counter)) as [ -> | (k & ->) ];
      eexists; reflexivity.
Qed.

Lemma string_of_uint_plain (d : Decimal.uint) :
  plain_name (NilEmpty.string_of_uint d) = true.
Proof. induction d; simpl; try reflexivity; exact IHd. Qed.

Lemma str_of_Z_plain (n : Z) : plain_name (str_of_Z n) = true.
Proof.
  unfold str_of_Z, NilEmpty.string_of_int.
  destruct (Z.to_int n); [ apply string_of_uint_plain | ].
  simpl. apply string_of_uint_plain.
Qed.

(** Where a name without a slash is saved: directly in the output
    directory, under a name that is again without a slash. *)
Lemma target_path_in_dir (fs : list string) (out name : string) :
  plain_name name = true ->
  exists name', plain_name name' = true /\
                target_path fs out name = dir_prefix out +:+ name'.
Proof.
  intros H. unfold target_path. rewrite (path_join_plain out name H).
  destruct (splitext_in_dir out name H) as (b & e & -> & Hb & He).
  destruct (adjust_filename_shape fs (dir_prefix out +:+ b) e (length fs) 1
              (dir_prefix out +:+ name)) as [ -> | (k & ->) ].
  - exists name. split; [ exact H | reflexivity ].
  - exists (b +:+ "_" +:+ str_of_Z k +:+ e). split.
    + pose proof (str_of_Z_plain k) as Hk.
      unfold plain_name in *. rewrite !str_all_app, Hb, He, Hk. reflexivity.
    + unfold candidate. rewrite !append_assoc. reflexivity.
Qed.

Lemma download_pdf_downloaded
    (w : world) (ex : response -> dict -> result string) (d : dict) (s : fetcher)
    (d' : dict) (s' : fetcher) :
  download_pdf w ex d s = (Ok (Downloaded, d'), s') ->
  exists n u resp name l,
    http w n u = Reply resp /\ status resp = 200 /\ ex resp d = Ok name /\
    output_dir s' = output_dir s /\
    files s' = target_path (files s) (output_dir s) name :: files s /\
    log s' = l ++ [Create (target_path (files s) (output_dir s) name)] /\
    d' = dict_set d "saved_filename"
           (JStr (basename (target_path (files s) (output_dir s) name))).
Proof.
  unfold download_pdf, try_except. unfold bind at 1.
  destruct (resolve_pdf_url w d s) as [[ u | ] s1] eqn:Hres; [ | discriminate ].
  destruct (resolve_pdf_url_frame w d s _ _ Hres) as (Hf1 & Ho1 & _).
  destruct (negb (truthy u)); [ discriminate | ].
  unfold save_pdf. unfold bind at 1.
  destruct (session_get_value_cases w u s1)
    as [ (r & a & -> & Hr & ->) | (s2 & -> & _) ]; [ | discriminate ].
  destruct (status r =? 200) eqn:Hst; [ | discriminate ].
  apply Z.eqb_eq in Hst.
  unfold bind at 1, lift. destruct (ex r d) as [ name | ] eqn:Hex; [ | discriminate ].
  unfold bind, write_file. cbn [files output_dir emit]. rewrite Hf1, Ho1.
  destruct (io w _ _); intros [= <- <-]; try discriminate.
  exists (requests (log s1)), a, r, name, (log s1 ++ [Get a]).
  repeat split; try assumption; simpl; congruence.
Qed.

Lemma dict_lookup_set (d : dict) (k : string) (v : json) :
  dict_lookup (dict_set d k v) k = Some v.
Proof.
  induction d as [ | [k' v'] d IH ]; simpl.
  - rewrite String.eqb_refl. reflexivity.
  - destruct (String.eqb k' k) eqn:E; simpl; rewrite E; [ reflexivity | exact IH ].
Qed.

Lemma make_record_path (out : string) (paper_id : json) (d : dict) (saved : string)
    (r : paper_record) :
  make_record out paper_id (dict_set d "saved_filename" (JStr saved)) = Ok r ->
  rec_filename r = JStr saved /\ rec_pdf_path r = path_join out saved.
Proof.
  unfold make_record. destruct (py_iter _); [ | discriminate ].
  destruct (map_result _ _); [ | discriminate ].
  unfold get_or, get. rewrite dict_lookup_set. intros [= <-]. split; reflexivity.
Qed.

Lemma record_path
    (w : world) (ex : response -> dict -> result string) (d : dict) (s : fetcher)
    (d' : dict) (s' : fetcher) (paper_id : json) (r : paper_record) :
  (forall n u resp name,
     http w n u = Reply resp -> ex resp d = Ok name -> plain_name name = true) ->
  download_pdf w ex d s = (Ok (Downloaded, d'), s') ->
  make_record (output_dir s') paper_id d' = Ok r ->
  exists name l,
    plain_name name = true /\
    rec_filename r = JStr name /\
    rec_pdf_path r = dir_prefix (output_dir s) +:+ name /\
    files s' = rec_pdf_path r :: files s /\
    log s' = l ++ [Create (rec_pdf_path r)].
Proof.
  intros Hplain Hd Hr.
  destruct (download_pdf_downloaded w ex d s d' s' Hd)
    as (n & u & resp & name & l & Hhttp & _ & Hex & Ho & Hf & Hl & ->).
  destruct (target_path_in_dir (files s) (output_dir s) name
              (Hplain _ _ _ _ Hhttp Hex))
    as (name' & Hp' & Ht).
  apply make_record_path in Hr as [Hfn Hpath].
  rewrite Ht, (basename_in_dir _ _ Hp') in Hfn, Hpath.
  rewrite Ho, (path_join_plain _ _ Hp') in Hpath.
  exists name', l. rewrite Hpath, Hf, Hl, Ht. repeat split; assumption.
Qed.


(** X13: when the file names chosen for the responses of the servers
    have no slash, the file of a download is created directly in the
    output directory, and the record of the
    paper points to it: [pdf_path] is the path of the file just written,
    and [filename] its last component. *)
Theorem record_points_to_file
    (w : world) (ex : response -> dict -> result string) (d : dict) (s : fetcher)
    (d' : dict) (s' : fetcher) (paper_id : json) (r : paper_record) :
  (forall n u resp name,
     http w n u = Reply resp -> ex resp d = Ok name -> plain_name name = true) ->
  download_pdf w ex d s = (Ok (Downloaded, d'), s') ->
  make_record (output_dir s') paper_id d' = Ok r ->
  exists name l,
    plain_name name = true /\
    rec_filename r = JStr name /\
    rec_pdf_path r = dir_prefix (output_dir s) +:+ name /\
    files s' = rec_pdf_path r :: files s /\
    log s' = l ++ [Create (rec_pdf_path r)].
Proof. apply record_path. Qed.

Lemma record_points_to_file_witness :
  exists name l,
    plain_name name = true /\
    rec_filename
      {| rec_id := JStr "P1"; rec_title := JStr "Deep Learning: a (short) review";
         rec_authors := [JStr "Ada"]; rec_year := JNull; rec_url := JNull;
         rec_filename := JStr "Deep_Learning_a_short_review.pdf";
         rec_pdf_path := "papers/Deep_Learning_a_short_review.pdf" |} = JStr name /\
    "papers/Deep_Learning_a_short_review.pdf" = dir_prefix "papers" +:+ name /\
    ["papers/Deep_Learning_a_short_review.pdf"]
    = ["papers/Deep_Learning_a_short_review.pdf"] /\
    [Get "http://x/download?id=1"; Create "papers/Deep_Learning_a_short_review.pdf"]
    = l ++ [Create "papers/Deep_Learning_a_short_review.pdf"].
Proof.
  refine (record_points_to_file world_arxiv_200
            (extract_filename_from_response path_of_example) paper_titled
            (new_fetcher "papers" []) _ _ (JStr "P1") _ _ eq_refl eq_refl).
  intros n u resp name [= <-]. vm_compute. intros [= <-]. reflexivity.
Defined.

Lemma line_of_bare (f : string) : bare_name f = true -> line_of f = f.
Proof.
  induction f as [ | c f IH ]; [ reflexivity | ]. simpl.
  intros [[Hn _]%andb_true_iff Hf]%andb_true_iff.
  apply negb_true_iff in Hn. rewrite Hn, (IH Hf). reflexivity.
Qed.

Lemma rstrip_quotes_bare (f : string) : bare_name f = true -> rstrip_quotes f = f.
Proof.
  induction f as [ | c f IH ]; [ reflexivity | ]. simpl.
  intros [[_ Hq]%andb_true_iff Hf]%andb_true_iff.
  apply negb_true_iff in Hq. rewrite (IH Hf), Hq. destruct f; reflexivity.
Qed.

Lemma strip_quotes_bare (f : string) : bare_name f = true -> strip_quotes f = f.
Proof.
  intros H. unfold strip_quotes.
  replace (lstrip_quotes f) with f; [ apply rstrip_quotes_bare, H | ].
  destruct f as [ | c f ]; [ reflexivity | ]. simpl in *.
  apply andb_true_iff in H as [[_ Hq]%andb_true_iff _].
  apply negb_true_iff in Hq. rewrite Hq. reflexivity.
Qed.

Lemma first_filename_attachment (f : string) :
  f <> "" -> bare_name f = true ->
  first_filename ("attachment; filename=" +:+ f) = Some f.
Proof.
  intros Hne Hb. rewrite !append_cons. change ("" +:+ f) with f.
  cbn. rewrite (line_of_bare f Hb). destruct f; [ contradiction | reflexivity ].
Qed.

Lemma target_path_unused (fs : list string) (out name : string) :
  path_join out name ∉ fs -> target_path fs out name = path_join out name.
Proof.
  intros H. unfold target_path. destruct (splitext _) as [b e].
  destruct (length fs); simpl; rewrite (proj2 (path_exists_not fs _) H); reflexivity.
Qed.

Lemma endswith_append (a suffix : string) : endswith suffix (a +:+ suffix) = true.
Proof.
  unfold endswith. rewrite append_length.
  replace (String.length a + String.length suffix - String.length suffix)%nat
    with (String.length a) by lia.
  rewrite str_drop_app_ge by lia. rewrite Nat.sub_diag. simpl.
  rewrite String.eqb_refl, andb_true_r. apply Nat.leb_le. lia.
Qed.

Lemma path_stem_plain (p : string) : plain_name (path_stem p) = true.
Proof.
  unfold path_stem. destruct (_ && _).
  - apply str_all_take, basename_plain.
  - apply basename_plain.
Qed.

Lemma extractor_names
    (path_of : string -> string) (resp : response) (d : dict) :
  (forall cd, headers_get (headers resp) "Content-Disposition" = Some cd ->
              first_filename cd = None) ->
  truthy (get_or d "title" (JStr "")) = true ->
  match extract_filename_from_response path_of resp d with
  | Ok name =>
      plain_name name = true /\ endswith ".pdf" name = true /\
      (name = path_stem (path_of (url resp)) +:+ ".pdf" \/
       exists t, get d "title" = JStr t /\ name = clean_filename t +:+ ".pdf")
  | Raised => forall t, get d "title" <> JStr t
  end.
Proof.
  intros Hcd Ht. unfold extract_filename_from_response.
  destruct (headers_get (headers resp) "Content-Disposition") as [ cd | ];
    [ rewrite (Hcd cd eq_refl) | ].
  all: destruct (endswith ".pdf" (path_of (url resp)) && _).
  all: try (split; [ | split; [ apply endswith_append | left; reflexivity ] ];
            unfold plain_name; rewrite str_all_app;
            pose proof (path_stem_plain (path_of (url resp))) as Hp;
            unfold plain_name in Hp; rewrite Hp; reflexivity).
  all: rewrite Ht; revert Ht; unfold get_or, get;
    destruct (dict_lookup d "title") as [ [ | | | t | | ] | ];
    try discriminate; intros Ht; try (intros t'; discriminate).
  all: split; [ apply clean_filename_props | ];
    split; [ apply endswith_append | right; exists t; split; reflexivity ].
Qed.




(** X15: the server chooses where the file goes.  A response with the
    header [Content-Disposition: attachment; filename=f] is saved under
    the name [f], whatever the title and the URL; when [f] is an absolute
    path that is free, the file is created at [f] itself, outside the
    output directory. *)
Theorem content_disposition_names_path
    (w : world) (path_of : string -> string) (d : dict) (s : fetcher)
    (u : string) (resp : response) (f : string) :
  open_access_url d = JStr u -> u <> "" ->
  http w (requests (log s)) u = Reply resp -> status resp = 200 ->
  headers_get (headers resp) "Content-Disposition"
  = Some ("attachment; filename=" +:+ f) ->
  f <> "" -> bare_name f = true ->
  extract_filename_from_response path_of resp d = Ok f /\
  (startswith_sep f = true -> f ∉ files s ->
   io w (S (length (log s))) f = IoOk ->
   download_pdf w (extract_filename_from_response path_of) d s
   = (Ok (Downloaded, dict_set d "saved_filename" (JStr (basename f))),
      add_file f (emit (Create f) (emit (Get u) s)))).
Proof.
  intros Hu Hne Hr Hst Hcd Hf Hb.
  assert (Hex : extract_filename_from_response path_of resp d = Ok f).
  { unfold extract_filename_from_response.
    rewrite Hcd, (first_filename_attachment f Hf Hb), (strip_quotes_bare f Hb).
    reflexivity. }
  split; [ exact Hex | ]. intros Habs Hfree Hio.
  destruct (direct_download w (extract_filename_from_response path_of) d s u resp
              Hu Hne Hr) as [_ H].
  specialize (H f Hst Hex). cbv zeta in H.
  assert (Hp : target_path (files s) (output_dir s) f = f).
  { rewrite target_path_unused; unfold path_join; rewrite Habs;
      [ reflexivity | exact Hfree ]. }
  rewrite Hp, Hio in H. exact H.
Qed.

Lemma content_disposition_names_path_witness :
  download_pdf (world_named "attachment; filename=/tmp/x.pdf")
    (extract_filename_from_response path_of_example) paper_titled
    (new_fetcher "papers" [])
  = (Ok (Downloaded, dict_set paper_titled "saved_filename" (JStr "x.pdf")),
     {| output_dir := "papers"; visited_papers := []; last_request_time := 0;
        files := ["/tmp/x.pdf"];
        log := [Get "http://x/download?id=1"; Create "/tmp/x.pdf"] |}).
Proof.
  refine (proj2 (content_disposition_names_path
            (world_named "attachment; filename=/tmp/x.pdf") path_of_example
            paper_titled (new_fetcher "papers" []) "http://x/download?id=1"
            {| status := 200; json_body := None;
               headers := [("content-disposition", "attachment; filename=/tmp/x.pdf")];
               url := "" |} "/tmp/x.pdf"
            eq_refl _ eq_refl eq_refl eq_refl _ eq_refl) eq_refl _ eq_refl).
  - discriminate.
  - discriminate.
  - apply path_exists_not. reflexivity.
Defined.

(** ** The interval between requests, one caller at a time *)

(** X16: a call of [wait_for_rate_limit] that no other coroutine
    interleaves with returns with [last_request_time] at least
    [request_interval] after its previous value, provided the sleep lasts
    as long as asked; it sleeps at most once, for no more than the
    interval when the clock has not gone back, and sends nothing. *)
Theorem sequential_calls_spaced (w : world) (s : fetcher) :
  sleep_honoured w s ->
  exists s',
    wait_for_rate_limit w s = (Ok tt, s') /\
    last_request_time s + request_interval <= last_request_time s' /\
    requests (log s') = requests (log s) /\
    (log s' = log s \/
     exists d, log s' = log s ++ [Sleep RateLimit d] /\ 0 < d /\
               (last_request_time s <= clock w (length (log s)) ->
                d <= request_interval)).
Proof.
  intros Hs. unfold sleep_honoured in Hs.
  unfold wait_for_rate_limit, bind, time_time, sleep.
  destruct (rate_limit_delay _ _) as [ d | ] eqn:Hd.
  - specialize (Hs d eq_refl). eexists. split; [ reflexivity | ].
    unfold rate_limit_delay in Hd.
    destruct (_ <? request_interval) eqn:Hlt; [ | discriminate ].
    injection Hd as <-. apply Z.ltb_lt in Hlt.
    cbn [log emit last_request_time set_last_request_time].
    rewrite length_app, Nat.add_1_r. cbn [length].
    split; [ lia | ]. split; [ rewrite requests_app; simpl; lia | ].
    right. eexists. split; [ reflexivity | ]. split; lia.
  - eexists. split; [ reflexivity | ].
    unfold rate_limit_delay in Hd.
    destruct (_ <? request_interval) eqn:Hlt; [ discriminate | ].
    apply Z.ltb_ge in Hlt. simpl. split; [ lia | ]. split; [ reflexivity | ].
    left. reflexivity.
Qed.

Lemma sequential_calls_spaced_witness :
  exists s',
    wait_for_rate_limit world_arxiv_200 fetcher_recent = (Ok tt, s') /\
    last_request_time fetcher_recent + request_interval <= last_request_time s'.
Proof.
  destruct (sequential_calls_spaced world_arxiv_200 fetcher_recent) as (s' & H & Hl & _).
  - intros d Hd. vm_compute in Hd. injection Hd as <-. vm_compute. discriminate.
  - exists s'. split; assumption.
Defined.

(** ** The crawler: nothing is undone *)

Lemma fetcher_grows_refl (s : fetcher) : fetcher_grows s s.
Proof.
  split; [ reflexivity | ].
  split; [ exists []; symmetry; apply app_nil_r | ].
  split; exists []; reflexivity.
Qed.

Lemma fetcher_grows_trans (s1 s2 s3 : fetcher) :
  fetcher_grows s1 s2 -> fetcher_grows s2 s3 -> fetcher_grows s1 s3.
Proof.
  intros (Ho & (l & Hl) & (v & Hv) & (f & Hf))
         (Ho' & (l' & Hl') & (v' & Hv') & (f' & Hf')).
  split; [ congruence | ].
  split; [ exists (l ++ l'); rewrite Hl', Hl, app_assoc; reflexivity | ].
  split; [ exists (v' ++ v); rewrite Hv', Hv, app_assoc; reflexivity | ].
  exists (f' ++ f). rewrite Hf', Hf, app_assoc. reflexivity.
Qed.

Lemma grows_refl (c : crawl) : grows c c.
Proof. split; [ apply fetcher_grows_refl | ]. split; [ lia | auto ]. Qed.

Lemma grows_trans (c1 c2 c3 : crawl) : grows c1 c2 -> grows c2 c3 -> grows c1 c3.
Proof.
  intros (Hs & Hlen & Ht) (Hs' & Hlen' & Ht').
  split; [ eapply fetcher_grows_trans; eassumption | ].
  split; [ lia | eauto ].
Qed.

Lemma fetcher_grows_emit (e : event) (s : fetcher) : fetcher_grows s (emit e s).
Proof.
  split; [ reflexivity | ]. split; [ exists [e]; reflexivity | ].
  split; exists []; reflexivity.
Qed.

Lemma fetcher_grows_extends (s s' : fetcher) :
  extends s s' -> (exists f, files s' = f ++ files s) -> fetcher_grows s s'.
Proof.
  intros (Ho & Hv & l & Hl & _) Hf.
  split; [ exact Ho | ]. split; [ exists l; exact Hl | ].
  split; [ exists []; exact Hv | exact Hf ].
Qed.

Lemma keeps_files_wait_for_rate_limit (w : world) : keeps_files (wait_for_rate_limit w).
Proof.
  intros s. unfold wait_for_rate_limit, bind, time_time, sleep.
  destruct (rate_limit_delay _ _); reflexivity.
Qed.

Lemma keeps_files_sleep (w : world) site ms : keeps_files (sleep site ms).
Proof. intros s. reflexivity. Qed.

Lemma keeps_files_fetch_loop (w : world) paper_id retries todo :
  forall attempt, keeps_files (fetch_loop w paper_id retries todo attempt).
Proof.
  induction todo as [ | todo IH ]; intros attempt; simpl.
  - apply keeps_files_silent, silent_ret.
  - apply keeps_files_bind.
    + apply keeps_files_try_except.
      * unfold fetch_attempt. apply keeps_files_bind;
          [ apply keeps_files_wait_for_rate_limit | intros _ ].
        apply keeps_files_bind; [ apply keeps_files_session_get | intros r ].
        destruct (status r =? 200); [ repeat keeps_files_step | ].
        destruct (status r =? 429); [ | repeat keeps_files_step ].
        apply keeps_files_bind; [ apply (keeps_files_sleep w) | intros _ ].
        repeat keeps_files_step.
      * destruct (attempt <? retries - 1); [ | repeat keeps_files_step ].
        apply keeps_files_bind; [ apply (keeps_files_sleep w) | intros _ ].
        repeat keeps_files_step.
    + intros [ v | ]; [ repeat keeps_files_step | apply IH ].
Qed.

(** The coroutine [i], which had not ended, takes a turn: it changes the
    fetcher, becomes [new], and may create the coroutines [extra]. *)
Lemma grows_turn (c : crawl) (i : nat) (old new : task) (s' : fetcher)
    (extra : list task) :
  pool c !! i = Some old -> terminal old = false ->
  fetcher_grows (self c) s' ->
  grows c {| self := s'; pool := <[i := new]> (pool c) ++ extra |}.
Proof.
  intros Hi Hold Hs. split; [ exact Hs | ]. cbn [pool]. split.
  - rewrite length_app, length_insert. lia.
  - intros j t Hj Ht. rewrite lookup_app_l
      by (rewrite length_insert; eapply lookup_lt_Some; exact Hj).
    destruct (Nat.eq_dec i j) as [ -> | Hne ].
    + rewrite Hi in Hj. injection Hj as ->. congruence.
    + rewrite list_lookup_insert_ne by exact Hne. exact Hj.
Qed.

Lemma grows_turn_same (c : crawl) (i : nat) (old new : task) (s' : fetcher) :
  pool c !! i = Some old -> terminal old = false ->
  fetcher_grows (self c) s' ->
  grows c {| self := s'; pool := <[i := new]> (pool c) |}.
Proof.
  intros Hi Hold Hs.
  pose proof (grows_turn c i old new s' [] Hi Hold Hs) as H.
  rewrite app_nil_r in H. exact H.
Qed.

Lemma keeps_files_download_pdf_begin (w : world) ex (d : dict) :
  keeps_files (download_pdf_begin w ex d).
Proof.
  unfold download_pdf_begin. apply keeps_files_try_except;
    [ | apply keeps_files_silent, silent_ret ].
  apply keeps_files_bind; [ apply keeps_files_resolve_pdf_url | intros u ].
  destruct (negb (truthy u)); [ apply keeps_files_silent, silent_ret | ].
  unfold choose_path.
  apply keeps_files_bind; [ apply keeps_files_session_get_value | intros r ].
  destruct (status r =? 200); [ | apply keeps_files_silent, silent_ret ].
  apply keeps_files_bind; [ apply keeps_files_silent, silent_lift | ].
  intros filename s. reflexivity.
Qed.

Lemma download_pdf_end_files (w : world) (d : dict) (p : string) (s : fetcher) :
  exists f, files (snd (download_pdf_end w d p s)) = f ++ files s.
Proof.
  rewrite download_pdf_end_cases.
  destruct (io w (length (log s)) p); [ exists [p] | exists [] | exists [p] ];
    reflexivity.
Qed.

Lemma downloading_id_running (t : task) (v : json) :
  downloading_id t = Some v ->
  terminal t = false /\ results_of t = [] /\ children_of_task t = [].
Proof. destruct t; try discriminate; auto. Qed.

Lemma grows_downloaded (c : crawl) (i : nat) (old : task) v d
    (r : result (outcome * dict) * fetcher) :
  pool c !! i = Some old -> terminal old = false ->
  fetcher_grows (self c) (snd r) ->
  grows c (downloaded i v d r c).
Proof.
  intros Hi Hold Hg. unfold downloaded.
  destruct r as [[ [o data'] | ] s1]; cbn [snd] in Hg.
  - assert (Hg' : fetcher_grows (self c) (emit (DownloadPdf v (succeeded o)) s1)).
    { eapply fetcher_grows_trans; [ exact Hg | apply fetcher_grows_emit ]. }
    destruct (after_download _ _ _ _ _) as [ [results [ | t0 tasks ]] | ].
    + apply (grows_turn_same c i _ _ _ Hi Hold Hg').
    + apply (grows_turn c i _ _ _ _ Hi Hold Hg').
    + apply (grows_turn_same c i _ _ _ Hi Hold Hg').
  - apply (grows_turn_same c i _ _ _ Hi Hold Hg).
Qed.

Lemma step_grows (w : world) ex (i : nat) (c c' : crawl) :
  step w ex i c = Some c' -> grows c c'.
Proof.
  unfold step. destruct (pool c !! i) as [ t | ] eqn:Hi; [ | discriminate ].
  destruct t as [ v d | v d | v d data | v d data fp | results children | | ];
    try discriminate.
  - destruct (enter v d (self c)) as [t s'] eqn:He. intros [= <-].
    apply (grows_turn_same c i _ t s' Hi eq_refl).
    unfold enter in He.
    destruct (negb (hashable v)); [ | destruct (_ || _) ]; injection He as <- <-;
      try apply fetcher_grows_refl.
    split; [ reflexivity | ].
    split; [ exists []; symmetry; apply app_nil_r | ].
    split; [ exists [v]; reflexivity | exists []; reflexivity ].
  - destruct (fetched w v d (self c)) as [t s'] eqn:He. intros [= <-].
    apply (grows_turn_same c i _ t s' Hi eq_refl).
    unfold fetched in He.
    pose proof (quiet_fetch_paper_details w v retries_default (self c)) as Hq.
    pose proof (keeps_files_fetch_loop w v retries_default (Z.to_nat retries_default) 0
                  (self c)) as Hf.
    fold (fetch_paper_details w v retries_default) in Hf.
    destruct (fetch_paper_details w v retries_default (self c)) as [[ data | ] s1];
      cbn [snd] in Hq, Hf; injection He as <- <-.
    + eapply fetcher_grows_trans; [ | apply fetcher_grows_emit ].
      apply fetcher_grows_extends; [ exact Hq | exists []; exact Hf ].
    + apply fetcher_grows_extends; [ exact Hq | exists []; exact Hf ].
  - intros [= <-]. unfold download_started.
    pose proof (quiet_download_pdf_begin w ex data (self c)) as Hq.
    pose proof (keeps_files_download_pdf_begin w ex data (self c)) as Hf.
    assert (Hg : fetcher_grows (self c) (snd (download_pdf_begin w ex data (self c))))
      by (apply fetcher_grows_extends; [ exact Hq | exists []; exact Hf ]).
    destruct (download_pdf_begin w ex data (self c)) as [[ [o data' | p] | ] s1];
      cbn [snd] in Hg.
    + apply (grows_downloaded c i _ v d (Ok (o, data'), s1) Hi eq_refl Hg).
    + apply (grows_turn_same c i _ _ _ Hi eq_refl Hg).
    + apply (grows_downloaded c i _ v d (Raised, s1) Hi eq_refl Hg).
  - intros [= <-]. apply (grows_downloaded c i _ v d _ Hi eq_refl).
    apply fetcher_grows_extends;
      [ apply quiet_download_pdf_end | apply download_pdf_end_files ].
  - destruct (gather (pool c) children) as [ [ rs | ] | ]; [ | | discriminate ];
      intros [= <-]; unfold set_task;
      apply (grows_turn_same c i _ _ _ Hi eq_refl), fetcher_grows_refl.
Qed.

Lemma run_grows (w : world) (ex : response -> dict -> result string)
    (sched : list nat) (c : crawl) :
  grows c (run w ex sched c).
Proof.
  revert c. induction sched as [ | i sched IH ]; intros c; simpl; [ apply grows_refl | ].
  destruct (step w ex i c) as [ c' | ] eqn:Hs; [ | apply IH ].
  eapply grows_trans; [ eapply step_grows; exact Hs | apply IH ].
Qed.

(** X17: a crawl never undoes anything, under any schedule and whatever
    the network answers: the output directory stays the same, the log, the
    visited set and the paths on disk only grow, coroutines are only
    added, and a coroutine that has returned or failed stays as it is. *)
Theorem crawl_only_grows (w : world) (ex : response -> dict -> result string)
    (sched : list nat) (c : crawl) :
  grows c (run w ex sched c).
Proof. apply run_grows. Qed.

(** ** What [process_paper] returns *)

Lemma downloaded_ok_app (l l' : list event) :
  downloaded_ok (l ++ l') = downloaded_ok l ++ downloaded_ok l'.
Proof. unfold downloaded_ok. apply omap_app. Qed.

Lemma downloaded_ok_io (l : list event) : Forall io_event l -> downloaded_ok l = [].
Proof.
  induction 1 as [ | e l He _ IH ]; [ reflexivity | ].
  destruct e; try contradiction; exact IH.
Qed.

Lemma extends_downloaded_ok (s s' : fetcher) :
  extends s s' -> downloaded_ok (log s') = downloaded_ok (log s).
Proof.
  intros (_ & _ & l & -> & Hio).
  rewrite downloaded_ok_app, (downloaded_ok_io l Hio). apply app_nil_r.
Qed.

Lemma after_download_results out paper_id depth (ok : bool) d results tasks :
  after_download out paper_id depth ok d = Ok (results, tasks) ->
  map rec_id results = (if ok then [paper_id] else []) /\ Forall fresh tasks.
Proof.
  unfold after_download. intros H.
  assert (Hstart : forall ids : list json,
             Forall fresh (map (fun c => Start c (depth - 1)) ids)).
  { intros ids. induction ids; constructor; auto. repeat split. }
  destruct ok.
  - destruct (make_record out paper_id d) as [ r | ] eqn:Hr; [ | discriminate ].
    destruct (children_of d) as [ ids | ]; [ | discriminate ].
    injection H as <- <-. simpl. rewrite (make_record_id _ _ _ _ Hr). auto.
  - destruct (children_of d) as [ ids | ]; [ | discriminate ].
    injection H as <- <-. auto.
Qed.

Lemma turn_downloaded (c : crawl) (i : nat) (old : task) v d
    (r : result (outcome * dict) * fetcher) :
  pool c !! i = Some old -> downloading_id old = Some v ->
  extends (self c) (snd r) ->
  exists added,
    turn (pool c) i (pool (downloaded i v d r c)) added /\
    downloaded_ok (log (self (downloaded i v d r c)))
    = downloaded_ok (log (self c)) ++ added.
Proof.
  intros Hi Hold Hq. unfold downloaded.
  destruct (downloading_id_running old v Hold) as (Hterm & Hres & Hch).
  destruct r as [[ [o data'] | ] s1]; cbn [snd] in Hq.
  - exists (if succeeded o then [v] else []).
    assert (Hlog : downloaded_ok (log (emit (DownloadPdf v (succeeded o)) s1))
                   = downloaded_ok (log (self c)) ++ (if succeeded o then [v] else [])).
    { simpl. rewrite downloaded_ok_app, (extends_downloaded_ok _ _ Hq).
      destruct (succeeded o); reflexivity. }
    destruct (after_download _ _ _ _ _) as [ [results tasks] | ] eqn:Ha.
    + apply after_download_results in Ha as [Hr Ht].
      pose proof (turn_download (pool c) i old v (succeeded o) results tasks
                    Hi Hold Hr Ht) as Hturn.
      destruct tasks as [ | t0 tasks ]; cbn [self pool].
      * rewrite app_nil_r in Hturn. split; [ exact Hturn | exact Hlog ].
      * split; [ exact Hturn | exact Hlog ].
    + cbn [self pool].
      split; [ eapply turn_download_raises; eassumption | exact Hlog ].
  - exists []. cbn [self pool]. split.
    + eapply turn_quiet; try exact Hi; try assumption; reflexivity.
    + rewrite (extends_downloaded_ok _ _ Hq). symmetry. apply app_nil_r.
Qed.

(** Every turn of the event loop is one of the turns of [turn]. *)
Lemma step_turn (w : world) ex (i : nat) (c c' : crawl) :
  step w ex i c = Some c' ->
  exists added,
    turn (pool c) i (pool c') added /\
    downloaded_ok (log (self c')) = downloaded_ok (log (self c)) ++ added.
Proof.
  unfold step. destruct (pool c !! i) as [ t | ] eqn:Hi; [ | discriminate ].
  destruct t as [ v d | v d | v d data | v d data fp | results children | | ];
    try discriminate.
  - destruct (enter v d (self c)) as [t s'] eqn:He. intros [= <-]. exists [].
    unfold enter in He. cbn [self pool].
    destruct (negb (hashable v)); [ | destruct (_ || _) ]; injection He as <- <-;
      (split; [ eapply turn_quiet; try exact Hi; reflexivity
              | symmetry; apply app_nil_r ]).
  - destruct (fetched w v d (self c)) as [t s'] eqn:He. intros [= <-]. exists [].
    unfold fetched in He. cbn [self pool].
    pose proof (quiet_fetch_paper_details w v retries_default (self c)) as Hq.
    destruct (fetch_paper_details w v retries_default (self c)) as [[ data | ] s1];
      cbn [snd] in Hq; injection He as <- <-.
    + split.
      * eapply turn_quiet; try exact Hi; try reflexivity;
          destruct data as [ [ | kv data ] | ]; reflexivity.
      * simpl. rewrite downloaded_ok_app, (extends_downloaded_ok _ _ Hq).
        reflexivity.
    + split; [ eapply turn_quiet; try exact Hi; reflexivity | ].
      rewrite (extends_downloaded_ok _ _ Hq). symmetry. apply app_nil_r.
  - intros [= <-]. unfold download_started.
    pose proof (quiet_download_pdf_begin w ex data (self c)) as Hq.
    destruct (download_pdf_begin w ex data (self c)) as [[ [o data' | p] | ] s1];
      cbn [snd] in Hq.
    + apply (turn_downloaded c i _ v d (Ok (o, data'), s1) Hi eq_refl Hq).
    + exists []. cbn [self pool]. split.
      * eapply turn_quiet; try exact Hi; reflexivity.
      * rewrite (extends_downloaded_ok _ _ Hq). symmetry. apply app_nil_r.
    + apply (turn_downloaded c i _ v d (Raised, s1) Hi eq_refl Hq).
  - intros [= <-]. apply (turn_downloaded c i _ v d _ Hi eq_refl).
    apply quiet_download_pdf_end.
  - unfold gather. destruct (existsb is_failed _) eqn:Hf.
    + intros [= <-]. exists []. unfold set_task. cbn [self pool].
      split; [ eapply turn_gather_raises; eassumption | symmetry; apply app_nil_r ].
    + destruct (collect _) as [ rs | ] eqn:Hc; [ | discriminate ].
      intros [= <-]. exists []. unfold set_task. cbn [self pool].
      split; [ eapply turn_gather; eassumption | symmetry; apply app_nil_r ].
Qed.

Lemma awaited_spec (p : list task) (j : nat) :
  awaited p j = true <-> exists g t, p !! g = Some t /\ j ∈ children_of_task t.
Proof.
  unfold awaited. rewrite existsb_exists. split.
  - intros (t & Hin & Hex). apply existsb_exists in Hex as (x & Hx & E).
    apply Nat.eqb_eq in E. subst x.
    apply list_elem_of_In, list_elem_of_lookup_1 in Hin as (g & Hg).
    exists g, t. split; [ exact Hg | apply list_elem_of_In, Hx ].
  - intros (g & t & Hg & Hj). exists t. split.
    + apply list_elem_of_In. eapply list_elem_of_lookup_2. exact Hg.
    + apply existsb_exists. exists j.
      split; [ apply list_elem_of_In, Hj | apply Nat.eqb_refl ].
Qed.

Lemma has_failed_spec (p : list task) :
  has_failed p = true <-> exists i, p !! i = Some Failed.
Proof.
  unfold has_failed. rewrite existsb_exists. split.
  - intros (t & Hin & Ht). destruct t; try discriminate.
    apply list_elem_of_In, list_elem_of_lookup_1 in Hin as (i & Hi). eauto.
  - intros (i & Hi). exists Failed. split; [ | reflexivity ].
    apply list_elem_of_In. eapply list_elem_of_lookup_2. exact Hi.
Qed.

Lemma lookup_turn (p : list task) (i : nat) (new : task) (extra : list task)
    (g : nat) (t : task) :
  (i < length p)%nat ->
  (<[i := new]> p ++ extra) !! g = Some t ->
  (g = i /\ t = new) \/ (g <> i /\ p !! g = Some t) \/
  ((length p <= g)%nat /\ extra !! (g - length p)%nat = Some t).
Proof.
  intros Hi H. destruct (Nat.lt_ge_cases g (length p)) as [ Hg | Hg ].
  - rewrite lookup_app_l in H by (rewrite length_insert; exact Hg).
    destruct (Nat.eq_dec i g) as [ -> | Hne ].
    + rewrite list_lookup_insert_eq in H by exact Hg. injection H as <-. auto.
    + rewrite list_lookup_insert_ne in H by exact Hne. auto.
  - rewrite lookup_app_r in H by (rewrite length_insert; exact Hg).
    rewrite length_insert in H. auto.
Qed.

Lemma lookup_turn_old (p : list task) (i : nat) (new : task) (extra : list task)
    (g : nat) (t : task) :
  g <> i -> p !! g = Some t -> (<[i := new]> p ++ extra) !! g = Some t.
Proof.
  intros Hne Hg. rewrite lookup_app_l
    by (rewrite length_insert; eapply lookup_lt_Some; exact Hg).
  rewrite list_lookup_insert_ne by auto. exact Hg.
Qed.

Lemma lookup_turn_new (p : list task) (i : nat) (new : task) (extra : list task) :
  (i < length p)%nat -> (<[i := new]> p ++ extra) !! i = Some new.
Proof.
  intros Hi. rewrite lookup_app_l by (rewrite length_insert; exact Hi).
  apply list_lookup_insert_eq, Hi.
Qed.

Lemma collect_returned (p : list task) (ch : list nat) (collected : list paper_record) :
  collect (map (fun j => p !! j) ch) = Some collected ->
  (forall j, j ∈ ch -> exists r, p !! j = Some (Returned r)) /\
  collected = flat_map (results_at p) ch.
Proof.
  revert collected. induction ch as [ | j ch IH ]; simpl; intros collected.
  - intros [= <-]. split; [ intros j H; inversion H | reflexivity ].
  - destruct (p !! j) as [ t | ] eqn:Hj; simpl; [ | discriminate ].
    destruct t as [ | | | | | r | ]; simpl; try discriminate.
    destruct (collect _) as [ rs' | ]; [ | discriminate ].
    intros [= <-]. destruct (IH rs' eq_refl) as [Hall ->]. split.
    + intros j' [-> | H]%elem_of_cons; [ eauto | auto ].
    + assert (E : results_at p j = r) by (unfold results_at; rewrite Hj; reflexivity).
      rewrite E. reflexivity.
Qed.

(** What the turns have in common.  The coroutine [i] had not ended; it
    becomes [new] and creates the coroutines [extra], which it then waits
    for.  Unless it fails, the coroutines it waited for have all returned;
    it holds what it held, its own record if it downloaded its paper, and
    the records of the coroutines it waited for. *)
Lemma turn_shape (p : list task) (i : nat) (p' : list task) (added : list json) :
  turn p i p' added ->
  exists old new extra,
    p !! i = Some old /\ terminal old = false /\
    p' = <[i := new]> p ++ extra /\ Forall fresh extra /\
    children_of_task new = seq (length p) (length extra) /\
    (new <> Failed ->
     (forall j, j ∈ children_of_task old -> exists r, p !! j = Some (Returned r)) /\
     exists own,
       results_of new
       = results_of old ++ own ++ flat_map (results_at p) (children_of_task old) /\
       map rec_id own = added).
Proof.
  intros [ old new Hi Hterm Hro Hco Hrn Hcn
         | old v ok results extra Hi Hold Hr Hx
         | old v ok Hi Hold
         | rs ch collected Hi Hf Hc
         | rs ch Hi Hf ].
  - exists old, new, []. rewrite app_nil_r, Hcn, Hro, Hco, Hrn.
    split; [ exact Hi | ]. split; [ exact Hterm | ]. split; [ reflexivity | ].
    split; [ constructor | ]. split; [ reflexivity | ].
    intros _. split; [ intros j H; inversion H | ].
    exists []. split; reflexivity.
  - destruct (downloading_id_running old v Hold) as (Hterm & Hres & Hch).
    exists old. eexists. exists extra.
    split; [ exact Hi | ]. split; [ exact Hterm | ]. split; [ reflexivity | ].
    split; [ exact Hx | ]. split; [ destruct extra; reflexivity | ].
    rewrite Hres, Hch.
    intros _. split; [ intros j H; inversion H | ].
    exists results. split; [ | exact Hr ].
    destruct extra; simpl; rewrite app_nil_r; reflexivity.
  - destruct (downloading_id_running old v Hold) as (Hterm & Hres & Hch).
    exists old, Failed, []. rewrite app_nil_r.
    split; [ exact Hi | ]. split; [ exact Hterm | ]. split; [ reflexivity | ].
    split; [ constructor | ]. split; [ reflexivity | ]. congruence.
  - destruct (collect_returned p ch collected Hc) as [Hall ->].
    exists (Gathering rs ch). eexists. exists []. rewrite app_nil_r.
    split; [ exact Hi | ]. split; [ reflexivity | ]. split; [ reflexivity | ].
    split; [ constructor | ]. split; [ reflexivity | ].
    intros _. split; [ exact Hall | ]. exists []. split; reflexivity.
  - exists (Gathering rs ch), Failed, []. rewrite app_nil_r.
    split; [ exact Hi | ]. split; [ reflexivity | ]. split; [ reflexivity | ].
    split; [ constructor | ]. split; [ reflexivity | ]. congruence.
Qed.

Lemma flat_map_ext_elem {A B} (f g : A -> list B) (l : list A) :
  (forall x, x ∈ l -> f x = g x) -> flat_map f l = flat_map g l.
Proof.
  induction l as [ | a l IH ]; intros H; [ reflexivity | ]. simpl.
  rewrite (H a) by left. rewrite IH; [ reflexivity | ].
  intros x Hx. apply H. right. exact Hx.
Qed.

Lemma flat_map_nil {A B} (f : A -> list B) (l : list A) :
  (forall x, x ∈ l -> f x = []) -> flat_map f l = [].
Proof.
  induction l as [ | a l IH ]; intros H; [ reflexivity | ]. simpl.
  rewrite (H a) by left. apply IH. intros x Hx. apply H. right. exact Hx.
Qed.

(** Two families of lists that differ only at the indices [ixs] have the
    same rest. *)
Lemma flat_map_modify {A} (f f' : nat -> list A) (n : nat) (ixs : list nat) :
  NoDup ixs -> (forall x, x ∈ ixs -> (x < n)%nat) ->
  (forall j, (j < n)%nat -> j ∉ ixs -> f' j = f j) ->
  exists rest, flat_map f (seq 0 n) ≡ₚ flat_map f ixs ++ rest /\
               flat_map f' (seq 0 n) ≡ₚ flat_map f' ixs ++ rest.
Proof.
  intros Hnd Hlt Hsame.
  assert (Hsub : ixs ⊆+ seq 0 n).
  { apply NoDup_submseteq; [ exact Hnd | ].
    intros x Hx. apply elem_of_seq. specialize (Hlt x Hx). lia. }
  apply submseteq_Permutation in Hsub as (k & Hk).
  exists (flat_map f k). split.
  - rewrite Hk, flat_map_app. reflexivity.
  - rewrite Hk, flat_map_app. apply Permutation_app_head.
    rewrite (flat_map_ext_elem f' f k); [ reflexivity | ].
    intros j Hj. apply Hsame.
    + assert (H : j ∈ seq 0 n) by (rewrite Hk; apply elem_of_app; auto).
      apply elem_of_seq in H. lia.
    + pose proof (NoDup_seq 0 n) as Hn. rewrite Hk in Hn.
      apply NoDup_app in Hn as (_ & Hdis & _). intros Hj'. exact (Hdis j Hj' Hj).
Qed.

Lemma perm_insert {A} (a o t : list A) : a ++ o ++ t ≡ₚ (a ++ t) ++ o.
Proof. rewrite <- app_assoc. apply Permutation_app_head, Permutation_app_comm. Qed.

Lemma awaited_old (p : list task) (i : nat) (old : task) (j : nat) :
  p !! i = Some old ->
  awaited p j = true <->
  j ∈ children_of_task old \/
  exists g t, g <> i /\ p !! g = Some t /\ j ∈ children_of_task t.
Proof.
  intros Hi. rewrite awaited_spec. split.
  - intros (g & t & Hg & Hj). destruct (Nat.eq_dec g i) as [ -> | Hne ].
    + left. congruence.
    + right. eauto.
  - intros [ Hj | (g & t & _ & Hg & Hj) ]; eauto.
Qed.

Lemma awaited_turn (p : list task) (i : nat) (old new : task) (extra : list task)
    (j : nat) :
  p !! i = Some old -> Forall fresh extra ->
  awaited (<[i := new]> p ++ extra) j = true <->
  j ∈ children_of_task new \/
  exists g t, g <> i /\ p !! g = Some t /\ j ∈ children_of_task t.
Proof.
  intros Hi Hx. pose proof (lookup_lt_Some _ _ _ Hi) as Hlt.
  rewrite awaited_spec. split.
  - intros (g & t & Hg & Hj).
    destruct (lookup_turn p i new extra g t Hlt Hg)
      as [ (-> & ->) | [ (Hne & Hg') | (_ & Hg') ] ].
    + left. exact Hj.
    + right. exists g, t. auto.
    + rewrite Forall_forall in Hx.
      destruct (Hx t) as (_ & _ & Hc); [ eapply list_elem_of_lookup_2; exact Hg' | ].
      rewrite Hc in Hj. inversion Hj.
  - intros [ Hj | (g & t & Hne & Hg & Hj) ].
    + exists i, new. split; [ apply lookup_turn_new, Hlt | exact Hj ].
    + exists g, t. split; [ apply lookup_turn_old; assumption | exact Hj ].
Qed.

Lemma doomed_not_returned (p : list task) (j : nat) (r : list paper_record) :
  doomed p j -> p !! j = Some (Returned r) -> False.
Proof. intros [ i H | g rs ch j' H _ _ ]; congruence. Qed.

(** A turn does not save a doomed coroutine. *)
Lemma doomed_turn (p : list task) (i : nat) (p' : list task) (added : list json) :
  turn p i p' added -> forall j, doomed p j -> doomed p' j.
Proof.
  intros Ht. apply turn_shape in Ht
    as (old & new & extra & Hi & Hold & -> & Hx & Hc & Hnf).
  pose proof (lookup_lt_Some _ _ _ Hi) as Hlt.
  induction 1 as [ j Hj | g rs ch j Hg Hj Hd IH ].
  - apply doomed_failed. apply lookup_turn_old; [ | exact Hj ].
    intros ->. rewrite Hi in Hj. injection Hj as ->. discriminate.
  - destruct (Nat.eq_dec g i) as [ -> | Hne ].
    + rewrite Hi in Hg. injection Hg as ->.
      assert (Hdec : new = Failed \/ new <> Failed)
        by (destruct new; auto; right; discriminate).
      destruct Hdec as [ -> | Hn ].
      * apply doomed_failed, lookup_turn_new, Hlt.
      * destruct (Hnf Hn) as [Hall _]. destruct (Hall j Hj) as (r & Hr).
        destruct (doomed_not_returned p j r Hd Hr).
    + eapply doomed_await; [ apply lookup_turn_old; eassumption | exact Hj | exact IH ].
Qed.

Lemma attached_spec (p : list task) (j : nat) :
  attached p j = true <-> j = 0%nat \/ awaited p j = true.
Proof. unfold attached. rewrite orb_true_iff, Nat.eqb_eq. reflexivity. Qed.

(** Before any failure every coroutine that is still due is linked to the
    call of the user by the coroutines that wait for it; if it is doomed,
    so is that call. *)
Lemma doom_rises (p : list task) (oks : list json) :
  tree_inv p oks -> has_failed p = false ->
  forall (p' : list task) (j : nat),
    attached p j = true ->
    (forall g t, (g < j)%nat -> p !! g = Some t -> p' !! g = Some t) ->
    doomed p' j -> doomed p' 0.
Proof.
  intros Inv Hnf p' j. induction j as [j IH] using lt_wf_ind. intros Hatt Hsame Hd.
  apply attached_spec in Hatt as [ -> | Haw ]; [ exact Hd | ].
  apply awaited_spec in Haw as (g & t & Hg & Hj).
  destruct t as [ | | | | rs ch | | ]; simpl in Hj; try (inversion Hj; fail).
  destruct (ti_children p oks Inv g rs ch Hg) as [_ Hb]. specialize (Hb j Hj).
  apply (IH g); [ lia | | | ].
  - eapply (ti_attached p oks Inv Hnf); [ exact Hg | reflexivity ].
  - intros g' t' Hlt Hg'. apply Hsame; [ lia | exact Hg' ].
  - eapply doomed_await; [ apply Hsame; [ lia | exact Hg ] | exact Hj | exact Hd ].
Qed.

(** Every turn keeps the invariant. *)
Lemma turn_inv (p : list task) (oks : list json) (i : nat) (p' : list task)
    (added : list json) :
  tree_inv p oks -> turn p i p' added -> tree_inv p' (oks ++ added).
Proof.
  intros Inv Ht. pose proof (doomed_turn p i p' added Ht) as Hdoom.
  apply turn_shape in Ht as (old & new & extra & Hi & Hold & -> & Hx & Hc & Hshape).
  pose proof (lookup_lt_Some _ _ _ Hi) as Hlt.
  assert (Hfresh : forall j t, extra !! j = Some t -> fresh t).
  { intros j t Hj. rewrite Forall_forall in Hx. apply Hx.
    eapply list_elem_of_lookup_2; exact Hj. }
  assert (Hch_old : forall j, j ∈ children_of_task old -> (i < j < length p)%nat).
  { intros j Hj.
    destruct old as [ | | | | rs ch | | ]; simpl in Hj; try (inversion Hj; fail).
    destruct (ti_children p oks Inv i rs ch Hi) as [_ Hb]. apply Hb, Hj. }
  assert (Hnd_old : NoDup (children_of_task old)).
  { destruct old as [ | | | | rs ch | | ]; simpl; try constructor.
    apply (ti_children p oks Inv i rs ch Hi). }
  assert (Hfail : has_failed (<[i := new]> p ++ extra) = false ->
                  has_failed p = false /\ new <> Failed).
  { intros Hf. split.
    - destruct (has_failed p) eqn:E; [ | reflexivity ].
      apply has_failed_spec in E as (f & Hf').
      assert (H : has_failed (<[i := new]> p ++ extra) = true).
      { apply has_failed_spec. exists f. apply lookup_turn_old; [ | exact Hf' ].
        intros ->. rewrite Hi in Hf'. injection Hf' as ->. discriminate. }
      congruence.
    - intros ->. assert (H : has_failed (<[i := Failed]> p ++ extra) = true).
      { apply has_failed_spec. exists i. apply lookup_turn_new, Hlt. }
      congruence. }
  assert (Hup : forall j, awaited p j = true -> j ∉ children_of_task old ->
                          awaited (<[i := new]> p ++ extra) j = true).
  { intros j Ha Hj.
    apply (awaited_old p i old j Hi) in Ha as [ Ha | Ha ]; [ contradiction | ].
    apply (awaited_turn p i old new extra j Hi Hx). right. exact Ha. }
  assert (Hdown : forall j, (j < length p)%nat ->
                            awaited (<[i := new]> p ++ extra) j = true ->
                            awaited p j = true).
  { intros j Hj Ha.
    apply (awaited_turn p i old new extra j Hi Hx) in Ha as [ Ha | Ha ].
    - rewrite Hc in Ha. apply elem_of_seq in Ha. lia.
    - apply (awaited_old p i old j Hi). right. exact Ha. }
  assert (Hatt_i : has_failed p = false ->
                   attached (<[i := new]> p ++ extra) i = true).
  { intros Hnf. pose proof (ti_attached p oks Inv Hnf i old Hi Hold) as Ha.
    apply attached_spec in Ha as [ -> | Ha ]; [ reflexivity | ].
    apply attached_spec. right. apply Hup; [ exact Ha | ].
    intros Hj. apply Hch_old in Hj. lia. }
  assert (Hnew_child : forall j, (length p <= j < length p + length extra)%nat ->
                                 attached (<[i := new]> p ++ extra) j = true).
  { intros j Hj. apply attached_spec. right.
    apply (awaited_turn p i old new extra j Hi Hx). left.
    rewrite Hc. apply elem_of_seq. lia. }
  assert (Hlost : forall j, j ∈ children_of_task old ->
                            attached (<[i := new]> p ++ extra) j = false).
  { intros j Hj. destruct (attached _ j) eqn:E; [ | reflexivity ]. exfalso.
    pose proof (Hch_old j Hj) as Hb.
    apply attached_spec in E as [ -> | E ]; [ lia | ].
    apply (awaited_turn p i old new extra j Hi Hx) in E
      as [ E | (g & t & Hne & Hg & Hjt) ].
    - rewrite Hc in E. apply elem_of_seq in E. lia.
    - destruct old as [ | | | | rs ch | | ]; simpl in Hj; try (inversion Hj; fail).
      destruct t as [ | | | | rs' ch' | | ]; simpl in Hjt; try (inversion Hjt; fail).
      apply Hne. eapply (ti_disjoint p oks Inv g i); eassumption. }
  assert (Hwhere : forall g rs ch j,
             (<[i := new]> p ++ extra) !! g = Some (Gathering rs ch) -> j ∈ ch ->
             (g = i /\ (length p <= j)%nat) \/
             (g <> i /\ p !! g = Some (Gathering rs ch) /\ (j < length p)%nat)).
  { intros g rs ch j Hg Hj.
    destruct (lookup_turn p i new extra g _ Hlt Hg)
      as [ (-> & Hn) | [ (Hne & Hg') | (Hge & Hg') ] ].
    - left. split; [ reflexivity | ]. rewrite <- Hn in Hc. simpl in Hc.
      rewrite Hc in Hj. apply elem_of_seq in Hj. lia.
    - right. split; [ exact Hne | ]. split; [ exact Hg' | ].
      destruct (ti_children p oks Inv g rs ch Hg') as [_ Hb]. apply Hb, Hj.
    - destruct (Hfresh _ _ Hg') as (_ & _ & Hcc). simpl in Hcc.
      rewrite Hcc in Hj. inversion Hj. }
  constructor.
  - rewrite length_app, length_insert. pose proof (ti_root p oks Inv). lia.
  - intros g rs ch Hg. rewrite length_app, length_insert.
    destruct (lookup_turn p i new extra g _ Hlt Hg)
      as [ (-> & Hn) | [ (Hne & Hg') | (Hge & Hg') ] ].
    + rewrite <- Hn in Hc. simpl in Hc. subst ch. split; [ apply NoDup_seq | ].
      intros j Hj. apply elem_of_seq in Hj. lia.
    + destruct (ti_children p oks Inv g rs ch Hg') as [Hnd Hb].
      split; [ exact Hnd | ]. intros j Hj. specialize (Hb j Hj). lia.
    + destruct (Hfresh _ _ Hg') as (_ & _ & Hcc). simpl in Hcc. subst ch.
      split; [ constructor | intros j Hj; inversion Hj ].
  - intros g g' rs rs' ch ch' j Hg Hg' Hj Hj'.
    destruct (Hwhere g rs ch j Hg Hj) as [ (-> & Hb) | (Hne & Hgo & Hb) ];
      destruct (Hwhere g' rs' ch' j Hg' Hj') as [ (-> & Hb') | (Hne' & Hgo' & Hb') ];
      try reflexivity; try lia.
    eapply (ti_disjoint p oks Inv g g'); eassumption.
  - intros Hf. destruct (has_failed p) eqn:E.
    + apply Hdoom, (ti_doomed p oks Inv E).
    + assert (Hn : new = Failed).
      { apply has_failed_spec in Hf as (f & Hf').
        destruct (lookup_turn p i new extra f _ Hlt Hf')
          as [ (-> & Hn) | [ (Hne & Hg') | (Hge & Hg') ] ].
        - symmetry. exact Hn.
        - assert (H : has_failed p = true) by (apply has_failed_spec; eauto).
          congruence.
        - destruct (Hfresh _ _ Hg') as (Hterm & _). discriminate. }
      subst new. apply (doom_rises p oks Inv E _ i).
      * apply (ti_attached p oks Inv E i old Hi Hold).
      * intros g t Hg Hgt. apply lookup_turn_old; [ lia | exact Hgt ].
      * apply doomed_failed, lookup_turn_new, Hlt.
  - intros Hf j t Hj Hterm. destruct (Hfail Hf) as [Hnf Hnew].
    destruct (lookup_turn p i new extra j t Hlt Hj)
      as [ (-> & ->) | [ (Hne & Hj') | (Hge & Hj') ] ].
    + apply Hatt_i, Hnf.
    + pose proof (ti_attached p oks Inv Hnf j t Hj' Hterm) as Ha.
      apply attached_spec in Ha as [ -> | Ha ]; [ reflexivity | ].
      apply attached_spec. right. apply Hup; [ exact Ha | ].
      intros Hjc. destruct (Hshape Hnew) as [Hall _].
      destruct (Hall j Hjc) as (r & Hr).
      rewrite Hr in Hj'. injection Hj' as <-. discriminate.
    + apply Hnew_child. apply lookup_lt_Some in Hj'. lia.
  - intros Hf j t Hj Hna. destruct (Hfail Hf) as [Hnf Hnew].
    destruct (lookup_turn p i new extra j t Hlt Hj)
      as [ (-> & ->) | [ (Hne & Hj') | (Hge & Hj') ] ].
    + rewrite (Hatt_i Hnf) in Hna. discriminate.
    + destruct (attached p j) eqn:Ha;
        [ | exact (ti_consumed p oks Inv Hnf j t Hj' Ha) ].
      apply attached_spec in Ha as [ -> | Ha ]; [ discriminate Hna | ].
      destruct (decide (j ∈ children_of_task old)) as [ Hjc | Hjc ].
      * destruct (Hshape Hnew) as [Hall _]. destruct (Hall j Hjc) as (r & Hr).
        rewrite Hr in Hj'. injection Hj' as <-. eauto.
      * assert (H : attached (<[i := new]> p ++ extra) j = true)
          by (apply attached_spec; right; apply Hup; assumption).
        congruence.
    + rewrite Hnew_child in Hna; [ discriminate | ].
      apply lookup_lt_Some in Hj'. lia.
  - intros Hf. destruct (Hfail Hf) as [Hnf Hnew].
    destruct (Hshape Hnew) as [Hall (own & Hres & Hown)].
    pose proof (ti_account p oks Inv Hnf) as Hacc.
    unfold account in *. rewrite length_app, length_insert.
    rewrite seq_app, flat_map_app. cbn [Nat.add].
    rewrite (flat_map_nil _ (seq (length p) (length extra))).
    2: { intros j Hj. apply elem_of_seq in Hj.
         destruct (attached _ j); [ | reflexivity ].
         unfold results_at.
         rewrite lookup_app_r by (rewrite length_insert; lia).
         rewrite length_insert.
         destruct (extra !! (j - length p)%nat) as [ t | ] eqn:E; [ | reflexivity ].
         apply (Hfresh _ _ E). }
    rewrite app_nil_r.
    destruct (flat_map_modify
                (fun j => if attached p j then results_at p j else [])
                (fun j => if attached (<[i := new]> p ++ extra) j
                          then results_at (<[i := new]> p ++ extra) j else [])
                (length p) (i :: children_of_task old)) as (rest & H1 & H2).
    + apply NoDup_cons. split; [ | exact Hnd_old ].
      intros Hj. apply Hch_old in Hj. lia.
    + intros x [ -> | Hx' ]%elem_of_cons; [ exact Hlt | ].
      apply Hch_old in Hx'. lia.
    + intros j Hj [Hne Hnot]%not_elem_of_cons.
      assert (Hatt_eq : attached (<[i := new]> p ++ extra) j = attached p j).
      { apply eq_true_iff_eq. rewrite !attached_spec.
        split; (intros [ -> | Ha ]; [ left; reflexivity | right ]).
        - apply Hdown; assumption.
        - apply Hup; assumption. }
      assert (Hres_eq : results_at (<[i := new]> p ++ extra) j = results_at p j).
      { unfold results_at.
        rewrite lookup_app_l by (rewrite length_insert; exact Hj).
        rewrite list_lookup_insert_ne by auto. reflexivity. }
      rewrite Hatt_eq, Hres_eq. reflexivity.
    + rewrite H2. rewrite H1 in Hacc. clear H1 H2. cbn [flat_map] in *.
      rewrite (Hatt_i Hnf).
      rewrite (ti_attached p oks Inv Hnf i old Hi Hold) in Hacc.
      assert (E1 : results_at (<[i := new]> p ++ extra) i = results_of new)
        by (unfold results_at; rewrite (lookup_turn_new p i new extra Hlt); reflexivity).
      assert (E2 : results_at p i = results_of old)
        by (unfold results_at; rewrite Hi; reflexivity).
      rewrite E1. rewrite E2 in Hacc.
      rewrite (flat_map_nil _ (children_of_task old)).
      2: { intros j Hj. rewrite (Hlost j Hj). reflexivity. }
      rewrite (flat_map_ext_elem _ (results_at p) (children_of_task old)) in Hacc.
      2: { intros j Hj.
           assert (Ha : attached p j = true).
           { apply attached_spec. right. apply awaited_spec. eauto. }
           rewrite Ha. reflexivity. }
      rewrite Hres, <- Hown, <- Hacc, app_nil_r.
      rewrite <- !app_assoc, !map_app. apply perm_insert.
Qed.

Lemma run_tree_inv (w : world) ex (sched : list nat) (c : crawl) :
  tree_inv (pool c) (downloaded_ok (log (self c))) ->
  tree_inv (pool (run w ex sched c)) (downloaded_ok (log (self (run w ex sched c)))).
Proof.
  revert c. induction sched as [ | i sched IH ]; intros c Inv; simpl; [ exact Inv | ].
  apply IH. destruct (step w ex i c) as [ c' | ] eqn:Hs; [ | exact Inv ].
  destruct (step_turn w ex i c c' Hs) as (added & Ht & ->).
  eapply turn_inv; eassumption.
Qed.

Lemma process_paper_tree_inv (s : fetcher) root depth :
  log s = [] ->
  tree_inv (pool (process_paper s root depth))
    (downloaded_ok (log (self (process_paper s root depth)))).
Proof.
  intros Hl. simpl. rewrite Hl. constructor; simpl.
  - lia.
  - intros [ | g ] rs ch Hg; discriminate.
  - intros [ | g ] g' rs rs' ch ch' j Hg; discriminate.
  - discriminate.
  - intros _ [ | j ] t Hj _; [ reflexivity | discriminate ].
  - intros _ [ | j ] t Hj Hna; discriminate.
  - intros _. reflexivity.
Qed.

Lemma run_app (w : world) ex (s1 s2 : list nat) (c : crawl) :
  run w ex (s1 ++ s2) c = run w ex s2 (run w ex s1 c).
Proof.
  revert c. induction s1 as [ | i s1 IH ]; intros c; simpl; [ reflexivity | apply IH ].
Qed.

(** When the call of the user has returned, every coroutine has returned
    and none has failed. *)
Lemma all_returned (p : list task) (oks : list json) (rs : list paper_record) :
  tree_inv p oks -> p !! 0%nat = Some (Returned rs) ->
  has_failed p = false /\ forall j t, p !! j = Some t -> exists r, t = Returned r.
Proof.
  intros Inv H0.
  assert (Hnf : has_failed p = false).
  { destruct (has_failed p) eqn:E; [ | reflexivity ].
    destruct (doomed_not_returned p 0 rs (ti_doomed p oks Inv E) H0). }
  split; [ exact Hnf | ].
  assert (Hterm : forall j t, p !! j = Some t -> terminal t = true).
  { induction j as [j IH] using lt_wf_ind. intros t Hj.
    destruct (terminal t) eqn:E; [ reflexivity | ]. exfalso.
    pose proof (ti_attached p oks Inv Hnf j t Hj E) as Ha.
    apply attached_spec in Ha as [ -> | Ha ].
    - rewrite H0 in Hj. injection Hj as <-. discriminate.
    - apply awaited_spec in Ha as (g & t' & Hg & Hjc).
      destruct t' as [ | | | | rs' ch | | ]; simpl in Hjc; try (inversion Hjc; fail).
      destruct (ti_children p oks Inv g rs' ch Hg) as [_ Hb]. specialize (Hb j Hjc).
      assert (Hlt : (g < j)%nat) by lia.
      discriminate (IH g Hlt _ Hg). }
  intros j t Hj. pose proof (Hterm j t Hj) as Ht.
  destruct t as [ | | | | | r | ]; try discriminate; [ eauto | ].
  assert (H : has_failed p = true) by (apply has_failed_spec; eauto). congruence.
Qed.

Lemma account_root (p : list task) (rs : list paper_record) :
  (forall j t, p !! j = Some t -> exists r, t = Returned r) ->
  p !! 0%nat = Some (Returned rs) -> account p = rs.
Proof.
  intros Hall H0.
  assert (Haw : forall j, awaited p j = false).
  { intros j. destruct (awaited p j) eqn:E; [ | reflexivity ].
    apply awaited_spec in E as (g & t & Hg & Hj).
    destruct (Hall g t Hg) as (r & ->). inversion Hj. }
  unfold account. destruct p as [ | t0 p ]; [ discriminate | ].
  cbn [length seq flat_map]. unfold attached at 1. cbn [Nat.eqb orb].
  unfold results_at at 1. rewrite H0. cbn [results_of].
  rewrite flat_map_nil; [ apply app_nil_r | ].
  intros j Hj. apply elem_of_seq in Hj. unfold attached. rewrite Haw.
  destruct j; [ lia | reflexivity ].
Qed.

Lemma downloaded_ok_sublist (l : list event) :
  downloaded_ok l `sublist_of` download_ids l.
Proof.
  induction l as [ | e l IH ]; [ constructor | ].
  destruct e as [ u | site ms | path | v res | v [] ];
    try exact IH; [ apply sublist_skip | apply sublist_cons ]; exact IH.
Qed.

(** X18: what [process_paper] returns.  In every run of a crawl that has
    returned to its caller, under any schedule and whatever the network
    answered, the list returned holds exactly one record for each paper
    whose download succeeded, and none for any other paper; every
    coroutine of the crawl has returned, and none has failed. *)
Theorem returned_records_are_the_downloads
    (w : world) (ex : response -> dict -> result string)
    (out : string) (fs : list string) (root : json) (depth : Z) (sched : list nat)
    (rs : list paper_record) :
  let c := run w ex sched (process_paper (new_fetcher out fs) root depth) in
  pool c !! 0%nat = Some (Returned rs) ->
  map rec_id rs ≡ₚ downloaded_ok (log (self c)) /\
  NoDup (map rec_id rs) /\
  forall t, t ∈ pool c -> exists r, t = Returned r.
Proof.
  intros c H0.
  pose proof (run_tree_inv w ex sched _
                (process_paper_tree_inv (new_fetcher out fs) root depth eq_refl)) as Inv.
  fold c in Inv.
  destruct (all_returned _ _ rs Inv H0) as [Hnf Hall].
  assert (Hacc : map rec_id rs ≡ₚ downloaded_ok (log (self c))).
  { rewrite <- (account_root (pool c) rs Hall H0). apply (ti_account _ _ Inv Hnf). }
  split; [ exact Hacc | ]. split.
  - rewrite Hacc. eapply sublist_NoDup; [ | apply downloaded_ok_sublist ].
    pose proof (run_inv w ex sched _ (process_paper_inv out fs root depth)) as CI.
    fold c in CI. destruct CI as [_ _ Id _ _ _].
    apply NoDup_app in Id as (_ & _ & Id). exact Id.
  - intros t (j & Hj)%list_elem_of_lookup_1. eapply Hall. exact Hj.
Qed.

Lemma returned_records_are_the_downloads_witness :
  map rec_id
    [{| rec_id := JStr "R"; rec_title := JStr "R";
        rec_authors := [JStr "Ada"]; rec_year := JNum 2020;
        rec_url := JStr "http://s2/R";
        rec_filename := JStr "R.pdf";
        rec_pdf_path := "papers/R.pdf" |}]
  ≡ₚ downloaded_ok
       (log (self (run world_scenario_A title_filename [0; 0; 0; 0]%nat
                     (process_paper (new_fetcher "papers" []) (JStr "R") 0)))).
Proof.
  refine (proj1 (returned_records_are_the_downloads world_scenario_A title_filename
                   "papers" [] (JStr "R") 0 [0; 0; 0; 0]%nat _ _)).
  vm_compute. reflexivity.
Defined.

(** X19: an exception in one coroutine fails the whole crawl.  Once any
    [process_paper] coroutine has failed, the call of the user never
    returns a list, however the crawl goes on: the records of the papers
    already downloaded are not handed back. *)
Theorem failure_fails_the_crawl
    (w : world) (ex : response -> dict -> result string)
    (out : string) (fs : list string) (root : json) (depth : Z)
    (sched sched' : list nat) (rs : list paper_record) :
  let c := run w ex sched (process_paper (new_fetcher out fs) root depth) in
  has_failed (pool c) = true ->
  pool (run w ex sched' c) !! 0%nat <> Some (Returned rs).
Proof.
  intros c Hf H0.
  pose proof (run_tree_inv w ex (sched ++ sched') _
                (process_paper_tree_inv (new_fetcher out fs) root depth eq_refl)) as Inv.
  rewrite run_app in Inv. fold c in Inv.
  destruct (all_returned _ _ rs Inv H0) as [Hnf _].
  apply has_failed_spec in Hf as (f & Hf).
  destruct (run_grows w ex sched' c) as (_ & _ & Hkeep).
  assert (H : has_failed (pool (run w ex sched' c)) = true).
  { apply has_failed_spec. exists f. apply Hkeep; [ exact Hf | reflexivity ]. }
  congruence.
Qed.

Lemma failure_fails_the_crawl_witness :
  has_failed (pool (run world_null_authors title_filename [0; 0; 0; 0]%nat
                      (process_paper (new_fetcher "papers" []) (JStr "R") 0))) = true /\
  files (self (run world_null_authors title_filename [0; 0; 0; 0]%nat
                 (process_paper (new_fetcher "papers" []) (JStr "R") 0)))
  = ["papers/R.pdf"] /\
  pool (run world_null_authors title_filename [0]%nat
          (run world_null_authors title_filename [0; 0; 0; 0]%nat
             (process_paper (new_fetcher "papers" []) (JStr "R") 0))) !! 0%nat
  <> Some (Returned []).
Proof.
  split; [ vm_compute; reflexivity | ]. split; [ vm_compute; reflexivity | ].
  apply (failure_fails_the_crawl world_null_authors title_filename "papers" []
           (JStr "R") 0 [0; 0; 0; 0]%nat [0]%nat []).
  vm_compute. reflexivity.
Defined.

(** ** The crawl goes on and comes to an end *)

Lemma last_running (p : list task) :
  (exists j t, p !! j = Some t /\ terminal t = false) ->
  exists j t, p !! j = Some t /\ terminal t = false /\
              forall j' t', (j < j')%nat -> p !! j' = Some t' -> terminal t' = true.
Proof.
  induction p as [ | x p IH ] using rev_ind; intros (j & t & Hj & Ht);
    [ discriminate | ].
  destruct (terminal x) eqn:Ex.
  - destruct (Nat.lt_ge_cases j (length p)) as [ Hlt | Hge ].
    + rewrite lookup_app_l in Hj by exact Hlt.
      destruct IH as (j0 & t0 & Hj0 & Ht0 & Hlast); [ eauto | ].
      exists j0, t0. split; [ | split; [ exact Ht0 | ] ].
      * rewrite lookup_app_l by (eapply lookup_lt_Some; exact Hj0). exact Hj0.
      * intros j' t' Hlt' Hj'.
        destruct (Nat.lt_ge_cases j' (length p)) as [ Hl | Hg ].
        -- rewrite lookup_app_l in Hj' by exact Hl. eapply Hlast; eassumption.
        -- rewrite lookup_app_r in Hj' by exact Hg.
           destruct (j' - length p)%nat; simpl in Hj'; [ | discriminate ].
           injection Hj' as <-. exact Ex.
    + rewrite lookup_app_r in Hj by exact Hge.
      destruct (j - length p)%nat; simpl in Hj; [ | discriminate ].
      injection Hj as <-. congruence.
  - exists (length p), x. split; [ | split; [ exact Ex | ] ].
    + rewrite lookup_app_r by lia. rewrite Nat.sub_diag. reflexivity.
    + intros j' t' Hlt Hj'. apply lookup_lt_Some in Hj'.
      rewrite length_app in Hj'. simpl in Hj'. lia.
Qed.

Lemma gather_ready (p : list task) (ch : list nat) :
  (forall j, j ∈ ch -> exists t, p !! j = Some t /\ terminal t = true) ->
  gather p ch = Some Raised \/ exists rs, gather p ch = Some (Ok rs).
Proof.
  intros Hall. unfold gather. destruct (existsb is_failed _) eqn:Hf; [ auto | right ].
  assert (Hc : exists rs, collect (map (fun j => p !! j) ch) = Some rs).
  { induction ch as [ | j ch IH ]; [ exists []; reflexivity | ].
    simpl in Hf. apply orb_false_iff in Hf as [Hj Hf].
    destruct (Hall j) as (t & Ht & Hterm); [ left | ].
    destruct IH as (rs & Hrs); [ intros j' Hj'; apply Hall; right; exact Hj' | exact Hf | ].
    simpl. rewrite Ht in Hj |- *. destruct t; try discriminate.
    simpl. rewrite Hrs. eauto. }
  destruct Hc as (rs & ->). eauto.
Qed.

(** X20: a crawl is never stuck.  In every state a crawl can reach, as
    long as the call of the user has not ended, some coroutine can take a
    turn: the coroutines never wait for each other in a circle. *)
Theorem crawl_never_stuck
    (w : world) (ex : response -> dict -> result string)
    (out : string) (fs : list string) (root : json) (depth : Z) (sched : list nat) :
  let c := run w ex sched (process_paper (new_fetcher out fs) root depth) in
  (exists t, pool c !! 0%nat = Some t /\ terminal t = false) ->
  exists i c', step w ex i c = Some c'.
Proof.
  intros c (t0 & H0 & Ht0).
  pose proof (run_tree_inv w ex sched _
                (process_paper_tree_inv (new_fetcher out fs) root depth eq_refl)) as Inv.
  fold c in Inv.
  destruct (last_running (pool c)) as (j & t & Hj & Ht & Hlast); [ eauto | ].
  exists j. unfold step. rewrite Hj.
  destruct t as [ v d | v d | v d data | v d data fp | rs ch | | ]; try discriminate.
  - destruct (enter v d (self c)); eauto.
  - destruct (fetched w v d (self c)); eauto.
  - eauto.
  - eauto.
  - destruct (gather_ready (pool c) ch) as [ -> | (rs' & ->) ]; eauto.
    intros j' Hj'. destruct (ti_children _ _ Inv j rs ch Hj) as [_ Hb].
    specialize (Hb j' Hj').
    destruct (lookup_lt_is_Some_2 (pool c) j') as (t' & Ht'); [ lia | ].
    exists t'. split; [ exact Ht' | ]. eapply Hlast; [ | exact Ht' ]. lia.
Qed.

Lemma crawl_never_stuck_witness :
  exists i c',
    step world_scenario_A title_filename i
      (run world_scenario_A title_filename [0]%nat
         (process_paper (new_fetcher "papers" []) (JStr "R") 0)) = Some c'.
Proof.
  apply (crawl_never_stuck world_scenario_A title_filename "papers" [] (JStr "R") 0
           [0]%nat).
  eexists. split; [ vm_compute; reflexivity | reflexivity ].
Defined.

Lemma run_cons (w : world) ex (i : nat) (sched : list nat) (c c' : crawl) :
  step w ex i c = Some c' -> run w ex (i :: sched) c = run w ex sched c'.
Proof. intros H. simpl. rewrite H. reflexivity. Qed.

Lemma step_start (w : world) ex (c : crawl) (i : nat) (v : json) (d : Z) :
  pool c !! i = Some (Start v d) ->
  exists t s',
    step w ex i c = Some {| self := s'; pool := <[i := t]> (pool c) |} /\
    (terminal t = true \/ (t = Fetching v d /\ 0 <= d)).
Proof.
  intros Hi. unfold step. rewrite Hi. unfold enter.
  destruct (negb (hashable v)); [ eexists _, _; split; [ reflexivity | auto ] | ].
  destruct (set_mem v (visited_papers (self c))); simpl;
    [ eexists _, _; split; [ reflexivity | auto ] | ].
  destruct (d <? 0) eqn:E; eexists _, _; (split; [ reflexivity | ]); [ auto | ].
  right. split; [ reflexivity | ]. apply Z.ltb_ge, E.
Qed.

Lemma step_fetching (w : world) ex (c : crawl) (i : nat) (v : json) (d : Z) :
  pool c !! i = Some (Fetching v d) ->
  exists t s',
    step w ex i c = Some {| self := s'; pool := <[i := t]> (pool c) |} /\
    (terminal t = true \/ exists data, t = Downloading v d data).
Proof.
  intros Hi. unfold step. rewrite Hi. unfold fetched.
  destruct (fetch_paper_details w v retries_default (self c)) as [[ data | ] s1];
    [ | eexists _, _; split; [ reflexivity | auto ] ].
  eexists _, _. split; [ reflexivity | ].
  destruct data as [ [ | kv data ] | ]; eauto.
Qed.

Lemma downloaded_shape (c : crawl) (i : nat) (v : json) (d : Z)
    (r : result (outcome * dict) * fetcher) :
  exists t s' ids,
    downloaded i v d r c
    = {| self := s';
         pool := <[i := t]> (pool c) ++ map (fun x => Start x (d - 1)) ids |} /\
    ((terminal t = true /\ ids = []) \/
     exists rs, t = Gathering rs (seq (length (pool c)) (length ids))).
Proof.
  unfold downloaded. destruct r as [[ [o data'] | ] s1].
  - destruct (after_download _ _ _ _ _) as [ [results tasks] | ] eqn:Ha.
    + apply after_download_spec in Ha as [(ids & _ & ->) _].
      destruct ids as [ | x ids ].
      * exists (Returned results). eexists. exists [].
        split; [ simpl; rewrite app_nil_r; reflexivity | auto ].
      * eexists. eexists. exists (x :: ids). split; [ reflexivity | ]. right.
        rewrite length_map. eauto.
    + exists Failed. eexists. exists [].
      split; [ simpl; rewrite app_nil_r; reflexivity | auto ].
  - exists Failed. eexists. exists [].
    split; [ simpl; rewrite app_nil_r; reflexivity | auto ].
Qed.

(** A download comes to its end in one turn or in two. *)
Lemma run_downloading (w : world) ex (c : crawl) (i : nat) (v : json) (d : Z)
    (data : dict) :
  pool c !! i = Some (Downloading v d data) ->
  exists sched t s' ids,
    run w ex sched c
    = {| self := s';
         pool := <[i := t]> (pool c) ++ map (fun x => Start x (d - 1)) ids |} /\
    ((terminal t = true /\ ids = []) \/
     exists rs, t = Gathering rs (seq (length (pool c)) (length ids))).
Proof.
  intros Hi. pose proof (lookup_lt_Some _ _ _ Hi) as Hlt.
  assert (Hs : step w ex i c = Some (download_started w ex i v d data c))
    by (unfold step; rewrite Hi; reflexivity).
  unfold download_started in Hs.
  destruct (download_pdf_begin w ex data (self c)) as [[ [o data' | p] | ] s1].
  - destruct (downloaded_shape c i v d (Ok (o, data'), s1)) as (t & s' & ids & E & H).
    exists [i], t, s', ids. rewrite (run_cons w ex i [] c _ Hs). split; assumption.
  - set (c1 := {| self := s1; pool := <[i := Saving v d data p]> (pool c) |}) in *.
    assert (Hs1 : step w ex i c1
                  = Some (downloaded i v d (download_pdf_end w data p (self c1)) c1)).
    { unfold step. cbn [pool c1]. rewrite list_lookup_insert_eq by exact Hlt.
      reflexivity. }
    destruct (downloaded_shape c1 i v d (download_pdf_end w data p (self c1)))
      as (t & s' & ids & E & H).
    exists [i; i], t, s', ids.
    rewrite (run_cons w ex i [i] c _ Hs), (run_cons w ex i [] c1 _ Hs1), E.
    cbn [run pool c1] in *. rewrite list_insert_insert_eq.
    rewrite length_insert in H. split; [ reflexivity | exact H ].
  - destruct (downloaded_shape c i v d (Raised, s1)) as (t & s' & ids & E & H).
    exists [i], t, s', ids. rewrite (run_cons w ex i [] c _ Hs). split; assumption.
Qed.

Lemma step_gathering (w : world) ex (c : crawl) (i : nat) rs ch :
  pool c !! i = Some (Gathering rs ch) ->
  (forall j, j ∈ ch -> exists t, pool c !! j = Some t /\ terminal t = true) ->
  exists t, step w ex i c = Some (set_task i t c) /\ terminal t = true.
Proof.
  intros Hi Hall. unfold step. rewrite Hi.
  destruct (gather_ready (pool c) ch Hall) as [ -> | (rs' & ->) ]; eauto.
Qed.

(** The coroutines [js], all created for the same depth, can be run to
    their ends one after the other, when each of them can. *)
Lemma complete_children (w : world) ex (d : Z) :
  (forall c i v, pool c !! i = Some (Start v d) ->
     exists sched,
       (exists t, pool (run w ex sched c) !! i = Some t /\ terminal t = true) /\
       forall j t, j <> i -> pool c !! j = Some t ->
                   pool (run w ex sched c) !! j = Some t) ->
  forall (js : list nat) (c : crawl),
    (forall j, j ∈ js -> exists v, pool c !! j = Some (Start v d)) ->
    exists sched,
      (forall j, j ∈ js ->
         exists t, pool (run w ex sched c) !! j = Some t /\ terminal t = true) /\
      forall j t, j ∉ js -> pool c !! j = Some t ->
                  pool (run w ex sched c) !! j = Some t.
Proof.
  intros One. induction js as [ | j js IH ]; intros c Hjs.
  - exists []. split; [ intros j H; inversion H | auto ].
  - destruct (decide (j ∈ js)) as [ Hin | Hnin ].
    + destruct (IH c) as (sched & Hdone & Hframe);
        [ intros j' Hj'; apply Hjs; right; exact Hj' | ].
      exists sched. split.
      * intros j' [ -> | Hj' ]%elem_of_cons; auto.
      * intros j' t Hj'. apply Hframe. intros H. apply Hj'. right. exact H.
    + destruct (Hjs j) as (v & Hj); [ left | ].
      destruct (One c j v Hj) as (s1 & (t1 & Ht1 & Hterm1) & Hframe1).
      destruct (IH (run w ex s1 c)) as (s2 & Hdone2 & Hframe2).
      { intros j' Hj'. destruct (Hjs j') as (v' & Hv'); [ right; exact Hj' | ].
        exists v'. apply Hframe1; [ | exact Hv' ]. intros ->. contradiction. }
      exists (s1 ++ s2). rewrite run_app. split.
      * intros j' [ -> | Hj' ]%elem_of_cons; [ | auto ].
        exists t1. split; [ | exact Hterm1 ]. apply Hframe2; assumption.
      * intros j' t [Hne Hj']%not_elem_of_cons Ht.
        apply Hframe2; [ exact Hj' | ]. apply Hframe1; assumption.
Qed.

(** A coroutine that has not started can be run to its end, by turns of
    itself and of the coroutines created on the way. *)
Lemma complete_start (w : world) ex :
  forall (n : nat) (c : crawl) (i : nat) (v : json) (d : Z),
    (Z.to_nat (d + 1) <= n)%nat ->
    pool c !! i = Some (Start v d) ->
    exists sched,
      (exists t, pool (run w ex sched c) !! i = Some t /\ terminal t = true) /\
      forall j t, j <> i -> pool c !! j = Some t ->
                  pool (run w ex sched c) !! j = Some t.
Proof.
  induction n as [n IH] using lt_wf_ind. intros c i v d Hn Hi.
  pose proof (lookup_lt_Some _ _ _ Hi) as Hlt.
  destruct (step_start w ex c i v d Hi) as (t1 & s1 & Hs1 & [ Ht1 | [-> Hd] ]).
  { exists [i]. rewrite (run_cons w ex i [] c _ Hs1). simpl. split.
    - exists t1. split; [ apply list_lookup_insert_eq, Hlt | exact Ht1 ].
    - intros j t Hne Hj. rewrite list_lookup_insert_ne by auto. exact Hj. }
  set (c1 := {| self := s1; pool := <[i := Fetching v d]> (pool c) |}) in *.
  assert (Hi1 : pool c1 !! i = Some (Fetching v d))
    by (apply list_lookup_insert_eq, Hlt).
  assert (Hf1 : forall j t, j <> i -> pool c !! j = Some t -> pool c1 !! j = Some t).
  { intros j t Hne Hj. simpl. rewrite list_lookup_insert_ne by auto. exact Hj. }
  assert (Hl1 : length (pool c1) = length (pool c)) by apply length_insert.
  destruct (step_fetching w ex c1 i v d Hi1) as (t2 & s2 & Hs2 & [ Ht2 | (data & ->) ]).
  { exists [i; i]. rewrite (run_cons w ex i [i] c _ Hs1), (run_cons w ex i [] c1 _ Hs2).
    simpl. split.
    - exists t2. split; [ | exact Ht2 ].
      apply list_lookup_insert_eq. rewrite length_insert. exact Hlt.
    - intros j t Hne Hj. rewrite !list_lookup_insert_ne by auto. exact Hj. }
  set (c2 := {| self := s2; pool := <[i := Downloading v d data]> (pool c1) |}) in *.
  assert (Hi2 : pool c2 !! i = Some (Downloading v d data))
    by (apply list_lookup_insert_eq; rewrite Hl1; exact Hlt).
  assert (Hf2 : forall j t, j <> i -> pool c !! j = Some t -> pool c2 !! j = Some t).
  { intros j t Hne Hj. simpl. rewrite list_lookup_insert_ne by auto. auto. }
  assert (Hl2 : length (pool c2) = length (pool c))
    by (simpl; rewrite length_insert; exact Hl1).
  destruct (run_downloading w ex c2 i v d data Hi2)
    as (sd & t3 & s3 & ids & Hs3 & [ [Ht3 ->] | (rs & ->) ]).
  { exists ([i; i] ++ sd). rewrite run_app.
    rewrite (run_cons w ex i [i] c _ Hs1), (run_cons w ex i [] c1 _ Hs2).
    cbn [run]. rewrite Hs3.
    cbn [pool map]. rewrite app_nil_r. split.
    - exists t3. split; [ | exact Ht3 ].
      apply list_lookup_insert_eq. rewrite Hl2. exact Hlt.
    - intros j t Hne Hj. rewrite list_lookup_insert_ne by auto. auto. }
  set (c3 := {| self := s3;
                pool := <[i := Gathering rs (seq (length (pool c2)) (length ids))]>
                          (pool c2)
                        ++ map (fun x => Start x (d - 1)) ids |}) in *.
  assert (Hi3 : pool c3 !! i
                = Some (Gathering rs (seq (length (pool c2)) (length ids))))
    by (apply lookup_turn_new; rewrite Hl2; exact Hlt).
  assert (Hf3 : forall j t, j <> i -> pool c !! j = Some t -> pool c3 !! j = Some t).
  { intros j t Hne Hj. apply lookup_turn_old; auto. }
  assert (Hn' : (Z.to_nat (d - 1 + 1) < n)%nat) by lia.
  destruct (complete_children w ex (d - 1)
              (fun c0 i0 v0 => IH _ Hn' c0 i0 v0 (d - 1) (Nat.le_refl _))
              (seq (length (pool c2)) (length ids)) c3) as (s4 & Hdone & Hframe).
  { intros j Hj. apply elem_of_seq in Hj.
    destruct (lookup_lt_is_Some_2 ids (j - length (pool c2))%nat) as (x & Hx); [ lia | ].
    exists x. unfold c3. cbn [pool].
    rewrite lookup_app_r by (rewrite length_insert; lia).
    rewrite length_insert.
    change (map (fun x0 => Start x0 (d - 1)) ids)
      with ((fun x0 => Start x0 (d - 1)) <$> ids).
    rewrite list_lookup_fmap, Hx. reflexivity. }
  set (c4 := run w ex s4 c3) in *.
  assert (Hi4 : pool c4 !! i
                = Some (Gathering rs (seq (length (pool c2)) (length ids)))).
  { apply Hframe; [ | exact Hi3 ]. intros Hin. apply elem_of_seq in Hin. lia. }
  destruct (step_gathering w ex c4 i _ _ Hi4 Hdone) as (t5 & Hs5 & Ht5).
  exists (([i; i] ++ sd) ++ s4 ++ [i]).
  rewrite run_app.
  replace (run w ex ([i; i] ++ sd) c) with c3
    by (rewrite run_app, (run_cons w ex i [i] c _ Hs1), (run_cons w ex i [] c1 _ Hs2);
        cbn [run]; rewrite Hs3; reflexivity).
  rewrite run_app. fold c4. rewrite (run_cons w ex i [] c4 _ Hs5).
  cbn [run set_task pool]. split.
  - exists t5. split; [ | exact Ht5 ].
    apply list_lookup_insert_eq. eapply lookup_lt_Some. exact Hi4.
  - intros j t Hne Hj. rewrite list_lookup_insert_ne by auto.
    apply Hframe; [ | apply Hf3; assumption ].
    intros Hin. apply elem_of_seq in Hin. apply lookup_lt_Some in Hj. lia.
Qed.

(** X21: every crawl can come to an end.  Whatever the network answers,
    there is a schedule of the coroutines after which the call of the
    user has returned or has failed: the depth bounds the recursion. *)
Theorem crawl_can_finish
    (w : world) (ex : response -> dict -> result string)
    (out : string) (fs : list string) (root : json) (depth : Z) :
  exists sched t,
    pool (run w ex sched (process_paper (new_fetcher out fs) root depth)) !! 0%nat
    = Some t /\ terminal t = true.
Proof.
  destruct (complete_start w ex (Z.to_nat (depth + 1))
              (process_paper (new_fetcher out fs) root depth) 0 root depth
              (Nat.le_refl _) eq_refl) as (sched & (t & Ht & Hterm) & _).
  exists sched, t. split; assumption.
Qed.

(** ** The records and the files *)

Lemma points_to_file_grows (out : string) (s s' : fetcher) (r : paper_record) :
  fetcher_grows s s' -> points_to_file out s r -> points_to_file out s' r.
Proof.
  intros (_ & _ & _ & (f & Hf)) [Hin Hname]. split; [ | exact Hname ].
  rewrite Hf. apply elem_of_app. right. exact Hin.
Qed.

Lemma files_inv_turn (out : string) (c : crawl) (i : nat) (old new : task)
    (s' : fetcher) (extra : list task) :
  files_inv out c ->
  pool c !! i = Some old ->
  fetcher_grows (self c) s' ->
  (forall v d data, new = Downloading v d data -> titled data) ->
  (forall v d data p, new = Saving v d data p ->
     exists name, plain_name name = true /\ p = dir_prefix out +:+ name) ->
  (forall r, r ∈ results_of new ->
             points_to_file out s' r \/
             exists t, t ∈ pool c /\ r ∈ results_of t) ->
  (forall t, t ∈ extra -> exists v d, t = Start v d) ->
  files_inv out {| self := s'; pool := <[i := new]> (pool c) ++ extra |}.
Proof.
  intros [Ho Hd Hp Hr] Hi Hg Hnew Hsav Hres Hx.
  constructor; cbn [self pool].
  - destruct Hg as (Hout & _). congruence.
  - intros v d data [ E | [ Hin | Hin ] ]%elem_of_insert_app.
    + eapply Hnew. symmetry. exact E.
    + eapply Hd. exact Hin.
    + destruct (Hx _ Hin) as (v' & d' & E). discriminate.
  - intros v d data p [ E | [ Hin | Hin ] ]%elem_of_insert_app.
    + eapply Hsav. symmetry. exact E.
    + eapply Hp. exact Hin.
    + destruct (Hx _ Hin) as (v' & d' & E). discriminate.
  - intros t r [ -> | [ Hin | Hin ] ]%elem_of_insert_app Hrt.
    + destruct (Hres r Hrt) as [ H | (t' & Ht' & Hr') ]; [ exact H | ].
      eapply points_to_file_grows; [ exact Hg | eapply Hr; eassumption ].
    + eapply points_to_file_grows; [ exact Hg | eapply Hr; eassumption ].
    + destruct (Hx _ Hin) as (v' & d' & ->). inversion Hrt.
Qed.

Lemma after_download_record out paper_id depth (ok : bool) d results tasks :
  after_download out paper_id depth ok d = Ok (results, tasks) ->
  (forall t, t ∈ tasks -> exists v d', t = Start v d') /\
  (forall r, r ∈ results -> ok = true /\ make_record out paper_id d = Ok r).
Proof.
  unfold after_download. intros H.
  assert (Hstart : forall (ids : list json) t,
             t ∈ map (fun c => Start c (depth - 1)) ids -> exists v d', t = Start v d').
  { intros ids t (x & <- & _)%list_elem_of_In%in_map_iff. eauto. }
  destruct ok.
  - destruct (make_record out paper_id d) as [ r | ] eqn:Hr; [ | discriminate ].
    destruct (children_of d) as [ ids | ]; [ | discriminate ].
    injection H as <- <-. split; [ apply Hstart | ].
    intros r' [ -> | H ]%elem_of_cons; [ auto | inversion H ].
  - destruct (children_of d) as [ ids | ]; [ | discriminate ].
    injection H as <- <-. split; [ apply Hstart | ]. intros r H. inversion H.
Qed.

(** The path chosen by the first half of [download_pdf]: the free path for
    the name extracted from a reply with status 200. *)
Lemma download_pdf_begin_opening
    (w : world) (ex : response -> dict -> result string) (d : dict) (s : fetcher)
    (p : string) (s1 : fetcher) :
  download_pdf_begin w ex d s = (Ok (Opening p), s1) ->
  exists n u resp name,
    http w n u = Reply resp /\ status resp = 200 /\ ex resp d = Ok name /\
    output_dir s1 = output_dir s /\ files s1 = files s /\
    p = target_path (files s) (output_dir s) name.
Proof.
  unfold download_pdf_begin, try_except. unfold bind at 1.
  destruct (resolve_pdf_url w d s) as [[ u | ] s0] eqn:Hres; [ | discriminate ].
  destruct (resolve_pdf_url_frame w d s _ _ Hres) as (Hf1 & Ho1 & _).
  destruct (negb (truthy u)); [ discriminate | ].
  unfold choose_path. unfold bind at 1.
  destruct (session_get_value_cases w u s0)
    as [ (r & a & -> & Hr & ->) | (s2 & -> & _) ]; [ | discriminate ].
  destruct (status r =? 200) eqn:Hst; [ | discriminate ].
  apply Z.eqb_eq in Hst.
  unfold bind, lift. destruct (ex r d) as [ name | ] eqn:Hex; [ | discriminate ].
  cbn [files output_dir emit]. rewrite Hf1, Ho1. intros [= <- <-].
  exists (requests (log s0)), a, r, name. cbn [files output_dir emit].
  repeat split; assumption.
Qed.

Lemma files_inv_downloaded (out : string) (c : crawl) (i : nat) (old : task)
    (v : json) (d : Z) (r : result (outcome * dict) * fetcher) :
  files_inv out c ->
  pool c !! i = Some old ->
  fetcher_grows (self c) (snd r) ->
  (forall d' rec, fst r = Ok (Downloaded, d') ->
                  make_record out v d' = Ok rec -> points_to_file out (snd r) rec) ->
  files_inv out (downloaded i v d r c).
Proof.
  intros Inv Hi Hg Hrec. unfold downloaded.
  assert (Hnone : forall (s' : fetcher) (new : task),
             fetcher_grows (self c) s' ->
             (forall v' d' data, new <> Downloading v' d' data) ->
             (forall v' d' data p, new <> Saving v' d' data p) ->
             (forall r, r ∈ results_of new -> points_to_file out s' r) ->
             files_inv out {| self := s'; pool := <[i := new]> (pool c) |}).
  { intros s' new Hg' Hn1 Hn2 Hres.
    pose proof (files_inv_turn out c i old new s' [] Inv Hi Hg') as H.
    rewrite app_nil_r in H. apply H.
    - intros v' d' data E. destruct (Hn1 _ _ _ E).
    - intros v' d' data p E. destruct (Hn2 _ _ _ _ E).
    - intros r' Hr'. left. apply Hres, Hr'.
    - intros t' Ht'. inversion Ht'. }
  destruct r as [[ [o data'] | ] s1]; cbn [fst snd] in *.
  - assert (Hg' : fetcher_grows (self c) (emit (DownloadPdf v (succeeded o)) s1)).
    { eapply fetcher_grows_trans; [ exact Hg | apply fetcher_grows_emit ]. }
    assert (Hout : output_dir (emit (DownloadPdf v (succeeded o)) s1) = out).
    { destruct Hg' as (E & _). rewrite E. apply (fi_out out c Inv). }
    rewrite Hout.
    destruct (after_download _ _ _ _ _) as [ [results tasks] | ] eqn:Ha.
    + apply after_download_record in Ha as [Hstart Hmk].
      assert (Hres : forall r, r ∈ results ->
                       points_to_file out (emit (DownloadPdf v (succeeded o)) s1) r).
      { intros r Hr. destruct (Hmk r Hr) as [Hok Hm].
        destruct o; try discriminate.
        destruct (Hrec data' r eq_refl Hm) as [Hin Hname].
        split; [ exact Hin | exact Hname ]. }
      destruct tasks as [ | t0 tasks ].
      * apply Hnone; [ exact Hg' | discriminate | discriminate | exact Hres ].
      * apply (files_inv_turn out c i _ _ _ _ Inv Hi Hg');
          [ discriminate | discriminate | | exact Hstart ].
        intros r Hr. left. apply Hres, Hr.
    + apply Hnone; [ exact Hg' | discriminate | discriminate | ].
      intros r Hr. inversion Hr.
  - apply Hnone; [ exact Hg | discriminate | discriminate | ].
    intros r Hr. inversion Hr.
Qed.

Lemma step_files_inv (w : world) (path_of : string -> string) (out : string)
    (i : nat) (c c' : crawl) :
  no_named_files w -> all_titled w ->
  files_inv out c ->
  step w (extract_filename_from_response path_of) i c = Some c' ->
  files_inv out c'.
Proof.
  intros Hcd Htitled Inv Hs.
  pose proof (step_grows w _ i c c' Hs) as (Hg & _).
  revert Hs Hg. unfold step.
  destruct (pool c !! i) as [ t | ] eqn:Hi; [ | discriminate ].
  assert (Hin : t ∈ pool c) by (eapply list_elem_of_lookup_2; exact Hi).
  assert (Hnone : forall (s' : fetcher) (new : task),
             fetcher_grows (self c) s' ->
             (forall v d data, new = Downloading v d data -> titled data) ->
             (forall v d data p, new = Saving v d data p ->
                exists name, plain_name name = true /\ p = dir_prefix out +:+ name) ->
             (forall r, r ∈ results_of new ->
                        points_to_file out s' r \/
                        exists t, t ∈ pool c /\ r ∈ results_of t) ->
             files_inv out {| self := s'; pool := <[i := new]> (pool c) |}).
  { intros s' new Hg Hnew Hsav Hres.
    pose proof (files_inv_turn out c i t new s' [] Inv Hi Hg Hnew Hsav Hres) as H.
    rewrite app_nil_r in H. apply H. intros t' Ht'. inversion Ht'. }
  destruct t as [ v d | v d | v d data | v d data fp | results children | | ];
    try discriminate.
  - destruct (enter v d (self c)) as [t s'] eqn:He. intros [= <-] Hg. cbn [self] in Hg.
    unfold enter in He.
    apply Hnone; [ exact Hg | | | ];
      (destruct (negb (hashable v)); [ | destruct (_ || _) ]);
      injection He as <- <-; try discriminate; intros r Hr; inversion Hr.
  - destruct (fetched w v d (self c)) as [t s'] eqn:He. intros [= <-] Hg.
    cbn [self] in Hg. unfold fetched, fetch_paper_details in He.
    destruct (fetch_loop_trace w v retries_default (Z.to_nat retries_default) 0 (self c))
      as (res & s1 & k & Hf & _ & _ & Hans).
    rewrite Hf in He. injection He as <- <-.
    apply Hnone; [ exact Hg | | | ].
    + intros v' d' data E.
      destruct res as [ [ | kv d0 ] | ]; try discriminate. injection E as _ _ <-.
      destruct (Hans _ eq_refl) as (j & _ & Ha). eapply Htitled. exact Ha.
    + intros v' d' data p E. destruct res as [ [ | kv d0 ] | ]; discriminate.
    + intros r Hr. destruct res as [ [ | kv d0 ] | ]; inversion Hr.
  - intros [= <-]. unfold download_started.
    assert (Hdata : titled data) by (eapply (fi_data out c Inv); exact Hin).
    assert (Hplain : forall n u resp name,
               http w n u = Reply resp ->
               extract_filename_from_response path_of resp data = Ok name ->
               plain_name name = true).
    { intros n u resp name Hr Hex.
      pose proof (extractor_names path_of resp data
                    (fun cd => Hcd n u resp cd Hr) Hdata) as H.
      rewrite Hex in H. apply H. }
    destruct (download_pdf_begin w _ data (self c)) as [[ [o data' | p] | ] s1] eqn:Hd.
    + intros Hg.
      apply (files_inv_downloaded out c i _ v d (Ok (o, data'), s1) Inv Hi).
      * pose proof (quiet_download_pdf_begin w (extract_filename_from_response path_of)
                      data (self c)) as Hq.
        pose proof (keeps_files_download_pdf_begin w
                      (extract_filename_from_response path_of) data (self c)) as Hf.
        rewrite Hd in Hq, Hf. cbn [snd] in *.
        apply fetcher_grows_extends; [ exact Hq | exists []; exact Hf ].
      * intros d' rec [= -> <-].
        destruct (download_pdf_begin_reported _ _ _ _ _ _ _ Hd) as [Ho _].
        discriminate.
    + intros Hg. cbn [self] in Hg.
      apply Hnone; [ exact Hg | discriminate | | intros r Hr; inversion Hr ].
      intros v' d' data0 p0 [= _ _ _ <-].
      destruct (download_pdf_begin_opening _ _ _ _ _ _ Hd)
        as (n & u & resp & name & Hh & _ & Hex & _ & _ & ->).
      rewrite (fi_out out c Inv).
      apply target_path_in_dir. eapply Hplain; eassumption.
    + intros Hg. cbn [self] in Hg.
      apply Hnone; [ exact Hg | discriminate | discriminate | ].
      intros r Hr. inversion Hr.
  - intros [= <-] Hg.
    destruct (fi_path out c Inv v d data fp Hin) as (name & Hname & ->).
    apply (files_inv_downloaded out c i _ v d _ Inv Hi).
    + apply fetcher_grows_extends;
        [ apply quiet_download_pdf_end | apply download_pdf_end_files ].
    + intros d' rec. rewrite download_pdf_end_cases.
      destruct (io w _ _); cbn [fst snd]; intros [= <-]; intros Hm.
      apply make_record_path in Hm as [Hfn Hpath].
      rewrite (basename_in_dir _ _ Hname) in Hfn, Hpath.
      rewrite (path_join_plain _ _ Hname) in Hpath.
      split; [ rewrite Hpath; simpl; left | ].
      exists name. auto.
  - unfold gather. destruct (existsb is_failed _).
    + intros [= <-] Hg. unfold set_task. cbn [self] in Hg.
      apply Hnone; [ exact Hg | discriminate | discriminate | ].
      intros r Hr; inversion Hr.
    + destruct (collect _) as [ rs | ] eqn:Hc; [ | discriminate ].
      intros [= <-] Hg. unfold set_task. cbn [self] in Hg.
      apply Hnone; [ exact Hg | discriminate | discriminate | ].
      intros r [ Hr | Hr ]%elem_of_app; right.
      * exists (Gathering results children). auto.
      * eapply collect_results; eassumption.
Qed.

Lemma run_files_inv (w : world) (path_of : string -> string) (out : string)
    (sched : list nat) (c : crawl) :
  no_named_files w -> all_titled w -> files_inv out c ->
  files_inv out (run w (extract_filename_from_response path_of) sched c).
Proof.
  intros Hcd Ht. revert c.
  induction sched as [ | i sched IH ]; intros c Inv; simpl; [ exact Inv | ].
  apply IH. destruct (step w _ i c) as [ c' | ] eqn:Hs; [ | exact Inv ].
  eapply step_files_inv; eassumption.
Qed.

(** X22: the records name files that exist.  When the servers send no
    file name in a [Content-Disposition] header and the metadata of every
    paper has a title, then in every run of a crawl, every record held or
    returned by a coroutine has as [pdf_path] the path of a file that
    exists, directly in the output directory, with [filename] its name. *)
Theorem records_point_to_files
    (w : world) (path_of : string -> string)
    (out : string) (fs : list string) (root : json) (depth : Z) (sched : list nat) :
  no_named_files w -> all_titled w ->
  let c := run w (extract_filename_from_response path_of) sched
             (process_paper (new_fetcher out fs) root depth) in
  forall t r, t ∈ pool c -> r ∈ results_of t -> points_to_file out (self c) r.
Proof.
  intros Hcd Ht c.
  apply (fi_records out c). apply run_files_inv; [ exact Hcd | exact Ht | ].
  constructor; simpl.
  - reflexivity.
  - intros v d data [ E | H ]%elem_of_cons; [ discriminate | inversion H ].
  - intros v d data p [ E | H ]%elem_of_cons; [ discriminate | inversion H ].
  - intros t r [ -> | H ]%elem_of_cons Hr; [ inversion Hr | inversion H ].
Qed.

Lemma records_point_to_files_witness :
  points_to_file "papers"
    (self (run world_titled (extract_filename_from_response path_of_example)
             [0; 0; 0; 0]%nat (process_paper (new_fetcher "papers" []) (JStr "P1") 0)))
    {| rec_id := JStr "P1"; rec_title := JStr "Deep Learning: a (short) review";
       rec_authors := [JStr "Ada"]; rec_year := JNull; rec_url := JNull;
       rec_filename := JStr "Deep_Learning_a_short_review.pdf";
       rec_pdf_path := "papers/Deep_Learning_a_short_review.pdf" |}.
Proof.
  refine (records_point_to_files world_titled path_of_example "papers" []
            (JStr "P1") 0 [0; 0; 0; 0]%nat _ _ (Returned [_]) _ _ _).
  - intros n u resp cd [= <-]. simpl. discriminate.
  - intros n paper_id d (r & [= <-] & _ & [= <-]). reflexivity.
  - vm_compute. left.
  - left.
Defined.

(** ** The downloads and the rate limit *)

Lemma unthrottled_silent {A} (m : prog A) : silent m -> unthrottled m.
Proof.
  intros H s. pose proof (H s) as E. split; [ rewrite E; reflexivity | ].
  exists []. split; [ rewrite E; symmetry; apply app_nil_r | constructor ].
Qed.

Lemma unthrottled_bind {A B} (m : prog A) (k : A -> prog B) :
  unthrottled m -> (forall a, unthrottled (k a)) -> unthrottled (bind m k).
Proof.
  intros Hm Hk s. unfold bind. destruct (Hm s) as (Ht & l & Hl & Hf).
  destruct (m s) as [[ a | ] s1]; simpl in *; [ | eauto ].
  destruct (Hk a s1) as (Ht' & l' & Hl' & Hf').
  split; [ congruence | ]. exists (l ++ l').
  split; [ rewrite Hl', Hl, app_assoc; reflexivity | apply Forall_app; auto ].
Qed.

Lemma unthrottled_try_except {A} (m h : prog A) :
  unthrottled m -> unthrottled h -> unthrottled (try_except m h).
Proof.
  intros Hm Hh s. unfold try_except. destruct (Hm s) as (Ht & l & Hl & Hf).
  destruct (m s) as [[ a | ] s1]; simpl in *; [ eauto | ].
  destruct (Hh s1) as (Ht' & l' & Hl' & Hf').
  split; [ congruence | ]. exists (l ++ l').
  split; [ rewrite Hl', Hl, app_assoc; reflexivity | apply Forall_app; auto ].
Qed.

Lemma unthrottled_session_get (w : world) (u : string) : unthrottled (session_get w u).
Proof.
  intros s. unfold session_get.
  destruct (http w (requests (log s)) u); (split; [ reflexivity | ]);
    exists [Get u]; (split; [ reflexivity | repeat constructor ]).
Qed.

Lemma unthrottled_write_file (w : world) (p : string) : unthrottled (write_file w p).
Proof.
  intros s. unfold write_file. destruct (io w (length (log s)) p); simpl.
  - split; [ reflexivity | ]. exists [Create p]. split; [ reflexivity | repeat constructor ].
  - split; [ reflexivity | ]. exists []. split; [ symmetry; apply app_nil_r | constructor ].
  - split; [ reflexivity | ]. exists [Create p]. split; [ reflexivity | repeat constructor ].
Qed.

Ltac unthrottled_step :=
  match goal with
  | |- unthrottled (bind _ _) => apply unthrottled_bind; [ | intros ? ]
  | |- unthrottled (try_except _ _) => apply unthrottled_try_except
  | |- unthrottled (session_get _ _) => apply unthrottled_session_get
  | |- unthrottled (write_file _ _) => apply unthrottled_write_file
  | |- unthrottled (if ?b then _ else _) => destruct b
  | |- unthrottled (match ?x with _ => _ end) => destruct x
  | |- unthrottled _ => apply unthrottled_silent; solve [ repeat silent_step ]
  end.

Lemma unthrottled_resolve_pdf_url (w : world) (d : dict) :
  unthrottled (resolve_pdf_url w d).
Proof.
  unfold resolve_pdf_url, try_alternative_sources, or_else,
    try_arxiv, try_unpaywall, try_core, external_id.
  repeat unthrottled_step.
Qed.

Lemma unthrottled_save_pdf (w : world) ex (d : dict) (u : json) :
  unthrottled (save_pdf w ex d u).
Proof.
  unfold save_pdf, session_get_value. apply unthrottled_bind.
  - destruct u; try solve [ apply unthrottled_silent; repeat silent_step ].
    apply unthrottled_session_get.
  - intros r. destruct (status r =? 200);
      [ | apply unthrottled_silent; repeat silent_step ].
    apply unthrottled_bind; [ apply unthrottled_silent; repeat silent_step | ].
    intros filename s.
    apply (unthrottled_bind (write_file w _) (fun _ => ret _));
      [ apply unthrottled_write_file | ].
    intros _. apply unthrottled_silent. repeat silent_step.
Qed.

(** X23: the downloads take no part in the rate limiting.  Whatever the
    metadata and the network, [download_pdf], with the requests to arXiv,
    Unpaywall and CORE and the download itself, never sleeps and leaves
    [last_request_time] as it is: all it adds to the trace are its
    requests and the file it opens. *)
Theorem downloads_not_rate_limited
    (w : world) (ex : response -> dict -> result string) (d : dict) (s : fetcher) :
  let s' := snd (download_pdf w ex d s) in
  last_request_time s' = last_request_time s /\
  exists l, log s' = log s ++ l /\ Forall transfer l.
Proof.
  apply (unthrottled_try_except _ _).
  - apply unthrottled_bind; [ apply unthrottled_resolve_pdf_url | ].
    intros u. destruct (negb (truthy u));
      [ apply unthrottled_silent; repeat silent_step | apply unthrottled_save_pdf ].
  - apply unthrottled_silent. repeat silent_step.
Qed.

(** ** The downloader: two downloads of one file name (C7) *)

(** C7 fails in the program: [R] cites [A] and [B], which have the same
    title.  When the two downloads overlap, each tests
    [papers/Same.pdf] before the other has opened it, both are saved at
    that path, the second over the first, and both records name it.  The
    loop of lines 141-145 gives the second download the suffix [_1] only
    when the first has ended before the second tests the path, as in the
    second schedule. *)
Lemma concurrent_downloads_share_a_path :
  let ex := extract_filename_from_response url_path in
  let start := process_paper (new_fetcher "papers" []) (JStr "R") 1 in
  let c := run world_same_title ex schedule_overlap start in
  let c' := run world_same_title ex schedule_in_turn start in
  (exists ra rb,
     pool c !! 0%nat = Some (Returned [ra; rb]) /\
     rec_id ra = JStr "A" /\ rec_id rb = JStr "B" /\
     rec_pdf_path ra = "papers/Same.pdf" /\ rec_pdf_path rb = "papers/Same.pdf") /\
  created_paths (log (self c)) = ["papers/Same.pdf"; "papers/Same.pdf"] /\
  (exists ra rb,
     pool c' !! 0%nat = Some (Returned [ra; rb]) /\
     rec_id ra = JStr "A" /\ rec_id rb = JStr "B" /\
     rec_pdf_path ra = "papers/Same.pdf" /\ rec_pdf_path rb = "papers/Same_1.pdf") /\
  ~ never_overwrites.
Proof.
  intros ex start c c'.
  assert (Hc : created_paths (log (self c)) = ["papers/Same.pdf"; "papers/Same.pdf"])
    by (vm_compute; reflexivity).
  split; [ eexists _, _; repeat split; vm_compute; reflexivity | ].
  split; [ exact Hc | ].
  split; [ eexists _, _; repeat split; vm_compute; reflexivity | ].
  intros H.
  destruct (H world_same_title ex "papers" [] (JStr "R") 1 schedule_overlap) as [Hnd _].
  fold start in Hnd. fold c in Hnd. rewrite Hc in Hnd.
  apply NoDup_cons in Hnd as [Hin _]. apply Hin. left.
Qed.

(** ** The crawler: what a crawl with depth N processes (C5) *)









Lemma downloaded_not_fetching (c : crawl) (i : nat) (v : json) (d : Z)
    (r : result (outcome * dict) * fetcher) (t : task) :
  (i < length (pool c))%nat ->
  pool (downloaded i v d r c) !! i = Some t -> fetching_id t = None.
Proof.
  intros Hlt. destruct (downloaded_shape c i v d r) as (t' & s' & ids & -> & H).
  cbn [pool]. rewrite (lookup_turn_new _ _ _ _ Hlt). intros [= <-].
  destruct H as [ [H _] | (rs & ->) ]; [ | reflexivity ].
  destruct t'; try discriminate; reflexivity.
Qed.









(** ** The collision loop, when downloads do not overlap *)

(** X24: the loop of lines 141-145 as a function of the paths that exist
    when it runs.  It ends, on a path that does not exist: the path
    itself when that is free, and otherwise, with the path and its
    candidates [_1] .. [_(k-1)] taken and [_k] free, the candidate [_k]
    before the extension.  This is the path [download_pdf] then opens.
    So the second of two downloads of one file name that do not overlap
    is saved with [_1], at a path different from the first. *)
Theorem collision_loop_picks_free_suffix (fs : list string) (out filename : string) :
  let filepath := path_join out filename in
  let base := fst (splitext filepath) in
  let ext := snd (splitext filepath) in
  (target_path fs out filename ∉ fs) /\
  (filepath ∉ fs -> target_path fs out filename = filepath) /\
  (forall k : nat,
     (1 <= k)%nat -> filepath ∈ fs ->
     (forall j, 1 <= j < Z.of_nat k -> candidate base ext j ∈ fs) ->
     candidate base ext (Z.of_nat k) ∉ fs ->
     target_path fs out filename = candidate base ext (Z.of_nat k)) /\
  (filepath ∉ fs -> base +:+ "_1" +:+ ext ∉ fs ->
   target_path (target_path fs out filename :: fs) out filename
   = base +:+ "_1" +:+ ext) /\
  target_path (target_path fs out filename :: fs) out filename
  <> target_path fs out filename /\
  (forall w ex d s p s1,
     download_pdf_begin w ex d s = (Ok (Opening p), s1) ->
     exists n u resp name,
       http w n u = Reply resp /\ status resp = 200 /\ ex resp d = Ok name /\
       output_dir s1 = output_dir s /\ files s1 = files s /\
       p = target_path (files s) (output_dir s) name).
Proof.
  intros filepath base ext.
  assert (Hplain : forall fs', filepath ∉ fs' -> target_path fs' out filename = filepath).
  { intros fs' H. unfold target_path. fold filepath.
    destruct (splitext filepath) as [b e].
    destruct (length fs'); simpl; rewrite (proj2 (path_exists_not fs' _) H);
      reflexivity. }
  assert (Hsuffix : forall fs' (k : nat),
             (1 <= k)%nat -> filepath ∈ fs' ->
             (forall j, 1 <= j < Z.of_nat k -> candidate base ext j ∈ fs') ->
             candidate base ext (Z.of_nat k) ∉ fs' ->
             target_path fs' out filename = candidate base ext (Z.of_nat k)).
  { intros fs' k Hk Hfp Hc Hfree. unfold target_path. fold filepath.
    pose proof (splitext_append filepath) as Hsplit. subst base ext.
    destruct (splitext filepath) as [b e]. simpl in *.
    replace (Z.of_nat k) with (1 + Z.of_nat (k - 1)) in * by lia.
    apply adjust_filename_suffix; try assumption.
    apply (taken_length fs' b e); [ | exact Hc ].
    rewrite Hsplit. exact Hfp. }
  split; [ apply target_path_free | ].
  split; [ apply Hplain | ].
  split; [ apply Hsuffix | ].
  split; [ | split ].
  - intros Hfree H1. rewrite (Hplain fs Hfree).
    apply (Hsuffix (filepath :: fs) 1%nat).
    + lia.
    + left.
    + intros j Hj. lia.
    + intros [H | H]%elem_of_cons; [ | exact (H1 H) ].
      pose proof (splitext_append filepath) as Hsplit. fold base ext in Hsplit.
      apply (candidate_not_plain base ext 1). rewrite Hsplit. exact H.
  - intros H.
    apply (target_path_free (target_path fs out filename :: fs) out filename).
    rewrite H. left.
  - intros w ex d s p s1. apply download_pdf_begin_opening.
Qed.

Lemma collision_loop_picks_free_suffix_witness :
  target_path ["papers/a.pdf"; "papers/a_1.pdf"] "papers" "a.pdf" = "papers/a_2.pdf" /\
  target_path ["papers/a.pdf"] "papers" "a.pdf" = "papers/a_1.pdf".
Proof.
  split.
  - destruct (collision_loop_picks_free_suffix ["papers/a.pdf"; "papers/a_1.pdf"]
                "papers" "a.pdf") as (_ & _ & H & _).
    apply (H 2%nat).
    + lia.
    + apply path_exists_elem. reflexivity.
    + intros j Hj. replace j with 1 by lia. apply path_exists_elem. reflexivity.
    + apply path_exists_not. reflexivity.
  - destruct (collision_loop_picks_free_suffix [] "papers" "a.pdf")
      as (_ & H0 & _ & H & _).
    rewrite <- (H0 ltac:(apply path_exists_not; reflexivity)) at 1.
    apply H; apply path_exists_not; reflexivity.
Defined.
